(** * gh-migrate-packages: a shallow embedding of the synchronization engine

    The development follows the Go sources package by package:
    - [GoStrings]: the functions of Go's [strings] and [path/filepath]
      the code calls;
    - [pkg]: [pkg/package/package.go], the domain model and the validators;
    - [api]: the GraphQL client with its rate-limit probe, the catalog
      fetch, the retry loop and the container upload;
    - [sync]: the mapping table, name resolution, the worker of a package
      with its version goroutines, and [processConcurrently] as a whole.

    Go's [error] interface is the type [error] below, with [nil] as [None];
    a run-time panic is the [Panic] outcome. Names are byte strings. *)

From Stdlib Require Import ZArith Ascii String List Lia Bool.
From stdpp Require Import base option list gmap strings pretty.

Local Open Scope string_scope.
Local Open Scope Z_scope.

(** ** Go's [strings] and [path/filepath] functions used by the code *)

Module GoStrings.

(** [strings.HasPrefix(s, prefix)] *)
Definition HasPrefix (s prefix : string) : bool := String.prefix prefix s.

(** [strings.HasSuffix(s, suffix)] *)
Fixpoint HasSuffix (s suffix : string) : bool :=
  if String.eqb s suffix then true
  else match s with
       | EmptyString => false
       | String _ s' => HasSuffix s' suffix
       end.

(** [strings.Contains(s, substr)] *)
Fixpoint Contains (s substr : string) : bool :=
  if String.prefix substr s then true
  else match s with
       | EmptyString => false
       | String _ s' => Contains s' substr
       end.

(** [strings.ContainsAny(s, chars)]: the character sets in the source are
    ASCII, so matching bytes is matching code points. *)
Definition ContainsAny (s chars : string) : bool :=
  existsb (fun c => existsb (Ascii.eqb c) (list_ascii_of_string chars))
          (list_ascii_of_string s).

(** [strings.Split(s, sep)] for a one-byte separator, which is how the
    source calls it. [Split "" sep] is the one-element list of the empty
    string, as in Go. *)
Fixpoint Split (s : string) (sep : ascii) : list string :=
  match s with
  | EmptyString => [EmptyString]
  | String c s' =>
      if Ascii.eqb c sep then EmptyString :: Split s' sep
      else match Split s' sep with
           | [] => [String c EmptyString]
           | h :: t => String c h :: t
           end
  end.

Definition lower_ascii (c : ascii) : ascii :=
  let n := nat_of_ascii c in
  if (Nat.leb 65 n && Nat.leb n 90)%bool then ascii_of_nat (n + 32) else c.

(** [strings.ToLower(s)] on ASCII letters; bytes above 127 are kept. *)
Fixpoint ToLower (s : string) : string :=
  match s with
  | EmptyString => EmptyString
  | String c s' => String (lower_ascii c) (ToLower s')
  end.

(** [strings.Join(elems, sep)] *)
Fixpoint Join (elems : list string) (sep : string) : string :=
  match elems with
  | [] => EmptyString
  | [e] => e
  | e :: rest => e ++ sep ++ Join rest sep
  end.

(** The part of [s] after its last ['/'] ([s] itself when there is none). *)
Fixpoint lastElem (s : string) : string :=
  match s with
  | EmptyString => EmptyString
  | String c s' =>
      if Contains s' "/" then lastElem s'
      else if Ascii.eqb c "/"%char then s' else s
  end.

(** The suffix of [s] from its last ['.'] on, if it has one. *)
Fixpoint fromLastDot (s : string) : option string :=
  match s with
  | EmptyString => None
  | String c s' =>
      match fromLastDot s' with
      | Some e => Some e
      | None => if Ascii.eqb c "."%char then Some s else None
      end
  end.

(** [filepath.Ext(path)]: the suffix beginning at the final dot in the
    final element of [path]; empty if there is no dot. *)
Definition Ext (path : string) : string :=
  match fromLastDot (lastElem path) with
  | Some e => e
  | None => EmptyString
  end.


(** [s] without its trailing slashes. *)
Fixpoint stripTrailing (s : string) : string :=
  match s with
  | EmptyString => EmptyString
  | String c s' =>
      match stripTrailing s' with
      | EmptyString =>
          if Ascii.eqb c "/"%char then EmptyString else String c EmptyString
      | r => String c r
      end
  end.

(** [filepath.Base(path)] on Unix: the last element of [path] without its
    trailing slashes; ["."] for the empty path and ["/"] for a path of
    slashes only. *)
Definition Base (path : string) : string :=
  if String.eqb path "" then "."
  else
    let path := lastElem (stripTrailing path) in
    if String.eqb path "" then "/" else path.

(** The number of occurrences of the byte [c] in [s]. *)
Fixpoint countChar (c : ascii) (s : string) : nat :=
  match s with
  | EmptyString => O
  | String a s' => (if Ascii.eqb a c then 1 else 0)%nat + countChar c s'
  end.

End GoStrings.

(** ** Errors and outcomes *)

(** A Go [error] value: a [*ValidationError] of [pkg/package/package.go], or
    the result of [fmt.Errorf] (its formatted message). *)
Inductive error : Type :=
| ValidationError (PackageName PackageType Message : string)
| Errorf (msg : string).

(** The [Error()] method. *)
Definition Error (e : error) : string :=
  match e with
  | ValidationError name ty msg =>
      "validation error for " ++ ty ++ " package '" ++ name ++ "': " ++ msg
  | Errorf msg => msg
  end.

Global Instance error_eq_dec : EqDecision error.
Proof. solve_decision. Defined.

(** ** pkg/package/package.go *)

Module pkg.
Import GoStrings.

Record File := mkFile {
  file_Name : string;
  file_Size : Z;
  file_SHA256 : string;
  file_URL : string
}.

Record Version := mkVersion {
  ver_ID : string;
  ver_Name : string;
  ver_Metadata : gmap string string;
  ver_Files : list File;
  ver_CreatedAt : string;
  ver_UpdatedAt : string
}.

Record Owner := mkOwner { own_Login : string; own_Type : string }.

Record Repository := mkRepository {
  repo_Name : string;
  repo_FullName : string;
  repo_URL : string
}.

Record Statistics := mkStatistics { stat_DownloadsCount : Z }.

Record Package := mkPackage {
  pkg_ID : string;
  pkg_Name : string;
  pkg_PackageType : string;
  pkg_Visibility : string;
  pkg_Owner : Owner;
  pkg_Versions : list Version;
  pkg_Repository : option Repository;
  pkg_Statistics : option Statistics
}.

Definition PackageTypeContainer : string := "container".
Definition PackageTypeNpm : string := "npm".
Definition PackageTypeMaven : string := "maven".
Definition PackageTypeNuGet : string := "nuget".
Definition PackageTypeRubyGems : string := "rubygems".

(** The [PackageValidator] interface. *)
Record PackageValidator := mkValidator {
  V_ValidatePackage : Package -> option error;
  V_ValidateVersion : Version -> option error;
  V_GetMaxFileSize : Z;
  V_GetRequiredFiles : list string
}.

(** [for _, file := range files { if cond(file) { return err(file) } }] *)
Fixpoint firstFileError (cond : File -> bool) (err : File -> error)
         (files : list File) : option error :=
  match files with
  | [] => None
  | f :: rest => if cond f then Some (err f) else firstFileError cond err rest
  end.

(** [has := false; for ... { if cond(file) { has = true; break } }] *)
Definition hasFile (cond : File -> bool) (files : list File) : bool :=
  existsb cond files.

(** *** ContainerValidator *)

Definition ContainerValidator_ValidatePackage (p : Package) : option error :=
  if Contains (pkg_Name p) ":" then
    Some (ValidationError (pkg_Name p) PackageTypeContainer
            "container name cannot contain ':' character")
  else None.

Definition ContainerValidator_ValidateVersion (ver : Version) : option error :=
  firstFileError
    (fun file => 10 * 1024 * 1024 * 1024 <? file_Size file)
    (fun file => ValidationError "" PackageTypeContainer
                   ("file " ++ file_Name file ++ " exceeds 10GB layer limit"))
    (ver_Files ver).

Definition ContainerValidator : PackageValidator :=
  mkValidator ContainerValidator_ValidatePackage
              ContainerValidator_ValidateVersion
              (10 * 1024 * 1024 * 1024)
              ["manifest.json"; "config.json"].

(** *** NpmValidator *)

Definition NpmValidator_ValidatePackage (p : Package) : option error :=
  if negb (HasPrefix (pkg_Name p) "@") then
    Some (ValidationError (pkg_Name p) PackageTypeNpm
            "npm package name must start with '@' for scoped packages")
  else None.

Definition NpmValidator_ValidateVersion (ver : Version) : option error :=
  let hasPackageJson :=
    hasFile (fun file => String.eqb (file_Name file) "package.json")
            (ver_Files ver) in
  if negb hasPackageJson then
    Some (ValidationError "" PackageTypeNpm "missing required package.json file")
  else None.

Definition NpmValidator : PackageValidator :=
  mkValidator NpmValidator_ValidatePackage NpmValidator_ValidateVersion
              (256 * 1024 * 1024) ["package.json"].

(** *** MavenValidator *)

Definition MavenValidator_ValidatePackage (p : Package) : option error :=
  let parts := Split (pkg_Name p) ":"%char in
  if negb (Nat.eqb (length parts) 2) then
    Some (ValidationError (pkg_Name p) PackageTypeMaven
            "maven package name must be in format 'groupId:artifactId'")
  else None.

Definition MavenValidator_ValidateVersion (ver : Version) : option error :=
  let hasPom :=
    hasFile (fun file => String.eqb (file_Name file) "pom.xml") (ver_Files ver) in
  if negb hasPom then
    Some (ValidationError "" PackageTypeMaven "missing required pom.xml file")
  else None.

Definition MavenValidator : PackageValidator :=
  mkValidator MavenValidator_ValidatePackage MavenValidator_ValidateVersion
              (1024 * 1024 * 1024) ["pom.xml"].

(** *** NuGetValidator *)

(** The punctuation that [NuGetValidator] and [RubyGemsValidator] refuse in a
    name; character 034 is the double quote. *)
Definition specialChars : string :=
  "!@#$%^&*()+=[]{}|\:;" ++ String "034"%char "'<>?,/".

Definition NuGetValidator_ValidatePackage (p : Package) : option error :=
  if ContainsAny (pkg_Name p) specialChars then
    Some (ValidationError (pkg_Name p) PackageTypeNuGet
            "invalid package name: must follow .NET namespace conventions")
  else None.

Definition NuGetValidator_ValidateVersion (ver : Version) : option error :=
  let hasNupkg :=
    hasFile (fun file => HasSuffix (file_Name file) ".nupkg") (ver_Files ver) in
  if negb hasNupkg then
    Some (ValidationError "" PackageTypeNuGet "missing required .nupkg file")
  else
    let hasNuspec :=
      hasFile (fun file => HasSuffix (file_Name file) ".nuspec") (ver_Files ver) in
    if negb hasNuspec then
      Some (ValidationError "" PackageTypeNuGet "missing required .nuspec file")
    else None.

Definition NuGetValidator : PackageValidator :=
  mkValidator NuGetValidator_ValidatePackage NuGetValidator_ValidateVersion
              (250 * 1024 * 1024) [".nupkg"; ".nuspec"].

(** *** RubyGemsValidator *)

Definition RubyGemsValidator_ValidatePackage (p : Package) : option error :=
  if ContainsAny (pkg_Name p) (String " "%char specialChars) then
    Some (ValidationError (pkg_Name p) PackageTypeRubyGems
            "invalid package name: can only contain alphanumeric characters, dashes, and underscores")
  else if negb (String.eqb (ToLower (pkg_Name p)) (pkg_Name p)) then
    Some (ValidationError (pkg_Name p) PackageTypeRubyGems
            "package name must be lowercase")
  else None.

Definition RubyGemsValidator_ValidateVersion (ver : Version) : option error :=
  let hasGemFile :=
    hasFile (fun file => HasSuffix (file_Name file) ".gem") (ver_Files ver) in
  if negb hasGemFile then
    Some (ValidationError "" PackageTypeRubyGems "missing required .gem file")
  else
    let hasGemspec :=
      hasFile (fun file => HasSuffix (file_Name file) ".gemspec") (ver_Files ver) in
    if negb hasGemspec then
      Some (ValidationError "" PackageTypeRubyGems "missing required .gemspec file")
    else
      firstFileError
        (fun file => (HasSuffix (file_Name file) "metadata.gz"
                      && (2 * 1024 * 1024 <? file_Size file))%bool)
        (fun _ => ValidationError "" PackageTypeRubyGems
                    "metadata.gz file must be less than 2MB")
        (ver_Files ver).

Definition RubyGemsValidator : PackageValidator :=
  mkValidator RubyGemsValidator_ValidatePackage RubyGemsValidator_ValidateVersion
              (512 * 1024 * 1024) [".gem"; ".gemspec"].

(** *** The factory and the helper *)

Definition GetValidator (pkgType : string) : PackageValidator + error :=
  if String.eqb pkgType PackageTypeContainer then inl ContainerValidator
  else if String.eqb pkgType PackageTypeNpm then inl NpmValidator
  else if String.eqb pkgType PackageTypeMaven then inl MavenValidator
  else if String.eqb pkgType PackageTypeNuGet then inl NuGetValidator
  else if String.eqb pkgType PackageTypeRubyGems then inl RubyGemsValidator
  else inr (Errorf ("unsupported package type: " ++ pkgType)).

(** [for _, version := range pkg.Versions { if err := ...; err != nil { return err } }] *)
Fixpoint validateVersions (validator : PackageValidator)
         (versions : list Version) : option error :=
  match versions with
  | [] => None
  | version :: rest =>
      match V_ValidateVersion validator version with
      | Some err => Some err
      | None => validateVersions validator rest
      end
  end.

(** [func ValidatePackage(pkg *Package) error] *)
Definition ValidatePackage (p : Package) : option error :=
  match GetValidator (pkg_PackageType p) with
  | inr err => Some err
  | inl validator =>
      match V_ValidatePackage validator p with
      | Some err => Some err
      | None => validateVersions validator (pkg_Versions p)
      end
  end.

(** The validation before the fan-out of [processConcurrently] as the
    specification words it: the package-level rule of the package's type and
    nothing else. It is here to be compared with [ValidatePackage]. *)
Definition ValidatePackage_packageLevelOnly (p : Package) : option error :=
  match GetValidator (pkg_PackageType p) with
  | inr err => Some err
  | inl validator => V_ValidatePackage validator p
  end.

End pkg.

(** A call either returns a value, returns an error, or panics. *)
Inductive outcome (A : Type) : Type :=
| Ok (a : A)
| Err (e : error)
| Panic (msg : string).
Arguments Ok {A} a.
Arguments Err {A} e.
Arguments Panic {A} msg.

(** ** encoding/csv: the reader of the mapping file *)

Module GoCsv.

(** A record as the reader splits it off the input: the line it starts
    at and its fields. The reader skips blank lines, so a record has at
    least one field. *)
Record record := mkRecord {
  rec_line : nat;
  rec_first : string;
  rec_more : list string
}.

Definition fields (r : record) : list string := rec_first r :: rec_more r.

(** [ErrFieldCount] in a [ParseError]:
    [fmt.Sprintf("record on line %d: %v", e.Line, e.Err)]. *)
Definition ErrFieldCount (r : record) : string :=
  "record on line " ++ pretty (rec_line r) ++ ": wrong number of fields".

(** The loop of [Reader.ReadAll] once [FieldsPerRecord] is positive: a
    record with another number of fields ends the read with an error and
    no record is returned. *)
Fixpoint readRecords (fieldsPerRecord : nat) (input : list record)
  : string + list (list string) :=
  match input with
  | [] => inr []
  | r :: rest =>
      if negb (length (fields r) =? fieldsPerRecord)%nat then inl (ErrFieldCount r)
      else match readRecords fieldsPerRecord rest with
           | inl err => inl err
           | inr records => inr (fields r :: records)
           end
  end.

(** [func (r *Reader) ReadAll() ([][]string, error)] of a reader made by
    [csv.NewReader]: [FieldsPerRecord] is zero, so the first record sets
    the number of fields that every later record must have. *)
Definition ReadAll (input : list record) : string + list (list string) :=
  match input with
  | [] => inr []
  | r :: _ => readRecords (length (fields r)) input
  end.
End GoCsv.

(** ** pkg/sync: mappings, name resolution and the concurrent worker *)

Module sync.
Import GoStrings pkg.

Record ValidationReport := mkReport {
  PackageName : string;
  PackageType : string;
  Status : string;
  ErrorMessage : string;
  VersionsCount : nat;
  TotalSize : Z
}.

(** What is at a path: a file that [os.Open] cannot open, a file whose
    content the CSV reader cannot split into records (a quote out of
    place, a failing read), or a file with its records in order. *)
Inductive csvFile : Type :=
| OpenFails (err : string)
| ReadFails (err : string)
| Content (input : list GoCsv.record).

(** The body of [for _, record := range records[1:]]. *)
Definition addRecord (mappings : gmap string string) (record : list string)
  : gmap string string :=
  match record with
  | r0 :: r1 :: _ => <[r0 := r1]> mappings
  | _ => mappings
  end.

(** [func (s *PackageSync) LoadMappings(mappingFile string) error], with the
    receiver's [mappings] passed in and the updated table returned. *)
Definition LoadMappings (fs : string -> csvFile)
           (mappings : gmap string string) (mappingFile : string)
  : outcome (gmap string string) :=
  if String.eqb mappingFile "" then Ok mappings
  else match fs mappingFile with
       | OpenFails err => Err (Errorf ("failed to open mapping file: " ++ err))
       | ReadFails err => Err (Errorf ("failed to read mapping file: " ++ err))
       | Content input =>
           match GoCsv.ReadAll input with
           | inl err => Err (Errorf ("failed to read mapping file: " ++ err))
           | inr records =>
               match records with
               | [] => Panic "runtime error: slice bounds out of range [1:0]"
               | _ :: rows => Ok (foldl addRecord mappings rows)
               end
           end
       end.

(** [NewPackageSync]: [mappings: make(map[string]string)]. *)
Definition NewPackageSync_mappings : gmap string string := ∅.

(** [func (s *PackageSync) getTargetPackageName(sourceName string) string] *)
Definition getTargetPackageName (mappings : gmap string string)
           (sourceName : string) : string :=
  match mappings !! sourceName with
  | Some targetName => targetName
  | None => sourceName
  end.

(** *** The worker of [processConcurrently]

    [processConcurrently] starts one worker goroutine per package (lines
    88-176); the workers share nothing but the semaphore and the [results]
    channel. One package's worker (lines 92-175) and the version goroutines
    it starts (lines 120-153) are a transition system. A step is taken by
    the worker itself or by one of its version goroutines, in any order, and
    is labelled by the events it performs; the results of the network calls
    are chosen by the environment. [pkg.ValidatePackage(&pkg)] is the helper
    [ValidatePackage] of [pkg/package/package.go]. *)

(** What a step does: the validation with its result; the start of the
    goroutine of version [i]; a download attempt of version [i], numbered
    [retries], with its error; a sleep; the upload with its error; an error
    put on [versionErrors]; [versionWg.Done()]; the return of
    [versionWg.Wait()]; a report sent on [results]. *)

Inductive event : Type :=
| EvValidate (err : option error)
| EvSpawn (i : nat)
| EvDownload (i : nat) (version : string) (retries : nat) (err : option error)
| EvSleep (i : nat) (d : Z)
| EvUpload (i : nat) (targetName version data : string) (err : option error)
| EvVersionErr (i : nat) (e : error)
| EvVersionDone (i : nat)
| EvWait
| EvSend (r : ValidationReport).

(** Where a version goroutine stands: at the head of the retry loop, at
    the upload, or returned (with the error it put on [versionErrors]). *)
Inductive gpc : Type :=
| GLoop (retries : nat) (data : string) (err : option error)
| GUpload (data : string)
| GDone (res : option error).

(** Where the worker stands. *)
Inductive wpc : Type :=
| PcValidate
| PcSpawn (rest : list Version)
| PcWait
| PcReport
| PcDone.

Record wstate := mkW {
  w_pc : wpc;
  w_gs : list (Version * gpc);   (* the version goroutines, in start order *)
  w_wg : nat;                    (* the counter of versionWg *)
  w_errs : list error;           (* the buffer of versionErrors *)
  w_sent : list ValidationReport (* what was sent on results *)
}.

(** Who moves, and what the network call of that step returns. *)
Inductive choice : Type :=
| CWorker
| CGo (i : nat) (data : string) (err : option error).

Section Worker.
(** [maxRetries] and [retryDelay] are package-level constants of
    [pkg/sync] that the file uses without declaring. *)
Variable maxRetries : nat.
Variable retryDelay : Z.
Variable mappings : gmap string string.
Variable p : Package.

Definition newReport : ValidationReport :=
  mkReport (pkg_Name p) (pkg_PackageType p) "" "" (length (pkg_Versions p)) 0.

Definition withStatus (r : ValidationReport) (status msg : string)
  : ValidationReport :=
  mkReport (PackageName r) (PackageType r) status msg
           (VersionsCount r) (TotalSize r).

Definition failedReport (err : error) : ValidationReport :=
  withStatus newReport "Failed" (Error err).

(** Lines 160-171: the status from the drained [versionErrors]. *)
Definition finalReport (errs : list error) : ValidationReport :=
  let errMsgs := map Error errs in
  if (0 <? length errMsgs)%nat
  then withStatus newReport "Partial Success" (Join errMsgs "; ")
  else withStatus newReport "Success" "".

Definition downloadErr (v : Version) (err : error) : error :=
  Errorf ("failed to download version " ++ ver_Name v ++ ": " ++ Error err).

Definition uploadErr (v : Version) (err : error) : error :=
  Errorf ("failed to upload version " ++ ver_Name v ++ ": " ++ Error err).

(** One step of the goroutine of version [v], the [i]-th started. *)
Definition gstep (i : nat) (v : Version) (c_data : string)
           (c_err : option error) (g : gpc) : option (list event * gpc) :=
  match g with
  | GLoop retries data err =>
      if (retries <? maxRetries)%nat then
        match c_err with
        | None =>
            Some ([EvDownload i (ver_Name v) retries None], GUpload c_data)
        | Some e =>
            Some ([EvDownload i (ver_Name v) retries (Some e);
                   EvSleep i (retryDelay * Z.of_nat (retries + 1))],
                  GLoop (S retries) c_data (Some e))
        end
      else
        match err with
        | Some e =>
            Some ([EvVersionErr i (downloadErr v e); EvVersionDone i],
                  GDone (Some (downloadErr v e)))
        | None => Some ([], GUpload data)
        end
  | GUpload data =>
      let targetName := getTargetPackageName mappings (pkg_Name p) in
      match c_err with
      | None =>
          Some ([EvUpload i targetName (ver_Name v) data None; EvVersionDone i],
                GDone None)
      | Some e =>
          Some ([EvUpload i targetName (ver_Name v) data (Some e);
                 EvVersionErr i (uploadErr v e); EvVersionDone i],
                GDone (Some (uploadErr v e)))
      end
  | GDone _ => None
  end.

(** A version goroutine run on its own, under the results of its calls. *)
Fixpoint grun (i : nat) (v : Version) (cs : list (string * option error))
         (g : gpc) : option (list event * gpc) :=
  match cs with
  | [] => Some ([], g)
  | (c_data, c_err) :: cs' =>
      match gstep i v c_data c_err g with
      | Some (evs, g') =>
          match grun i v cs' g' with
          | Some (evs', g'') => Some ((evs ++ evs')%list, g'')
          | None => None
          end
      | None => None
      end
  end.

(** What a goroutine's step does to [versionWg] and [versionErrors]. *)
Definition afterG (g' : gpc) (wg : nat) (errs : list error)
  : nat * list error :=
  match g' with
  | GDone None => (pred wg, errs)
  | GDone (Some e) => (pred wg, (errs ++ [e])%list)
  | _ => (wg, errs)
  end.

Definition wstep (c : choice) (s : wstate) : option (list event * wstate) :=
  match c with
  | CWorker =>
      match w_pc s with
      | PcValidate =>
          match ValidatePackage p with
          | Some err =>
              Some ([EvValidate (Some err); EvSend (failedReport err)],
                    mkW PcDone (w_gs s) (w_wg s) (w_errs s)
                        (w_sent s ++ [failedReport err])%list)
          | None =>
              Some ([EvValidate None],
                    mkW (PcSpawn (pkg_Versions p)) (w_gs s) (w_wg s)
                        (w_errs s) (w_sent s))
          end
      | PcSpawn (v :: rest) =>
          Some ([EvSpawn (length (w_gs s))],
                mkW (PcSpawn rest) (w_gs s ++ [(v, GLoop 0 "" None)])%list
                    (S (w_wg s)) (w_errs s) (w_sent s))
      | PcSpawn [] =>
          Some ([], mkW PcWait (w_gs s) (w_wg s) (w_errs s) (w_sent s))
      | PcWait =>
          if (w_wg s =? 0)%nat
          then Some ([EvWait],
                     mkW PcReport (w_gs s) (w_wg s) (w_errs s) (w_sent s))
          else None
      | PcReport =>
          Some ([EvSend (finalReport (w_errs s))],
                mkW PcDone (w_gs s) (w_wg s) (w_errs s)
                    (w_sent s ++ [finalReport (w_errs s)])%list)
      | PcDone => None
      end
  | CGo i c_data c_err =>
      match w_gs s !! i with
      | Some (v, g) =>
          match gstep i v c_data c_err g with
          | Some (evs, g') =>
              let '(wg, errs) := afterG g' (w_wg s) (w_errs s) in
              Some (evs, mkW (w_pc s) (<[i := (v, g')]> (w_gs s)) wg errs
                             (w_sent s))
          | None => None
          end
      | None => None
      end
  end.

Definition initW : wstate := mkW PcValidate [] 0%nat [] [].

(** A run under a list of choices, with the trace of its events. *)
Fixpoint wrun (cs : list choice) (s : wstate) : option (list event * wstate) :=
  match cs with
  | [] => Some ([], s)
  | c :: cs' =>
      match wstep c s with
      | Some (evs, s') =>
          match wrun cs' s' with
          | Some (evs', s'') => Some ((evs ++ evs')%list, s'')
          | None => None
          end
      | None => None
      end
  end.

(** [s] is reached from the start with trace [tr]. *)
Definition reaches (tr : list event) (s : wstate) : Prop :=
  exists cs, wrun cs initW = Some (tr, s).

(** No step is possible from [s]. *)
Definition stuck (s : wstate) : Prop := forall c, wstep c s = None.

(** Steps left, at most: it decreases along every step. *)
Definition gmeasure (g : gpc) : nat :=
  match g with
  | GLoop retries _ _ => (maxRetries - retries) + 3
  | GUpload _ => 1
  | GDone _ => 0
  end.

Definition pcmeasure (pc : wpc) : nat :=
  match pc with
  | PcValidate => 4 + length (pkg_Versions p) * (maxRetries + 4)
  | PcSpawn rest => 3 + length rest * (maxRetries + 4)
  | PcWait => 2
  | PcReport => 1
  | PcDone => 0
  end.

Definition wmeasure (s : wstate) : nat :=
  pcmeasure (w_pc s) + sum_list_with (fun vg => gmeasure (snd vg)) (w_gs s).

Definition gfinished (g : gpc) : bool :=
  match g with GDone _ => true | _ => false end.

Definition gfailed (g : gpc) : bool :=
  match g with GDone (Some _) => true | _ => false end.

(** The goroutines that have not returned, and those that returned
    with an error. *)
Definition unfinished (gs : list (Version * gpc)) : nat :=
  sum_list_with (fun vg => if gfinished (snd vg) then 0 else 1)%nat gs.

Definition failed (gs : list (Version * gpc)) : nat :=
  sum_list_with (fun vg => if gfailed (snd vg) then 1 else 0)%nat gs.

(** The reports sent in a trace. *)
Definition sends (tr : list event) : list ValidationReport :=
  omap (fun e => match e with EvSend r => Some r | _ => None end) tr.

(** The download attempts in a trace, and the sleeps with their length. *)
Definition downloadsIn (tr : list event) : nat :=
  length (List.filter (fun e => match e with
                                | EvDownload _ _ _ _ => true
                                | _ => false
                                end) tr).

Definition sleepsIn (tr : list event) : list Z :=
  omap (fun e => match e with EvSleep _ d => Some d | _ => None end) tr.

(** The network calls in a trace: downloads and uploads. *)
Definition transfers (tr : list event) : list event :=
  List.filter (fun e => match e with
                        | EvDownload _ _ _ _ | EvUpload _ _ _ _ _ => true
                        | _ => false
                        end) tr.

(** The invariant of the runs of the worker: what the counter of
    [versionWg], the buffer of [versionErrors], the reports sent and the
    trace are at each point of the worker. *)
Definition pcInv (tr : list event) (s : wstate) : Prop :=
  match w_pc s with
  | PcValidate => w_gs s = [] /\ w_sent s = [] /\ tr = []
  | PcSpawn rest =>
      ValidatePackage p = None /\
      ((w_gs s).*1 ++ rest)%list = pkg_Versions p /\ w_sent s = []
  | PcWait =>
      ValidatePackage p = None /\ (w_gs s).*1 = pkg_Versions p /\
      w_sent s = []
  | PcReport =>
      ValidatePackage p = None /\ (w_gs s).*1 = pkg_Versions p /\
      w_sent s = [] /\ w_wg s = 0%nat
  | PcDone =>
      (exists err, ValidatePackage p = Some err /\ w_gs s = [] /\
                   w_sent s = [failedReport err] /\
                   tr = [EvValidate (Some err); EvSend (failedReport err)])
      \/ (ValidatePackage p = None /\ (w_gs s).*1 = pkg_Versions p /\
          w_wg s = 0%nat /\
          w_sent s = [finalReport (w_errs s)] /\
          exists tr1, tr = (tr1 ++ [EvSend (finalReport (w_errs s))])%list /\
                      sends tr1 = [] /\
                      forall i, (i < length (pkg_Versions p))%nat ->
                                EvVersionDone i ∈ tr1)
  end.

Record Inv (tr : list event) (s : wstate) : Prop := mkInv {
  inv_wg : w_wg s = unfinished (w_gs s);
  inv_errs : length (w_errs s) = failed (w_gs s);
  inv_sends : sends tr = w_sent s;
  inv_done : forall i v res,
      w_gs s !! i = Some (v, GDone res) -> EvVersionDone i ∈ tr;
  inv_pc : pcInv tr s
}.

(** The events of download attempts [r], [r + 1], ... that fail with [errs]. *)
Fixpoint attemptEvents (i : nat) (v : Version) (r : nat) (errs : list error)
  : list event :=
  match errs with
  | [] => []
  | e :: rest =>
      EvDownload i (ver_Name v) r (Some e)
      :: EvSleep i (retryDelay * Z.of_nat (r + 1))
      :: attemptEvents i v (S r) rest
  end.

(** The results of downloads that fail with [errs]. *)
Definition failing (errs : list error) : list (string * option error) :=
  map (fun e => ("", Some e)) errs.

End Worker.

(** *** processConcurrently as a whole

    The main goroutine starts the worker of each package in order, after
    taking a token of [sem] (lines 88-92), and closes [results] once every
    worker has returned (lines 178-180). A worker gives its token back and
    calls [wg.Done()] when it returns (lines 93-96): that is part of the step
    that ends it. *)

Definition maxConcurrent : nat := 5.

Record pstate := mkP {
  p_workers : list (Package * wstate); (* the workers started, in order *)
  p_sem : nat;                         (* the tokens held in sem *)
  p_wg : nat;                          (* the counter of wg *)
  p_closed : bool                      (* results is closed *)
}.

(** A step of the main goroutine, or of the worker of package [k]. *)
Inductive pchoice : Type :=
| PMain
| PWorker (k : nat) (c : choice).

Inductive pevent : Type :=
| PStart (k : nat)
| PEv (k : nat) (e : event)
| PClose.

Definition isDone (s : wstate) : bool :=
  match w_pc s with PcDone => true | _ => false end.

Section Pool.
Variable maxRetries : nat.
Variable retryDelay : Z.
Variable mappings : gmap string string.
Variable packages : list Package.

Definition pstep (c : pchoice) (st : pstate) : option (list pevent * pstate) :=
  match c with
  | PMain =>
      match packages !! length (p_workers st) with
      | Some p =>
          if (p_sem st <? maxConcurrent)%nat then
            Some ([PStart (length (p_workers st))],
                  mkP (p_workers st ++ [(p, initW)])%list (S (p_sem st))
                      (S (p_wg st)) (p_closed st))
          else None
      | None =>
          if ((p_wg st =? 0)%nat && negb (p_closed st))%bool then
            Some ([PClose], mkP (p_workers st) (p_sem st) (p_wg st) true)
          else None
      end
  | PWorker k c =>
      match p_workers st !! k with
      | Some (p, s) =>
          match wstep maxRetries retryDelay mappings p c s with
          | Some (evs, s') =>
              Some (map (PEv k) evs,
                    mkP (<[k := (p, s')]> (p_workers st))
                        (if isDone s' then pred (p_sem st) else p_sem st)
                        (if isDone s' then pred (p_wg st) else p_wg st)
                        (p_closed st))
          | None => None
          end
      | None => None
      end
  end.

Definition initP : pstate := mkP [] 0%nat 0%nat false.

Fixpoint prun (cs : list pchoice) (st : pstate) : option (list pevent * pstate) :=
  match cs with
  | [] => Some ([], st)
  | c :: cs' =>
      match pstep c st with
      | Some (evs, st') =>
          match prun cs' st' with
          | Some (evs', st'') => Some ((evs ++ evs')%list, st'')
          | None => None
          end
      | None => None
      end
  end.

Definition pstuck (st : pstate) : Prop := forall c, pstep c st = None.

(** The events of the worker of package [k] in a trace. *)
Definition eventsOf (k : nat) (tr : list pevent) : list event :=
  omap (fun e => match e with
                 | PEv k' ev => if (k' =? k)%nat then Some ev else None
                 | _ => None
                 end) tr.

(** The workers that have not returned. *)
Definition running (workers : list (Package * wstate)) : nat :=
  sum_list_with (fun ps => if isDone (snd ps) then 0 else 1)%nat workers.

(** Steps left, at most. *)
Definition pmeasure (st : pstate) : nat :=
  (if p_closed st then 0 else 1)
  + sum_list_with (fun ps => wmeasure maxRetries (fst ps) (snd ps)) (p_workers st)
  + sum_list_with (fun p => S (wmeasure maxRetries p initW))
                  (drop (length (p_workers st)) packages).

(** The invariant of the runs of [processConcurrently]: each worker
    started is that of its package and stands where a run of its own with
    its events of the trace leads; [sem] and [wg] count the workers that
    have not returned. *)
Record PInv (tr : list pevent) (st : pstate) : Prop := mkPInv {
  pinv_workers : forall k p s,
      p_workers st !! k = Some (p, s) ->
      packages !! k = Some p /\
      exists cs, wrun maxRetries retryDelay mappings p cs initW
                 = Some (eventsOf k tr, s);
  pinv_fresh : forall k, (length (p_workers st) <= k)%nat -> eventsOf k tr = [];
  pinv_sem : p_sem st = running (p_workers st);
  pinv_wg : p_wg st = running (p_workers st);
  pinv_bound : (p_sem st <= maxConcurrent)%nat;
  pinv_closed : p_closed st = true ->
                length (p_workers st) = length packages /\
                running (p_workers st) = 0%nat
}.
End Pool.

(** *** Concrete packages and runs *)

Definition v100 : Version := mkVersion "V1" "1.0.0" ∅ [] "" "".
Definition v200 : Version := mkVersion "V2" "2.0.0" ∅ [] "" "".
Definition owner : Owner := mkOwner "acme" "Organization".

(** A container image with two versions. *)
Definition img : Package :=
  mkPackage "P1" "img" "container" "private" owner [v100; v200] None None.

(** A container image with one version. *)
Definition img1 : Package :=
  mkPackage "P2" "img1" "container" "private" owner [v100] None None.

(** An unscoped npm package. *)
Definition lodash : Package :=
  mkPackage "P3" "lodash" "npm" "public" owner
    [mkVersion "V3" "4.17.21" ∅ [mkFile "package.json" 1200 "" ""] "" ""]
    None None.

(** A scoped npm package whose only version has no [package.json]. *)
Definition widget : Package :=
  mkPackage "P4" "@acme/widget" "npm" "public" owner
    [mkVersion "V4" "1.0.0" ∅ [mkFile "widget-1.0.0.tgz" 5000 "" ""] "" ""]
    None None.

Definition netErr : error := Errorf "connection reset by peer".

(** Version 1.0.0 is downloaded and uploaded; the three downloads of
    version 2.0.0 fail. *)
Definition mixedRun : list choice :=
  [CWorker; CWorker; CWorker; CWorker;
   CGo 0 "bytes" None; CGo 1 "" (Some netErr); CGo 1 "" (Some netErr);
   CGo 0 "" None; CGo 1 "" (Some netErr); CGo 1 "" None;
   CWorker; CWorker].

(** The three downloads of the only version fail. *)
Definition failingRun : list choice :=
  [CWorker; CWorker; CWorker;
   CGo 0 "" (Some netErr); CGo 0 "" (Some netErr); CGo 0 "" (Some netErr);
   CGo 0 "" None; CWorker; CWorker].

Definition traceOf (r : option (list event * wstate)) : list event :=
  match r with Some (tr, _) => tr | None => [] end.

Definition stateOf (r : option (list event * wstate)) : wstate :=
  match r with Some (_, s) => s | None => initW end.

Definition mixedTrace : list event :=
  Eval vm_compute in traceOf (wrun 3 5000000000 ∅ img mixedRun initW).
Definition mixedState : wstate :=
  Eval vm_compute in stateOf (wrun 3 5000000000 ∅ img mixedRun initW).

Definition failingTrace : list event :=
  Eval vm_compute in traceOf (wrun 3 5000000000 ∅ img1 failingRun initW).
Definition failingState : wstate :=
  Eval vm_compute in stateOf (wrun 3 5000000000 ∅ img1 failingRun initW).
Definition failingReport : ValidationReport :=
  Eval vm_compute in finalReport img1 (w_errs failingState).
Definition mixedReport : ValidationReport :=
  Eval vm_compute in finalReport img (w_errs mixedState).

(** [processConcurrently] on [lodash] and [img1]: both workers are started,
    [lodash] fails validation, the downloads of [img1] fail, [results] is
    closed. *)
Definition poolPackages : list Package := [lodash; img1].

Definition poolRun : list pchoice :=
  [PMain; PMain; PWorker 1 CWorker; PWorker 0 CWorker]
  ++ map (PWorker 1) (tail failingRun) ++ [PMain].

Definition poolTrace : list pevent :=
  Eval vm_compute in
    match prun 3 5000000000 ∅ poolPackages poolRun initP with
    | Some (tr, _) => tr
    | None => []
    end.

Definition poolState : pstate :=
  Eval vm_compute in
    match prun 3 5000000000 ∅ poolPackages poolRun initP with
    | Some (_, st) => st
    | None => initP
    end.

(** A mapping file system: an empty file; a file of three columns in
    which [pkgA] is mapped twice; a file whose last row has one column
    under a header of two; a file of one column. *)
Definition mappingFiles (path : string) : csvFile :=
  if String.eqb path "empty.csv" then Content []
  else if String.eqb path "map.csv" then
    Content [GoCsv.mkRecord 1 "source" ["target"; "note"];
             GoCsv.mkRecord 2 "pkgA" ["pkgA2"; "first name"];
             GoCsv.mkRecord 3 "pkgB" ["pkgB2"; ""];
             GoCsv.mkRecord 4 "pkgA" ["pkgA3"; "renamed again"]]
  else if String.eqb path "ragged.csv" then
    Content [GoCsv.mkRecord 1 "source" ["target"];
             GoCsv.mkRecord 2 "pkgA" ["pkgA2"];
             GoCsv.mkRecord 3 "orphan" []]
  else if String.eqb path "names.csv" then
    Content [GoCsv.mkRecord 1 "name" [];
             GoCsv.mkRecord 2 "pkgA" [];
             GoCsv.mkRecord 3 "pkgB" []]
  else OpenFails ("open " ++ path ++ ": no such file or directory").

(** *** The transfers of one version goroutine *)

(** The download attempts and the uploads of version goroutine [i] in a
    trace of the worker. *)
Definition downloadsOf (i : nat) (tr : list event) : nat :=
  length (List.filter (fun e => match e with
                                | EvDownload j _ _ _ => (j =? i)%nat
                                | _ => false
                                end) tr).

Definition uploadsOf (i : nat) (tr : list event) : nat :=
  length (List.filter (fun e => match e with
                                | EvUpload j _ _ _ _ => (j =? i)%nat
                                | _ => false
                                end) tr).

(** *** reportValidation

    The reporter goroutine reads [results] until it is closed. [Green],
    [Red] and [Yellow] are pterm's colour functions; the result is the
    table it renders and the three counts it prints. *)

Record summary := mkSummary {
  successCount : nat;
  failureCount : nat;
  partialCount : nat;
  table : list (list string)
}.

Section Report.
Variables Green Red Yellow : string -> string.

(** The body of [for report := range results]. *)
Definition reportRow (acc : summary) (report : ValidationReport) : summary :=
  let status := Status report in
  let '(successCount', failureCount', partialCount', status') :=
    if String.eqb status "Success" then
      (S (successCount acc), failureCount acc, partialCount acc, Green status)
    else if String.eqb status "Failed" then
      (successCount acc, S (failureCount acc), partialCount acc, Red status)
    else if String.eqb status "Partial Success" then
      (successCount acc, failureCount acc, S (partialCount acc), Yellow status)
    else (successCount acc, failureCount acc, partialCount acc, status) in
  mkSummary successCount' failureCount' partialCount'
    (table acc ++ [[PackageName report; PackageType report; status';
                    pretty (VersionsCount report); ErrorMessage report]])%list.

(** [func (s *PackageSync) reportValidation(results chan *ValidationReport)],
    on the reports received until the channel is closed. *)
Definition reportValidation (results : list ValidationReport) : summary :=
  foldl reportRow
        (mkSummary 0 0 0 [["Package"; "Type"; "Status"; "Versions"; "Error"]])
        results.
End Report.

(** The reports put on [results] in a run of [processConcurrently], in the
    order of the sends. *)
Definition resultsOf (tr : list pevent) : list ValidationReport :=
  omap (fun e => match e with PEv _ (EvSend r) => Some r | _ => None end) tr.

(** The packages that fail [ValidatePackage]. *)
Definition invalid (p : Package) : bool :=
  match ValidatePackage p with Some _ => true | None => false end.

(** *** The loop of SyncPackages (lines 258-320)

    [PackageExists], [DownloadPackageVersion], [UploadPackageVersion] with
    four arguments, [UpdatePackageMetadata] and [UpdatePackageVisibility]
    are methods of [api.API] that the sources call and do not define: they
    are calls to the environment, which keeps a world of type [W]. An
    event is such a call with what it returned, a line of [log.Printf], or
    [progressbar.Increment()]. *)

Inductive sevent : Type :=
| SExists (org name : string) (found : bool) (err : option error)
| SDownload (org name version files : string) (err : option error)
| SUpload (org name version files : string) (err : option error)
| SMetadata (org name version : string) (metadata : gmap string string)
            (err : option error)
| SVisibility (org name visibility : string) (err : option error)
| SLog (msg : string)
| SIncrement.

Section SyncLoop.
Context {W : Type}.
Variables sourceOrg targetOrg : string.
Variable skipExisting : bool.
Variable mappings : gmap string string.
Variable PackageExists : string -> string -> W -> bool * option error * W.
Variable DownloadPackageVersion :
  string -> string -> string -> W -> string * option error * W.
Variable UploadPackageVersion :
  string -> string -> string -> string -> W -> option error * W.
Variable UpdatePackageMetadata :
  string -> string -> string -> gmap string string -> W -> option error * W.
Variable UpdatePackageVisibility :
  string -> string -> string -> W -> option error * W.

(** Lines 285-307: the body of [for _, version := range pkg.Versions]. *)
Definition migrateVersion (p : Package) (targetName : string)
           (version : Version) (w : W) : list sevent * W :=
  let '(files, err, w1) :=
    DownloadPackageVersion sourceOrg (pkg_Name p) (ver_Name version) w in
  let download :=
    SDownload sourceOrg (pkg_Name p) (ver_Name version) files err in
  match err with
  | Some e =>
      ([download;
        SLog ("Error downloading version " ++ ver_Name version
              ++ " of package " ++ pkg_Name p ++ ": " ++ Error e)], w1)
  | None =>
      let '(err, w2) :=
        UploadPackageVersion targetOrg targetName (ver_Name version) files w1 in
      let upload :=
        SUpload targetOrg targetName (ver_Name version) files err in
      match err with
      | Some e =>
          ([download; upload;
            SLog ("Error uploading version " ++ ver_Name version
                  ++ " of package " ++ targetName ++ ": " ++ Error e)], w2)
      | None =>
          let '(err, w3) :=
            UpdatePackageMetadata targetOrg targetName (ver_Name version)
                                  (ver_Metadata version) w2 in
          let metadata :=
            SMetadata targetOrg targetName (ver_Name version)
                      (ver_Metadata version) err in
          match err with
          | Some e =>
              ([download; upload; metadata;
                SLog ("Error updating metadata for " ++ targetName
                      ++ " version " ++ ver_Name version ++ ": " ++ Error e)],
               w3)
          | None => ([download; upload; metadata], w3)
          end
      end
  end.

Fixpoint migrateVersions (p : Package) (targetName : string)
         (versions : list Version) (w : W) : list sevent * W :=
  match versions with
  | [] => ([], w)
  | version :: rest =>
      let '(evs, w1) := migrateVersion p targetName version w in
      let '(evs', w2) := migrateVersions p targetName rest w1 in
      ((evs ++ evs')%list, w2)
  end.

(** Lines 261-316: the body of [for _, pkg := range packages]. *)
Definition migratePackage (p : Package) (w : W) : list sevent * W :=
  match ValidatePackage p with
  | Some e =>
      ([SLog ("Warning: Package " ++ pkg_Name p ++ " validation failed: "
              ++ Error e)], w)
  | None =>
      let targetName := getTargetPackageName mappings (pkg_Name p) in
      let '(found, err, w1) := PackageExists targetOrg targetName w in
      let check := SExists targetOrg targetName found err in
      match err with
      | Some e =>
          ([check;
            SLog ("Error checking package " ++ targetName ++ " existence: "
                  ++ Error e)], w1)
      | None =>
          if (found && skipExisting)%bool then
            ([check; SLog ("Skipping existing package: " ++ targetName);
              SIncrement], w1)
          else
            let '(evs, w2) := migrateVersions p targetName (pkg_Versions p) w1 in
            let '(err, w3) :=
              UpdatePackageVisibility targetOrg targetName (pkg_Visibility p) w2 in
            let visibility :=
              SVisibility targetOrg targetName (pkg_Visibility p) err in
            match err with
            | Some e =>
                ((check :: evs
                  ++ [visibility;
                      SLog ("Error updating visibility for package "
                            ++ targetName ++ ": " ++ Error e);
                      SIncrement])%list, w3)
            | None => ((check :: evs ++ [visibility; SIncrement])%list, w3)
            end
      end
  end.

(** The loop over the packages fetched. *)
Fixpoint migratePackages (packages : list Package) (w : W)
  : list sevent * W :=
  match packages with
  | [] => ([], w)
  | p :: rest =>
      let '(evs, w1) := migratePackage p w in
      let '(evs', w2) := migratePackages rest w1 in
      ((evs ++ evs')%list, w2)
  end.

(** What must come just before an event of the loop. *)
Definition follows (prev : option sevent) (e : sevent) : Prop :=
  match e with
  | SUpload org name version files _ =>
      exists source,
        prev = Some (SDownload sourceOrg source version files None) /\
        org = targetOrg /\ name = getTargetPackageName mappings source
  | SMetadata org name version _ _ =>
      exists files, prev = Some (SUpload org name version files None)
  | _ => True
  end.
End SyncLoop.

(** [R] relates every element of [l] to the one before it, [prev] being
    before the first. *)
Fixpoint chain {A : Type} (R : option A -> A -> Prop) (prev : option A)
         (l : list A) : Prop :=
  match l with
  | [] => True
  | x :: l' => R prev x /\ chain R (Some x) l'
  end.

(** The events of a log that satisfy [f]. *)
Definition countEvents (f : sevent -> bool) (log : list sevent) : nat :=
  length (List.filter f log).

Definition isExists (e : sevent) : bool :=
  match e with SExists _ _ _ _ => true | _ => false end.
Definition isExistsOk (e : sevent) : bool :=
  match e with SExists _ _ _ None => true | _ => false end.
Definition isDownload (e : sevent) : bool :=
  match e with SDownload _ _ _ _ _ => true | _ => false end.
Definition isDownloadOk (e : sevent) : bool :=
  match e with SDownload _ _ _ _ None => true | _ => false end.
Definition isUpload (e : sevent) : bool :=
  match e with SUpload _ _ _ _ _ => true | _ => false end.
Definition isUploadOk (e : sevent) : bool :=
  match e with SUpload _ _ _ _ None => true | _ => false end.
Definition isMetadata (e : sevent) : bool :=
  match e with SMetadata _ _ _ _ _ => true | _ => false end.
Definition isVisibility (e : sevent) : bool :=
  match e with SVisibility _ _ _ _ => true | _ => false end.
Definition isIncrement (e : sevent) : bool :=
  match e with SIncrement => true | _ => false end.
Definition isCall (e : sevent) : bool :=
  match e with SLog _ | SIncrement => false | _ => true end.

(** The reports of a list that satisfy [f], counted. *)
Definition tally (f : ValidationReport -> bool) (rs : list ValidationReport)
  : nat :=
  sum_list_with (fun r => if f r then 1 else 0)%nat rs.

Definition hasStatus (status : string) (r : ValidationReport) : bool :=
  String.eqb (Status r) status.

(** An existence check after which the package is migrated: it returned
    no error, and the package is not there or existing ones are not
    skipped. *)
Definition isMigrated (skipExisting : bool) (e : sevent) : bool :=
  match e with
  | SExists _ _ found None => negb (found && skipExisting)
  | _ => false
  end.

(** [Q] holds of every element of [l] and the elements before it, [pre]
    being before the first. *)
Fixpoint prefixed {A : Type} (Q : list A -> A -> Prop) (pre : list A)
         (l : list A) : Prop :=
  match l with
  | [] => True
  | x :: l' => Q pre x /\ prefixed Q (pre ++ [x])%list l'
  end.

(** What an upload in a trace of the worker of [p] is, and what comes
    before it. *)
Definition uploadOk (maxRetries : nat) (mappings : gmap string string)
           (p : Package) (pre : list event) (e : event) : Prop :=
  match e with
  | EvUpload i targetName version _ _ =>
      targetName = getTargetPackageName mappings (pkg_Name p) /\
      (exists v, pkg_Versions p !! i = Some v /\ ver_Name v = version) /\
      ((0 < maxRetries)%nat -> exists retries, EvDownload i version retries None ∈ pre)
  | _ => True
  end.

(** What the trace holds of version goroutine [i] where it stands. *)
Definition ginv (maxRetries : nat) (i : nat) (v : Version) (g : gpc)
           (tr : list event) : Prop :=
  match g with
  | GLoop retries _ err =>
      downloadsOf i tr = retries /\ (retries <= maxRetries)%nat /\
      uploadsOf i tr = 0%nat /\ (err = None -> retries = 0%nat)
  | GUpload _ =>
      (downloadsOf i tr <= maxRetries)%nat /\ uploadsOf i tr = 0%nat /\
      ((0 < maxRetries)%nat ->
       exists retries, EvDownload i (ver_Name v) retries None ∈ tr)
  | GDone _ =>
      (downloadsOf i tr <= maxRetries)%nat /\ (uploadsOf i tr <= 1)%nat
  end.

(** What the trace holds of every version goroutine, started or not. *)
Record TInv (maxRetries : nat) (mappings : gmap string string) (p : Package)
       (tr : list event) (s : wstate) : Prop := mkTInv {
  tinv_started : forall i v g,
      w_gs s !! i = Some (v, g) -> ginv maxRetries i v g tr;
  tinv_fresh : forall i, (length (w_gs s) <= i)%nat ->
                         downloadsOf i tr = 0%nat /\ uploadsOf i tr = 0%nat;
  tinv_uploads : prefixed (uploadOk maxRetries mappings p) [] tr
}.

End sync.

(** ** pkg/api: the GraphQL client, the catalog fetch and the uploads *)

Module api.
Import GoStrings.

(** *** RateLimitAwareGraphQLClient.Query

    Time is a clock in the state. A call of the underlying client takes
    some time and returns what the server answers; [time.Sleep(d)] returns
    no earlier than [d] after it was called, and at once when [d <= 0]. *)

Record RateLimit := mkRateLimit {
  Remaining : Z;
  ResetAt : Z
}.

(** The answer to one rate-limit probe: how long the call took, what it
    returned, and by how much a sleep that follows it overshoots. *)
Record probe := mkProbe {
  probe_latency : nat;
  probe_result : error + RateLimit;
  probe_oversleep : nat
}.

Inductive qevent : Type :=
| QProbe (issued returned : Z) (result : error + RateLimit)
| QSleep (from d : Z)
| QPage (issued : Z).

(** [time.Sleep(d)] called at [now], overshooting by [over]: the time at
    which it returns. *)
Definition sleepUntil (now d : Z) (over : nat) : Z :=
  now + Z.max d 0 + Z.of_nat over.

(** [func (c *RateLimitAwareGraphQLClient) Query(ctx, q, variables) error].
    [probes] are the answers to the successive probes, [page] is the
    answer to [c.client.Query(ctx, q, variables)] with the time it takes,
    [now] the time of the call. The result is what [Query] returns, the
    time at which it does, and the events in order; it is [None] when the
    loop asks for a probe the script does not have. *)
Fixpoint Query {R : Type} (probes : list probe) (page : nat * (error + R))
         (now : Z) : option ((error + R) * Z * list qevent) :=
  match probes with
  | [] => None
  | pr :: rest =>
      let now1 := now + Z.of_nat (probe_latency pr) in
      match probe_result pr with
      | inl err => Some (inl err, now1, [QProbe now now1 (inl err)])
      | inr rateLimit =>
          if 0 <? Remaining rateLimit then
            Some (snd page, now1 + Z.of_nat (fst page),
                  [QProbe now now1 (inr rateLimit); QPage now1])
          else
            let d := ResetAt rateLimit - now1 in
            match Query rest page (sleepUntil now1 d (probe_oversleep pr)) with
            | Some (res, t, log) =>
                Some (res, t,
                      QProbe now now1 (inr rateLimit) :: QSleep now1 d :: log)
            | None => None
            end
      end
  end.

(** *** GetOrganizationPackages *)

Record File := mkFile {
  file_Name : string;
  file_Size : Z;
  file_SHA256 : string;
  file_URL : string
}.

Record Version := mkVersion {
  ver_ID : string;
  ver_Name : string;
  ver_Files : list File;
  ver_CreatedAt : string;
  ver_UpdatedAt : string
}.

Record Repository := mkRepository { repo_Name : string; repo_URL : string }.

Record Statistics := mkStatistics { stat_DownloadsCount : Z }.

Record Package := mkPackage {
  pkg_ID : string;
  pkg_Name : string;
  pkg_PackageType : string;
  pkg_Repository : option Repository;
  pkg_Statistics : option Statistics;
  pkg_Versions : list Version
}.

(** The [PackageQuery] structure the response is decoded into. *)
Record FileNode := mkFileNode {
  fn_Name : string;
  fn_Size : Z;
  fn_SHA256 : string;
  fn_URL : string
}.

Record VersionNode := mkVersionNode {
  vn_ID : string;
  vn_Version : string;
  vn_Files : list FileNode;
  vn_CreatedAt : string;
  vn_UpdatedAt : string
}.

Record PackageNode := mkPackageNode {
  pn_ID : string;
  pn_Name : string;
  pn_PackageType : string;
  pn_RepositoryName : string;
  pn_RepositoryURL : string;
  pn_DownloadsTotalCount : Z;
  pn_Versions : list VersionNode
}.

Record PackageQuery := mkPackageQuery {
  EndCursor : string;
  HasNextPage : bool;
  Nodes : list PackageNode
}.

(** Lines 156-163 *)
Definition fileOfNode (file : FileNode) : File :=
  mkFile (fn_Name file) (fn_Size file) (fn_SHA256 file) (fn_URL file).

(** Lines 147-166 *)
Definition versionOfNode (ver : VersionNode) : Version :=
  mkVersion (vn_ID ver) (vn_Version ver) (map fileOfNode (vn_Files ver))
            (vn_CreatedAt ver) (vn_UpdatedAt ver).

(** Lines 133-168 *)
Definition packageOfNode (node : PackageNode) : Package :=
  mkPackage (pn_ID node) (pn_Name node) (pn_PackageType node)
            (Some (mkRepository (pn_RepositoryName node) (pn_RepositoryURL node)))
            (Some (mkStatistics (pn_DownloadsTotalCount node)))
            (map versionOfNode (pn_Versions node)).

(** The loop of [GetOrganizationPackages]. [responses] are the results of
    the successive calls of [a.graphqlClient.Query]; [after] is the cursor
    variable, [packages] the accumulator, [sent] the cursors sent so far.
    The result is [None] when the loop makes a call the script has no
    answer to. *)
Fixpoint fetchLoop (responses : list (error + PackageQuery))
         (after : option string) (packages : list Package)
         (sent : list (option string))
  : option ((list Package + error) * list (option string)) :=
  match responses with
  | [] => None
  | r :: rest =>
      let sent1 := (sent ++ [after])%list in
      match r with
      | inl err =>
          Some (inr (Errorf ("failed to query packages: " ++ Error err)), sent1)
      | inr query =>
          let packages1 := (packages ++ map packageOfNode (Nodes query))%list in
          if negb (HasNextPage query) then Some (inl packages1, sent1)
          else fetchLoop rest (Some (EndCursor query)) packages1 sent1
      end
  end.

(** [func (a *API) GetOrganizationPackages(org, packageType string) ([]Package, error)] *)
Definition GetOrganizationPackages (responses : list (error + PackageQuery))
  : option ((list Package + error) * list (option string)) :=
  fetchLoop responses None [] [].

(** The packages of a sequence of pages, in page order. *)
Definition packagesOf (pages : list PackageQuery) : list Package :=
  map packageOfNode (concat (map Nodes pages)).

(** What the claim asks of the packages returned: each is a page's
    package node, field by field, its versions the node's version nodes
    and their files the version's file nodes, in the nodes' order. The
    three relations are written on the fields of the nodes, apart from
    the conversion the loop makes. *)
Definition isFileNode (node : FileNode) (file : File) : Prop :=
  file_Name file = fn_Name node /\ file_Size file = fn_Size node /\
  file_SHA256 file = fn_SHA256 node /\ file_URL file = fn_URL node.

Definition isVersionNode (node : VersionNode) (ver : Version) : Prop :=
  ver_ID ver = vn_ID node /\ ver_Name ver = vn_Version node /\
  ver_CreatedAt ver = vn_CreatedAt node /\
  ver_UpdatedAt ver = vn_UpdatedAt node /\
  Forall2 isFileNode (vn_Files node) (ver_Files ver).

Definition isPackageNode (node : PackageNode) (p : Package) : Prop :=
  pkg_ID p = pn_ID node /\ pkg_Name p = pn_Name node /\
  pkg_PackageType p = pn_PackageType node /\
  (exists repo, pkg_Repository p = Some repo /\
                repo_Name repo = pn_RepositoryName node /\
                repo_URL repo = pn_RepositoryURL node) /\
  (exists stats, pkg_Statistics p = Some stats /\
                 stat_DownloadsCount stats = pn_DownloadsTotalCount node) /\
  Forall2 isVersionNode (pn_Versions node) (pkg_Versions p).

(** The cursors of the requests that fetch [pages] one after the other. *)
Definition cursorsOf (pages : list PackageQuery) : list (option string) :=
  map (fun q => Some (EndCursor q)) pages.

(** *** UploadManager and the retry loop *)

Record UploadManager := mkUploadManager {
  maxRetries : nat;
  retryDelay : Z;
  concurrency : nat
}.

Definition second : Z := 1000000000.

Definition NewUploadManager : UploadManager :=
  mkUploadManager 3 (5 * second) 5.

Inductive revent : Type :=
| RAttempt (attempt : nat) (err : option error)
| RWait (d : Z)
| RCancelled (d : Z).

(** [%v] of an error that may be [nil]. *)
Definition showErr (e : option error) : string :=
  match e with Some err => Error err | None => "<nil>" end.

Section Retry.
Context {W : Type}.
Variable m : UploadManager.
(** The closure [fn], acting on the world. *)
Variable fn : W -> option error * W.
(** The context: at the wait after attempt [attempt], [Some e] when
    [ctx.Done()] is taken (and [ctx.Err()] is [e]), [None] when the
    timer is. *)
Variable ctx : nat -> option error.

(** The loop of [retryableUpload], with [n = m.maxRetries - attempt]
    iterations left: the result, the world and the events in order. *)
Fixpoint retryLoop (n attempt : nat) (lastErr : option error) (w : W)
  : option error * W * list revent :=
  match n with
  | O =>
      (Some (Errorf ("upload failed after " ++ pretty (maxRetries m)
                     ++ " attempts: " ++ showErr lastErr)), w, [])
  | S n' =>
      match fn w with
      | (Some err, w') =>
          let d := retryDelay m * Z.of_nat (attempt + 1) in
          match ctx attempt with
          | Some cerr =>
              (Some cerr, w', [RAttempt attempt (Some err); RCancelled d])
          | None =>
              let '(res, w'', log) := retryLoop n' (S attempt) (Some err) w' in
              (res, w'', RAttempt attempt (Some err) :: RWait d :: log)
          end
      | (None, w') => (None, w', [RAttempt attempt None])
      end
  end.

(** The world after [k] calls of [fn]. *)
Fixpoint worldAt (k : nat) (w : W) : W :=
  match k with
  | O => w
  | S k' => worldAt k' (snd (fn w))
  end.

(** [func (m *UploadManager) retryableUpload(ctx, fn) error] *)
Definition retryableUpload (w : W) : option error * W * list revent :=
  retryLoop (maxRetries m) 0 None w.

(** The error of the last of [n] calls of [fn] from [w], [lastErr] when
    [n] is zero. *)
Definition lastErrorOf (n : nat) (lastErr : option error) (w : W) : option error :=
  match n with
  | O => lastErr
  | S n' => fst (fn (worldAt n' w))
  end.

(** The waits of a linear backoff: [retryDelay * (attempt + 1)] after each
    of the attempts [first], [first + 1], ... *)
Definition linearWaits (first n : nat) : list Z :=
  map (fun k => retryDelay m * Z.of_nat (k + 1)) (seq first n).

Definition exhausted (lastErr : option error) : error :=
  Errorf ("upload failed after " ++ pretty (maxRetries m) ++ " attempts: "
          ++ showErr lastErr).
End Retry.

Definition attempts (log : list revent) : nat :=
  length (List.filter (fun e => match e with RAttempt _ _ => true | _ => false end) log).

Definition waits (log : list revent) : list Z :=
  omap (fun e => match e with RWait d => Some d | _ => None end) log.

(** *** Concrete fetches and retries *)

Definition nodeA : PackageNode :=
  mkPackageNode "ID-A" "pkgA" "npm" "repoA" "https://github.com/acme/repoA" 12
    [mkVersionNode "VA1" "1.0.0"
       [mkFileNode "package.json" 310 "ab12" "https://npm.pkg.example/a/1.0.0"]
       "2024-01-01T00:00:00Z" "2024-01-02T00:00:00Z"].

Definition nodeB : PackageNode :=
  mkPackageNode "ID-B" "pkgB" "npm" "repoB" "https://github.com/acme/repoB" 0 [].

Definition nodeC : PackageNode :=
  mkPackageNode "ID-C" "pkgC" "npm" "repoC" "https://github.com/acme/repoC" 3 [].

Definition page1 : PackageQuery := mkPackageQuery "cursor-1" true [nodeA; nodeB].
Definition page2 : PackageQuery := mkPackageQuery "cursor-2" false [nodeC].

(** Scenario E: the quota is exhausted and resets five seconds after the
    call; the next probe finds quota. Times are in milliseconds. *)
Definition probesE : list probe :=
  [mkProbe 40 (inr (mkRateLimit 0 5000)) 3;
   mkProbe 35 (inr (mkRateLimit 4999 65000)) 0].

Definition pageE : nat * (error + string) := (120%nat, inr "page").

Definition logE : list qevent :=
  [QProbe 0 40 (inr (mkRateLimit 0 5000)); QSleep 40 4960;
   QProbe 5003 5038 (inr (mkRateLimit 4999 65000)); QPage 5038].

(** An operation that always fails, a context done at the third wait and a
    context done at the first wait. *)
Definition unavailable : error := Errorf "503 Service Unavailable".
Definition canceled : error := Errorf "context canceled".
Definition alwaysFails (w : unit) : option error * unit := (Some unavailable, w).
Definition neverDone (attempt : nat) : option error := None.
Definition doneAtThirdWait (attempt : nat) : option error :=
  if (attempt =? 2)%nat then Some canceled else None.
Definition doneAtFirstWait (attempt : nat) : option error :=
  if (attempt =? 0)%nat then Some canceled else None.

(** *** Counting the events of a call of Query *)

Definition probesIn (log : list qevent) : nat :=
  length (List.filter (fun e => match e with QProbe _ _ _ => true | _ => false end) log).

Definition qsleepsIn (log : list qevent) : nat :=
  length (List.filter (fun e => match e with QSleep _ _ => true | _ => false end) log).

Definition pagesIn (log : list qevent) : nat :=
  length (List.filter (fun e => match e with QPage _ => true | _ => false end) log).

(** Two exhausted probes, then a probe that fails. *)
Definition probesFail : list probe :=
  [mkProbe 40 (inr (mkRateLimit 0 5000)) 3;
   mkProbe 35 (inr (mkRateLimit 0 9000)) 1;
   mkProbe 20 (inl (Errorf "401 Unauthorized")) 0].

Definition logFail : list qevent :=
  [QProbe 0 40 (inr (mkRateLimit 0 5000)); QSleep 40 4960;
   QProbe 5003 5038 (inr (mkRateLimit 0 9000)); QSleep 5038 3962;
   QProbe 9001 9021 (inl (Errorf "401 Unauthorized"))].

(** An operation on a counter that succeeds at its third call. *)
Definition thirdTime (w : nat) : option error * nat :=
  (if (w <? 2)%nat then Some unavailable else None, S w).

(** *** The container upload

    The target registry is a server: a state and a function answering
    each request. A request's URL is kept in the parts the code formats
    it from; [render] is the string the code builds. *)

Record UploadOptions := mkUploadOptions {
  opts_Organization : string;
  opts_PackageName : string;
  opts_Version : string;
  opts_PackageType : string;
  opts_Metadata : gmap string string;
  opts_Files : list string;
  opts_Visibility : string
}.

Inductive target : Type :=
| BlobURL (baseURL digest : string)
| UploadsURL (baseURL : string)
| SessionURL (location digest : string)
| ManifestURL (url : string).

Definition render (t : target) : string :=
  match t with
  | BlobURL baseURL digest => baseURL ++ "/blobs/" ++ digest
  | UploadsURL baseURL => baseURL ++ "/blobs/uploads/"
  | SessionURL location digest => location ++ "&digest=" ++ digest
  | ManifestURL url => url
  end.

Inductive request : Type :=
| ReqHead (t : target)
| ReqPost (t : target)
| ReqPut (t : target) (contentType body : string).

Inductive response : Type :=
| NetErr (err : string)
| Resp (status : nat) (location : string).

Definition StatusOK : nat := 200.
Definition StatusCreated : nat := 201.
Definition StatusAccepted : nat := 202.

Definition mediaTypeManifest : string :=
  "application/vnd.docker.distribution.manifest.v2+json".
Definition mediaTypeLayer : string :=
  "application/vnd.docker.image.rootfs.diff.tar.gzip".
Definition mediaTypeConfig : string :=
  "application/vnd.docker.container.image.v1+json".

Record LayerObject := mkLayerObject {
  lo_MediaType : string;
  lo_Size : Z;
  lo_Digest : string
}.

Record ConfigObject := mkConfigObject {
  co_MediaType : string;
  co_Size : Z;
  co_Digest : string
}.

Record ContainerManifest := mkContainerManifest {
  SchemaVersion : Z;
  MediaType : string;
  Config : ConfigObject;
  Layers : list LayerObject;
  Annotations : gmap string string
}.

(** [func validateContainerUpload(opts UploadOptions) error] *)
Definition validateContainerUpload (opts : UploadOptions) : option error :=
  if String.eqb (opts_Organization opts) "" then
    Some (Errorf "organization is required")
  else if String.eqb (opts_PackageName opts) "" then
    Some (Errorf "package name is required")
  else if String.eqb (opts_Version opts) "" then
    Some (Errorf "version is required")
  else None.

(** [func isContainerLayer(file string) bool] *)
Definition isContainerLayer (file : string) : bool :=
  let ext := Ext file in
  String.eqb ext ".tar" || String.eqb ext ".gz" || String.eqb ext ".tgz".

(** The repository URL and the manifest URL that [ContainerUpload] builds. *)
Definition baseURLOf (opts : UploadOptions) : string :=
  opts_Organization opts ++ "/" ++ opts_PackageName opts.

Definition manifestURLOf (opts : UploadOptions) : string :=
  opts_Organization opts ++ "/" ++ opts_PackageName opts
  ++ "/manifests/" ++ opts_Version opts.

Section Container.
(** The server: its state and how it answers a request. *)
Context {S : Type}.
Variable server : request -> S -> response * S.
(** The local files: the content of a path, if it can be read. *)
Variable fs : string -> option string.
(** [fmt.Sprintf("%x", sha256(content))], [json.Marshal] of the
    config, and [json.Marshal] of the manifest. *)
Variable sha256hex : string -> string.
Variable jsonConfig : list string -> gmap string string -> string.
Variable jsonManifest : ContainerManifest -> string.

(** The client: the server's state and the requests issued so far. *)
Definition client : Type := S * list request.

Definition send (r : request) (st : client) : response * client :=
  let '(resp, s') := server r (fst st) in
  (resp, (s', (snd st ++ [r])%list)).

(** [func (a *API) checkExists(url string) (bool, error)] *)
Definition checkExists (t : target) (st : client) : (bool + error) * client :=
  let '(resp, st') := send (ReqHead t) st in
  match resp with
  | NetErr err => (inr (Errorf err), st')
  | Resp status _ => (inl (status =? StatusOK)%nat, st')
  end.

Definition digestOf (content : string) : string :=
  "sha256:" ++ sha256hex content.

(** [func (a *API) uploadContainerLayer(baseURL, file string) (string, error)].
    A file that cannot be read fails at [os.Stat]; [resp.Status] is
    rendered as the status code. *)
Definition uploadContainerLayer (baseURL file : string) (st : client)
  : (string + error) * client :=
  match fs file with
  | None =>
      (inr (Errorf ("failed to stat file: stat " ++ file
                    ++ ": no such file or directory")), st)
  | Some content =>
      let digest := digestOf content in
      let '(ex, st1) := checkExists (BlobURL baseURL digest) st in
      match ex with
      | inr err => (inr err, st1)
      | inl true => (inl digest, st1)
      | inl false =>
          let '(resp, st2) := send (ReqPost (UploadsURL baseURL)) st1 in
          match resp with
          | NetErr err =>
              (inr (Errorf ("failed to start upload: " ++ err)), st2)
          | Resp status location =>
              if negb (status =? StatusAccepted)%nat then
                (inr (Errorf ("unexpected status starting upload: "
                              ++ pretty status)), st2)
              else if String.eqb location "" then
                (inr (Errorf "no upload location received"), st2)
              else
                let '(resp', st3) :=
                  send (ReqPut (SessionURL location digest)
                               mediaTypeLayer content) st2 in
                match resp' with
                | NetErr err =>
                    (inr (Errorf ("failed to upload layer: " ++ err)), st3)
                | Resp status' _ =>
                    if negb (status' =? StatusCreated)%nat then
                      (inr (Errorf ("layer upload failed with status: "
                                    ++ pretty status')), st3)
                    else (inl digest, st3)
                end
          end
      end
  end.

(** [func generateContainerManifest(layers []string, opts UploadOptions)]:
    with string metadata the marshalling of the config cannot fail. *)
Definition generateContainerManifest (layers : list string)
           (opts : UploadOptions) : ContainerManifest :=
  let configJson := jsonConfig layers (opts_Metadata opts) in
  mkContainerManifest 2 mediaTypeManifest
    (mkConfigObject mediaTypeConfig (Z.of_nat (String.length configJson))
                    (digestOf configJson))
    (map (fun digest => mkLayerObject mediaTypeLayer 0 digest) layers)
    (opts_Metadata opts).

(** [func (a *API) uploadContainerManifest(url string, manifest *ContainerManifest) error] *)
Definition uploadContainerManifest (url : string)
           (manifest : ContainerManifest) (st : client)
  : option error * client :=
  let '(resp, st') :=
    send (ReqPut (ManifestURL url) mediaTypeManifest (jsonManifest manifest)) st in
  match resp with
  | NetErr err => (Some (Errorf ("failed to upload manifest: " ++ err)), st')
  | Resp status _ =>
      if negb (status =? StatusCreated)%nat then
        (Some (Errorf ("manifest upload failed with status: "
                       ++ pretty status)), st')
      else (None, st')
  end.

(** Lines 64-107 of [ContainerUpload]: one goroutine per layer file,
    joined by [wg.Wait()]. The goroutines are run one after the other in
    file order, which is a schedule the semaphore allows; the results
    are the digests and the errors, in that order. *)
Fixpoint uploadLayers (baseURL : string) (files : list string) (st : client)
  : list string * list error * client :=
  match files with
  | [] => ([], [], st)
  | file :: rest =>
      if isContainerLayer file then
        let '(res, st1) := uploadContainerLayer baseURL file st in
        let '(layerResults, layerErrors, st2) := uploadLayers baseURL rest st1 in
        match res with
        | inl digest => (digest :: layerResults, layerErrors, st2)
        | inr err =>
            (layerResults,
             Errorf ("layer upload failed: " ++ Error err) :: layerErrors, st2)
        end
      else uploadLayers baseURL rest st
  end.

(** [func (m *UploadManager) ContainerUpload(ctx, opts UploadOptions) error] *)
Definition ContainerUpload (m : UploadManager) (ctx : nat -> option error)
           (opts : UploadOptions) (st : client)
  : option error * client * list revent :=
  match validateContainerUpload opts with
  | Some err =>
      (Some (Errorf ("container validation failed: " ++ Error err)), st, [])
  | None =>
      let baseURL := opts_Organization opts ++ "/" ++ opts_PackageName opts in
      let '(layers, layerErrors, st1) :=
        uploadLayers baseURL (opts_Files opts) st in
      match layerErrors with
      | err :: _ => (Some err, st1, [])
      | [] =>
          let manifest := generateContainerManifest layers opts in
          let manifestURL :=
            opts_Organization opts ++ "/" ++ opts_PackageName opts
            ++ "/manifests/" ++ opts_Version opts in
          retryableUpload m (uploadContainerManifest manifestURL manifest)
                          ctx st1
      end
  end.

(** The digests of the layer files of an upload, in file order. *)
Definition layerDigests (files : list string) : list string :=
  omap (fun file => if isContainerLayer file then digestOf <$> fs file else None)
       files.

(** Every layer file can be read. *)
Definition layersReadable (files : list string) : Prop :=
  Forall (fun file => isContainerLayer file = true -> is_Some (fs file)) files.

(** The body of the manifest that [ContainerUpload] sends. *)
Definition manifestBodyOf (opts : UploadOptions) : string :=
  jsonManifest (generateContainerManifest
                  (layerDigests (opts_Files opts)) opts).
End Container.

(** *** A registry

    A target registry that answers as the OCI protocol says: a blob is
    present once it has been PUT to an upload session of its repository,
    a manifest PUT is stored. *)

Record registry := mkRegistry {
  blobs : gset (string * string);
  sessions : gmap string string;
  manifests : list (string * string)
}.

Definition newLocation (n : nat) : string := "/v2/uploads/" ++ pretty n ++ "?s=1".

Definition registryServer (r : request) (s : registry) : response * registry :=
  match r with
  | ReqHead (BlobURL baseURL digest) =>
      (Resp (if bool_decide ((baseURL, digest) ∈ blobs s) then 200 else 404)%nat "", s)
  | ReqPost (UploadsURL baseURL) =>
      let location := newLocation (size (sessions s)) in
      (Resp 202 location,
       mkRegistry (blobs s) (<[location := baseURL]> (sessions s)) (manifests s))
  | ReqPut (SessionURL location digest) _ _ =>
      match sessions s !! location with
      | Some baseURL =>
          (Resp 201 "",
           mkRegistry ({[ (baseURL, digest) ]} ∪ blobs s) (sessions s) (manifests s))
      | None => (Resp 404 "", s)
      end
  | ReqPut (ManifestURL url) _ body =>
      (Resp 201 "", mkRegistry (blobs s) (sessions s) (manifests s ++ [(url, body)])%list)
  | _ => (Resp 404 "", s)
  end.

(** The digests that get uploaded when the layers [digests] are sent one
    after the other to a repository that has the blobs [present]. *)
Fixpoint uploaded (baseURL : string) (present : gset (string * string))
         (digests : list string) : list string :=
  match digests with
  | [] => []
  | d :: rest =>
      if bool_decide ((baseURL, d) ∈ present) then uploaded baseURL present rest
      else d :: uploaded baseURL ({[ (baseURL, d) ]} ∪ present) rest
  end.

Definition withBlobs (baseURL : string) (digests : list string)
           (present : gset (string * string)) : gset (string * string) :=
  list_to_set ((fun d => (baseURL, d)) <$> digests) ∪ present.

(** The layer uploads in a request log: the digests that were PUT. *)
Definition blobPuts (log : list request) : list string :=
  omap (fun r => match r with
                 | ReqPut (SessionURL _ digest) _ _ => Some digest
                 | _ => None
                 end) log.

(** The manifest uploads in a request log: their URLs. *)
Definition manifestPuts (log : list request) : list string :=
  omap (fun r => match r with
                 | ReqPut (ManifestURL url) _ _ => Some url
                 | _ => None
                 end) log.

(** *** Scenario D: two versions of an image that share a layer *)

Definition filesD (path : string) : option string :=
  if String.eqb path "v1/base.tar.gz" then Some "BASE-LAYER"
  else if String.eqb path "v1/app.tar.gz" then Some "APP-1"
  else if String.eqb path "v2/base.tar.gz" then Some "BASE-LAYER"
  else if String.eqb path "v2/app.tar.gz" then Some "APP-2"
  else None.

(** Stand-ins for the hash and the serializers. *)
Definition toyHash (content : string) : string := content.
Definition toyConfig (layers : list string) (metadata : gmap string string)
  : string := Join layers ",".
Definition toyManifest (manifest : ContainerManifest) : string :=
  Join (map lo_Digest (Layers manifest)) ",".

Definition optsD1 : UploadOptions :=
  mkUploadOptions "acme" "img" "1.0" "container" ∅
                  ["v1/base.tar.gz"; "v1/app.tar.gz"; "v1/README"] "private".

Definition optsD2 : UploadOptions :=
  mkUploadOptions "acme" "img" "2.0" "container" ∅
                  ["v2/base.tar.gz"; "v2/app.tar.gz"] "private".

Definition emptyRegistry : registry := mkRegistry ∅ ∅ [].

Definition noContext (attempt : nat) : option error := None.

Definition uploadD (opts : UploadOptions) (st : registry * list request)
  : option error * (registry * list request) * list revent :=
  ContainerUpload registryServer filesD toyHash toyConfig toyManifest
                      NewUploadManager noContext opts st.

Definition registryD1 : registry := fst (snd (fst (uploadD optsD1 (emptyRegistry, [])))).
Definition logD1 : list request := snd (snd (fst (uploadD optsD1 (emptyRegistry, [])))).
Definition logD2 : list request := snd (snd (fst (uploadD optsD2 (registryD1, [])))).

(** *** Maven: parseMavenPOM, uploadFile, uploadMavenFile and MavenUpload *)

Record MavenParent := mkParent {
  parent_GroupID : string;
  parent_ArtifactID : string;
  parent_Version : string
}.

Record MavenPOM := mkPOM {
  pom_GroupID : string;
  pom_ArtifactID : string;
  pom_Version : string;
  pom_Parent : option MavenParent
}.

(** The request of [uploadFile]: a PUT of [body] to [url]. *)
Inductive put : Type := Put (url body : string).

Definition toPut (ub : string * string) : put := Put (fst ub) (snd ub).

(** The loop of [MavenUpload] that finds the POM and the JARs. *)
Fixpoint findMavenFiles (files : list string) (pomFile : string)
         (jarFiles : list string) : string * list string :=
  match files with
  | [] => (pomFile, jarFiles)
  | file :: rest =>
      if String.eqb (Ext file) ".pom" then findMavenFiles rest file jarFiles
      else if String.eqb (Ext file) ".jar" then
             findMavenFiles rest pomFile (jarFiles ++ [file])%list
           else findMavenFiles rest pomFile jarFiles
  end.

Section Maven.
Context {S : Type}.
Variable server : put -> S -> response * S.
(** The local files; [xml.Unmarshal] into a [MavenPOM], with the text of
    its error; the three digests in hexadecimal; and the order in which
    [range] visits the entries of a map, which Go leaves open. *)
Variable fs : string -> option string.
Variable xmlUnmarshal : string -> string + MavenPOM.
Variables md5hex sha1hex sha256hex : string -> string.
Variable mapOrder : list (string * string) -> list (string * string).

(** [func parseMavenPOM(pomFile string) (groupID, artifactID string, err error)] *)
Definition parseMavenPOM (pomFile : string) : string * string + error :=
  match fs pomFile with
  | None =>
      inr (Errorf ("failed to open POM file: open " ++ pomFile
                   ++ ": no such file or directory"))
  | Some data =>
      match xmlUnmarshal data with
      | inl err => inr (Errorf ("failed to parse POM file: " ++ err))
      | inr pom =>
          let groupID := pom_GroupID pom in
          let groupID :=
            if String.eqb groupID "" then
              match pom_Parent pom with
              | Some parent => parent_GroupID parent
              | None => groupID
              end
            else groupID in
          if String.eqb groupID "" then
            inr (Errorf "no group ID found in POM file")
          else if String.eqb (pom_ArtifactID pom) "" then
            inr (Errorf "no artifact ID found in POM file")
          else inl (groupID, pom_ArtifactID pom)
      end
  end.

Definition mclient : Type := S * list put.

Definition msend (r : put) (st : mclient) : response * mclient :=
  let '(resp, s') := server r (fst st) in
  (resp, (s', (snd st ++ [r])%list)).

(** [func (a *API) uploadFile(url string, content io.Reader) error] *)
Definition uploadFile (url content : string) (st : mclient)
  : option error * mclient :=
  let '(resp, st') := msend (Put url content) st in
  match resp with
  | NetErr err => (Some (Errorf err), st')
  | Resp status _ =>
      if (negb (status =? StatusOK)%nat && negb (status =? StatusCreated)%nat)%bool
      then (Some (Errorf ("upload failed with status: " ++ pretty status)), st')
      else (None, st')
  end.

(** The map [checksums] of [uploadMavenFile]; its three keys differ. *)
Definition checksumsOf (url data : string) : list (string * string) :=
  [(url ++ ".md5", md5hex data);
   (url ++ ".sha1", sha1hex data);
   (url ++ ".sha256", sha256hex data)].

(** [for checksumURL, checksumData := range checksums] *)
Fixpoint uploadChecksums (checksums : list (string * string)) (st : mclient)
  : option error * mclient :=
  match checksums with
  | [] => (None, st)
  | (checksumURL, checksumData) :: rest =>
      match uploadFile checksumURL checksumData st with
      | (Some err, st') =>
          (Some (Errorf ("failed to upload checksum: " ++ Error err)), st')
      | (None, st') => uploadChecksums rest st'
      end
  end.

(** [func (a *API) uploadMavenFile(url, file string) error] *)
Definition uploadMavenFile (url file : string) (st : mclient)
  : option error * mclient :=
  match fs file with
  | None =>
      (Some (Errorf ("failed to read file: open " ++ file
                     ++ ": no such file or directory")), st)
  | Some data =>
      match uploadFile url data st with
      | (Some err, st1) =>
          (Some (Errorf ("failed to upload file: " ++ Error err)), st1)
      | (None, st1) => uploadChecksums (mapOrder (checksumsOf url data)) st1
      end
  end.

(** Lines 199-224 of [MavenUpload]: one goroutine per JAR, joined by
    [wg.Wait()], run here one after the other in file order. *)
Fixpoint uploadJars (m : UploadManager) (ctx : nat -> option error)
         (dir : string) (jarFiles : list string) (st : mclient)
  : list error * mclient * list revent :=
  match jarFiles with
  | [] => ([], st, [])
  | jarFile :: rest =>
      let '(res, st1, log1) :=
        retryableUpload m (uploadMavenFile (dir ++ "/" ++ Base jarFile) jarFile)
                        ctx st in
      let '(uploadErrors, st2, log2) := uploadJars m ctx dir rest st1 in
      match res with
      | Some err => (err :: uploadErrors, st2, (log1 ++ log2)%list)
      | None => (uploadErrors, st2, (log1 ++ log2)%list)
      end
  end.

(** [func (m *UploadManager) MavenUpload(ctx, opts UploadOptions) error] *)
Definition MavenUpload (m : UploadManager) (ctx : nat -> option error)
           (opts : UploadOptions) (st : mclient)
  : option error * mclient * list revent :=
  let '(pomFile, jarFiles) := findMavenFiles (opts_Files opts) "" [] in
  if String.eqb pomFile "" then
    (Some (Errorf "missing required pom.xml file"), st, [])
  else
    match parseMavenPOM pomFile with
    | inr err => (Some (Errorf ("failed to parse POM: " ++ Error err)), st, [])
    | inl (groupID, artifactID) =>
        let dir := opts_Organization opts ++ "/" ++ groupID ++ "/"
                   ++ artifactID ++ "/" ++ opts_Version opts in
        let '(res, st1, log1) :=
          retryableUpload m (uploadMavenFile (dir ++ "/pom.xml") pomFile)
                          ctx st in
        match res with
        | Some err => (Some err, st1, log1)
        | None =>
            let '(uploadErrors, st2, log2) := uploadJars m ctx dir jarFiles st1 in
            match uploadErrors with
            | err :: _ => (Some err, st2, (log1 ++ log2)%list)
            | [] => (None, st2, (log1 ++ log2)%list)
            end
        end
    end.
End Maven.

(** The URL of a request of [uploadFile]. *)
Definition putURL (r : put) : string := match r with Put url _ => url end.

(** A POM whose group is that of its parent, and the files of a library. *)
Definition libPOM : MavenPOM :=
  mkPOM "" "lib" "1.0" (Some (mkParent "org.acme" "parent" "7")).

Definition libFiles (path : string) : option string :=
  if String.eqb path "lib/lib-1.0.pom" then Some "<project/>"
  else if String.eqb path "lib/lib-1.0.jar" then Some "JAR" else None.

Definition libXml (data : string) : string + MavenPOM :=
  if String.eqb data "<project/>" then inr libPOM else inl "EOF".

Definition libOpts : UploadOptions :=
  mkUploadOptions "acme" "org.acme:lib" "1.0" "maven" ∅
                  ["lib/lib-1.0.pom"; "lib/lib-1.0.jar"] "private".

(** A Maven repository that stores what is PUT to it. *)
Definition mavenServer (r : put) (s : list put) : response * list put :=
  (Resp 201 "", (s ++ [r])%list).

(** *** UploadPackageVersion (the dispatcher)

    [os.Stat] gives the size of a file or the text of its error. The five
    uploaders the dispatcher calls act on the world. *)

Section Dispatch.
Context {W : Type}.
Variable stat : string -> string + Z.
Variables uploadContainer uploadNpm uploadMaven uploadNuGet uploadRubyGems :
  UploadOptions -> W -> option error * W.

(** Lines 105-114: the size check of every file, in order. *)
Fixpoint checkFileSizes (maxSize : Z) (files : list string) : option error :=
  match files with
  | [] => None
  | filePath :: rest =>
      match stat filePath with
      | inl err =>
          Some (Errorf ("failed to stat file " ++ filePath ++ ": " ++ err))
      | inr size =>
          if maxSize <? size then
            Some (Errorf ("file " ++ filePath ++ " exceeds maximum size of "
                          ++ pretty maxSize ++ " bytes"))
          else checkFileSizes maxSize rest
      end
  end.

(** [func (a *API) UploadPackageVersion(opts UploadOptions) error] *)
Definition UploadPackageVersion (opts : UploadOptions) (w : W)
  : option error * W :=
  match pkg.GetValidator (opts_PackageType opts) with
  | inr err => (Some (Errorf ("invalid package type: " ++ Error err)), w)
  | inl validator =>
      match checkFileSizes (pkg.V_GetMaxFileSize validator) (opts_Files opts) with
      | Some err => (Some err, w)
      | None =>
          let packageType := opts_PackageType opts in
          if String.eqb packageType pkg.PackageTypeContainer then
            uploadContainer opts w
          else if String.eqb packageType pkg.PackageTypeNpm then
            uploadNpm opts w
          else if String.eqb packageType pkg.PackageTypeMaven then
            uploadMaven opts w
          else if String.eqb packageType pkg.PackageTypeNuGet then
            uploadNuGet opts w
          else if String.eqb packageType pkg.PackageTypeRubyGems then
            uploadRubyGems opts w
          else (Some (Errorf ("unsupported package type: " ++ packageType)), w)
      end
  end.

(** The uploader of a package type. *)
Definition uploaderOf (packageType : string)
  : option (UploadOptions -> W -> option error * W) :=
  if String.eqb packageType pkg.PackageTypeContainer then Some uploadContainer
  else if String.eqb packageType pkg.PackageTypeNpm then Some uploadNpm
  else if String.eqb packageType pkg.PackageTypeMaven then Some uploadMaven
  else if String.eqb packageType pkg.PackageTypeNuGet then Some uploadNuGet
  else if String.eqb packageType pkg.PackageTypeRubyGems then Some uploadRubyGems
  else None.
End Dispatch.

(** The size limit of a package type, in bytes. *)
Definition maxFileSizeOf (packageType : string) : option Z :=
  match pkg.GetValidator packageType with
  | inl validator => Some (pkg.V_GetMaxFileSize validator)
  | inr _ => None
  end.

(** *** npm: parseNPMPackage and NPMUpload *)

(** The fields of [NPMPackage] that the upload reads. *)
Record NPMPackage := mkNPMPackage {
  npm_Name : string;
  npm_Version : string
}.

(** The loop of [NPMUpload] that finds [package.json] and the tarball. *)
Fixpoint findNpmFiles (files : list string) (pkgJSON tarball : string)
  : string * string :=
  match files with
  | [] => (pkgJSON, tarball)
  | file :: rest =>
      if String.eqb (Base file) "package.json" then
        findNpmFiles rest file tarball
      else if String.eqb (Ext file) ".tgz" then findNpmFiles rest pkgJSON file
           else findNpmFiles rest pkgJSON tarball
  end.

(** [opts] with another package name. *)
Definition withPackageName (opts : UploadOptions) (name : string)
  : UploadOptions :=
  mkUploadOptions (opts_Organization opts) name (opts_Version opts)
                  (opts_PackageType opts) (opts_Metadata opts)
                  (opts_Files opts) (opts_Visibility opts).

Section Npm.
Context {W : Type}.
(** The local files, [json.Unmarshal] into an [NPMPackage] with the text
    of its error, and [uploadNPMFiles], a method of [api.API] that the
    sources call and do not define: organization, name, version,
    [package.json] and tarball. *)
Variable fs : string -> option string.
Variable jsonUnmarshal : string -> string + NPMPackage.
Variable uploadNPMFiles :
  string -> string -> string -> string -> string -> W -> option error * W.

(** [func parseNPMPackage(packageJSON string)], returning the parsed
    descriptor or an error. *)
Definition parseNPMPackage (packageJSON : string) : NPMPackage + error :=
  match fs packageJSON with
  | None =>
      inr (Errorf ("failed to read package.json: open " ++ packageJSON
                   ++ ": no such file or directory"))
  | Some data =>
      match jsonUnmarshal data with
      | inl err => inr (Errorf ("failed to parse package.json: " ++ err))
      | inr npmPackage =>
          if String.eqb (npm_Name npmPackage) "" then
            inr (Errorf "package.json missing required field: name")
          else if String.eqb (npm_Version npmPackage) "" then
            inr (Errorf "package.json missing required field: version")
          else inl npmPackage
      end
  end.

(** [func (m *UploadManager) NPMUpload(ctx, opts UploadOptions) error] *)
Definition NPMUpload (m : UploadManager) (ctx : nat -> option error)
           (opts : UploadOptions) (w : W) : option error * W * list revent :=
  let '(pkgJSON, tarball) := findNpmFiles (opts_Files opts) "" "" in
  if (String.eqb pkgJSON "" || String.eqb tarball "")%bool then
    (Some (Errorf "missing required npm files: package.json and/or .tgz"), w, [])
  else
    match parseNPMPackage pkgJSON with
    | inr err =>
        (Some (Errorf ("failed to parse package.json: " ++ Error err)), w, [])
    | inl npmPackage =>
        if negb (String.eqb (npm_Version npmPackage) (opts_Version opts)) then
          (Some (Errorf ("version mismatch: package.json has "
                         ++ npm_Version npmPackage ++ ", expected "
                         ++ opts_Version opts)), w, [])
        else
          retryableUpload m
            (uploadNPMFiles (opts_Organization opts) (npm_Name npmPackage)
                            (opts_Version opts) pkgJSON tarball)
            ctx w
    end.
End Npm.

(** A registry that records what is published: name and version. *)
Definition npmRegistry (org name version pkgJSON tarball : string)
           (w : list (string * string)) : option error * list (string * string) :=
  (None, (w ++ [(name, version)])%list).

Definition npmFiles (path : string) : option string :=
  if String.eqb path "dist/package.json" then Some "widget@1.0.0" else None.

Definition npmJson (data : string) : string + NPMPackage :=
  if String.eqb data "widget@1.0.0" then inr (mkNPMPackage "@acme/widget" "1.0.0")
  else inl "unexpected end of JSON input".

End api.

(** ** The export package: the two CSV files *)

Module export.
Import GoStrings.

(** [totalSize += file.Size] on an [int] of 64 bits. *)
Definition wrapInt (x : Z) : Z := (x + 2 ^ 63) mod 2 ^ 64 - 2 ^ 63.

Definition nilDereference : string :=
  "runtime error: invalid memory address or nil pointer dereference".

Definition packagesHeader : list string :=
  ["ID"; "Name"; "Type"; "Repository"; "Repository URL";
   "Downloads Count"; "Version Count"].

Definition versionsHeader : list string :=
  ["Package ID"; "Package Name"; "Version ID"; "Version";
   "Created At"; "Updated At"; "File Count"; "Total Size"].

(** [func getTotalVersions(packages []api.Package) int] *)
Definition getTotalVersions (packages : list api.Package) : nat :=
  foldl (fun total p => (total + length (api.pkg_Versions p))%nat) 0%nat packages.

(** The row of a package in [createPackagesCSV]; [pkg.Repository] and
    [pkg.Statistics] are pointers. *)
Definition packageRow (p : api.Package) : outcome (list string) :=
  match api.pkg_Repository p with
  | None => Panic nilDereference
  | Some repository =>
      match api.pkg_Statistics p with
      | None => Panic nilDereference
      | Some statistics =>
          Ok [api.pkg_ID p; api.pkg_Name p; api.pkg_PackageType p;
              api.repo_Name repository; api.repo_URL repository;
              pretty (api.stat_DownloadsCount statistics);
              pretty (length (api.pkg_Versions p))]
      end
  end.

(** The row of a version in [createVersionsCSV]. *)
Definition versionRow (p : api.Package) (ver : api.Version) : list string :=
  let totalSize :=
    foldl (fun totalSize file => wrapInt (totalSize + api.file_Size file)) 0
          (api.ver_Files ver) in
  [api.pkg_ID p; api.pkg_Name p; api.ver_ID ver; api.ver_Name ver;
   api.ver_CreatedAt ver; api.ver_UpdatedAt ver;
   pretty (length (api.ver_Files ver)); pretty totalSize].

Section CSV.
(** The error of [os.Create] for a file name, and the error of the [n]-th
    call of [writer.Write] on a file, if they fail. *)
Variable create : string -> option error.
Variable writeErr : nat -> option error.

(** [writer.Write(row)] on a file that holds [rows]. *)
Definition write (row : list string) (rows : list (list string))
  : option error * list (list string) :=
  match writeErr (length rows) with
  | Some err => (Some err, rows)
  | None => (None, (rows ++ [row])%list)
  end.

Fixpoint writePackages (packages : list api.Package) (rows : list (list string))
  : outcome (option error) * list (list string) :=
  match packages with
  | [] => (Ok None, rows)
  | p :: rest =>
      match packageRow p with
      | Ok row =>
          match write row rows with
          | (Some err, rows') => (Ok (Some err), rows')
          | (None, rows') => writePackages rest rows'
          end
      | Err e => (Err e, rows)
      | Panic msg => (Panic msg, rows)
      end
  end.

(** [func createPackagesCSV(prefix string, packages []api.Package) error]:
    what it returns and the rows of the file. *)
Definition createPackagesCSV (prefix : string) (packages : list api.Package)
  : outcome (option error) * list (list string) :=
  match create (prefix ++ "_packages.csv") with
  | Some err => (Ok (Some err), [])
  | None =>
      match write packagesHeader [] with
      | (Some err, rows) => (Ok (Some err), rows)
      | (None, rows) => writePackages packages rows
      end
  end.

Fixpoint writeVersionsOf (p : api.Package) (versions : list api.Version)
         (rows : list (list string)) : option error * list (list string) :=
  match versions with
  | [] => (None, rows)
  | ver :: rest =>
      match write (versionRow p ver) rows with
      | (Some err, rows') => (Some err, rows')
      | (None, rows') => writeVersionsOf p rest rows'
      end
  end.

Fixpoint writeVersions (packages : list api.Package) (rows : list (list string))
  : option error * list (list string) :=
  match packages with
  | [] => (None, rows)
  | p :: rest =>
      match writeVersionsOf p (api.pkg_Versions p) rows with
      | (Some err, rows') => (Some err, rows')
      | (None, rows') => writeVersions rest rows'
      end
  end.

(** [func createVersionsCSV(prefix string, packages []api.Package) error] *)
Definition createVersionsCSV (prefix : string) (packages : list api.Package)
  : option error * list (list string) :=
  match create (prefix ++ "_versions.csv") with
  | Some err => (Some err, [])
  | None =>
      match write versionsHeader [] with
      | (Some err, rows) => (Some err, rows)
      | (None, rows) => writeVersions packages rows
      end
  end.
End CSV.

(** No file operation fails. *)
Definition noError {A : Type} (x : A) : option error := None.

End export.

(** * Properties *)

(** ** Lists with one position updated *)

Section SumInsert.
Context {A : Type}.

Lemma sum_list_with_insert (f : A -> nat) (l : list A) (i : nat) (x y : A) :
  l !! i = Some x ->
  (sum_list_with f (<[i := y]> l) + f x = sum_list_with f l + f y)%nat.
Proof.
  revert i. induction l as [|a l IH]; intros [|i] Hi; simpl in *; try done.
  - injection Hi as ->. lia.
  - specialize (IH i Hi). lia.
Qed.

Lemma sum_list_with_zero (f : A -> nat) (l : list A) (i : nat) (x : A) :
  sum_list_with f l = 0%nat -> l !! i = Some x -> f x = 0%nat.
Proof.
  revert i. induction l as [|a l IH]; intros [|i] Hs Hi; simpl in *; try done.
  - injection Hi as ->. lia.
  - apply (IH i); [lia | done].
Qed.

Lemma sum_list_with_pos (f : A -> nat) (l : list A) :
  (0 < sum_list_with f l)%nat -> exists i x, l !! i = Some x /\ (0 < f x)%nat.
Proof.
  induction l as [|a l IH]; simpl; [lia|]. intros Hpos.
  destruct (f a) as [|n] eqn:Ha.
  - destruct IH as (i & x & Hi & Hx); [lia|]. exists (S i), x. done.
  - exists 0%nat, a. split; [done | lia].
Qed.
End SumInsert.

(** ** The worker of processConcurrently *)

Module SyncFacts.
Import GoStrings pkg sync.

Section Worker.
Variable maxRetries : nat.
Variable retryDelay : Z.
Variable mappings : gmap string string.
Variable p : Package.

Local Abbreviation gstep := (sync.gstep maxRetries retryDelay mappings p).
Local Abbreviation wstep := (sync.wstep maxRetries retryDelay mappings p).
Local Abbreviation wrun := (sync.wrun maxRetries retryDelay mappings p).
Local Abbreviation gmeasure := (sync.gmeasure maxRetries).
Local Abbreviation wmeasure := (sync.wmeasure maxRetries p).
Local Abbreviation failedReport := (sync.failedReport p).
Local Abbreviation finalReport := (sync.finalReport p).
Local Abbreviation pcInv := (sync.pcInv p).
Local Abbreviation Inv := (sync.Inv p).

(** *** Steps of a version goroutine *)

Lemma gstep_spec i v cd ce g evs g' :
  gstep i v cd ce g = Some (evs, g') ->
  gfinished g = false /\
  (gmeasure g' < gmeasure g)%nat /\
  sends evs = [] /\
  (gfinished g' = true -> EvVersionDone i ∈ evs).
Proof.
  unfold sync.gstep. intros H.
  destruct g as [retries data err|data|res]; [| |done].
  - destruct (retries <? maxRetries)%nat eqn:Hlt.
    + apply Nat.ltb_lt in Hlt.
      destruct ce; injection H as <- <-; simpl;
        (split; [done|split; [lia|split; [done|done]]]).
    + destruct err; injection H as <- <-; simpl;
        (split; [done|split; [lia|split; [done|]]]);
        first [done | intros _; set_solver].
  - destruct ce; injection H as <- <-; simpl;
      (split; [done|split; [lia|split; [done|]]]); intros _; set_solver.
Qed.

Lemma gstep_enabled i v cd ce g :
  gfinished g = false -> is_Some (gstep i v cd ce g).
Proof.
  unfold sync.gstep. destruct g as [retries data err|data|res]; [| |done].
  - intros _. destruct (retries <? maxRetries)%nat; [destruct ce|destruct err]; eauto.
  - intros _. destruct ce; eauto.
Qed.

(** *** The invariant of a run *)

Lemma Inv_init : Inv [] (initW).
Proof. split; done. Qed.

Lemma sends_app tr1 tr2 : sends (tr1 ++ tr2) = (sends tr1 ++ sends tr2)%list.
Proof. unfold sends. apply omap_app. Qed.

Lemma all_finished gs i v g :
  unfinished gs = 0%nat -> gs !! i = Some (v, g) -> gfinished g = true.
Proof.
  intros H0 Hi. unfold unfinished in H0.
  pose proof (sum_list_with_zero _ _ _ _ H0 Hi) as Hz. simpl in Hz.
  destruct (gfinished g); [done | lia].
Qed.

Lemma all_done_in (tr : list event) (gs : list (Version * gpc)) :
  unfinished gs = 0%nat ->
  (forall i v res, gs !! i = Some (v, GDone res) -> EvVersionDone i ∈ tr) ->
  forall i, (i < length gs)%nat -> EvVersionDone i ∈ tr.
Proof.
  intros H0 Hd i Hi.
  destruct (lookup_lt_is_Some_2 gs i Hi) as [[v g] Hg].
  pose proof (all_finished _ _ _ _ H0 Hg) as Hf.
  destruct g; try done. eauto.
Qed.

(** *** A step keeps the invariant and shortens what is left *)

Lemma unfinished_insert gs i v g g' :
  gs !! i = Some (v, g) -> gfinished g = false ->
  unfinished (<[i := (v, g')]> gs)
  = if gfinished g' then pred (unfinished gs) else unfinished gs.
Proof.
  intros Hi Hg. unfold unfinished.
  pose proof (sum_list_with_insert
                (fun vg : Version * gpc => if gfinished vg.2 then 0 else 1)%nat
                gs i (v, g) (v, g') Hi) as H.
  simpl in H. rewrite Hg in H. destruct (gfinished g'); lia.
Qed.

Lemma failed_insert gs i v g g' :
  gs !! i = Some (v, g) -> gfinished g = false ->
  failed (<[i := (v, g')]> gs)
  = if gfailed g' then S (failed gs) else failed gs.
Proof.
  intros Hi Hg. unfold failed.
  pose proof (sum_list_with_insert
                (fun vg : Version * gpc => if gfailed vg.2 then 1 else 0)%nat
                gs i (v, g) (v, g') Hi) as H.
  simpl in H. assert (gfailed g = false) as Hf by (by destruct g).
  rewrite Hf in H. destruct (gfailed g'); lia.
Qed.

Lemma measure_insert gs i v g g' :
  gs !! i = Some (v, g) -> (gmeasure g' < gmeasure g)%nat ->
  (sum_list_with (fun vg : Version * gpc => gmeasure vg.2) (<[i := (v, g')]> gs)
   < sum_list_with (fun vg : Version * gpc => gmeasure vg.2) gs)%nat.
Proof.
  intros Hi Hlt.
  pose proof (sum_list_with_insert
                (fun vg : Version * gpc => gmeasure vg.2)
                gs i (v, g) (v, g') Hi) as H.
  simpl in H. lia.
Qed.

Lemma fst_insert (gs : list (Version * gpc)) i v g g' :
  gs !! i = Some (v, g) -> (<[i := (v, g')]> gs).*1 = gs.*1.
Proof.
  intros Hi. rewrite list_fmap_insert. simpl.
  apply list_insert_id. rewrite list_lookup_fmap, Hi. done.
Qed.

Lemma step_go tr s i cd ce evs s' :
  Inv tr s -> wstep (CGo i cd ce) s = Some (evs, s') ->
  Inv (tr ++ evs) s' /\ (wmeasure s' < wmeasure s)%nat.
Proof.
  intros [Hwg Herrs Hsends Hdone Hpc] Hstep. simpl in Hstep.
  destruct (w_gs s !! i) as [[v g]|] eqn:Hi; [|done].
  destruct (gstep i v cd ce g) as [[evs0 g']|] eqn:Hg; [|done].
  destruct (gstep_spec _ _ _ _ _ _ _ Hg) as (Hnf & Hm & Hs & Hd).
  destruct (afterG g' (w_wg s) (w_errs s)) as [wg errs] eqn:Ha.
  injection Hstep as <- <-.
  assert (wg = (if gfinished g' then pred (w_wg s) else w_wg s)
          /\ length errs = (if gfailed g' then S (length (w_errs s))
                            else length (w_errs s))
          /\ (gfinished g' = false -> errs = w_errs s)) as (Hwg' & Herrs' & Hsame).
  { destruct g' as [| |[e|]]; simpl in Ha; injection Ha as <- <-;
      rewrite ?length_app; simpl; (split; [done|split; [lia|done]]). }
  assert (unfinished (w_gs s) <> 0%nat) as Hpos.
  { intros H0. pose proof (all_finished _ _ _ _ H0 Hi). congruence. }
  split.
  - split; simpl.
    + rewrite (unfinished_insert _ _ _ _ _ Hi Hnf), Hwg'. by rewrite Hwg.
    + rewrite (failed_insert _ _ _ _ _ Hi Hnf), Herrs'. by rewrite Herrs.
    + rewrite sends_app, Hs, app_nil_r. done.
    + intros j v' res Hj. destruct (decide (i = j)) as [<-|Hne].
      * rewrite list_lookup_insert_eq in Hj by (eapply lookup_lt_Some; eauto).
        injection Hj as <- Hg'. apply elem_of_app. right. apply Hd.
        by rewrite Hg'.
      * rewrite list_lookup_insert_ne in Hj by done.
        apply elem_of_app. left. eauto.
    + unfold pcInv in *. simpl.
      destruct (w_pc s) eqn:Hpcs; simpl;
        rewrite ?(fst_insert _ _ _ _ _ Hi).
      * destruct Hpc as (Hgs & _). rewrite Hgs in Hi. done.
      * done.
      * done.
      * destruct Hpc as (_ & _ & _ & H0). congruence.
      * destruct Hpc as [(err & _ & Hgs & _)|(_ & _ & H0 & _)].
        -- rewrite Hgs in Hi. done.
        -- congruence.
  - unfold sync.wmeasure. simpl.
    pose proof (measure_insert _ _ _ _ _ Hi Hm). lia.
Qed.

Lemma unfinished_snoc gs v :
  unfinished (gs ++ [(v, GLoop 0 "" None)]) = S (unfinished gs).
Proof. unfold unfinished. rewrite sum_list_with_app. simpl. lia. Qed.

Lemma failed_snoc gs v :
  failed (gs ++ [(v, GLoop 0 "" None)]) = failed gs.
Proof. unfold failed. rewrite sum_list_with_app. simpl. lia. Qed.

Lemma step_worker tr s evs s' :
  Inv tr s -> wstep CWorker s = Some (evs, s') ->
  Inv (tr ++ evs) s' /\ (wmeasure s' < wmeasure s)%nat.
Proof.
  intros [Hwg Herrs Hsends Hdone Hpc] Hstep. simpl in Hstep.
  unfold pcInv in Hpc. unfold sync.wmeasure.
  destruct (w_pc s) as [|[|v rest]| | |] eqn:Hpcs.
  - (* validation *)
    destruct Hpc as (Hgs & Hsent & ->).
    destruct (ValidatePackage p) as [err|] eqn:Hv; injection Hstep as <- <-.
    + split; [split; simpl; try done|simpl; lia].
      * rewrite Hsent. done.
      * intros i v res. rewrite Hgs. done.
      * left. exists err. rewrite Hgs, Hsent. done.
    + split; [split; simpl; try done|simpl; lia].
      * intros i v res. rewrite Hgs. done.
      * unfold pcInv. simpl. rewrite Hgs. done.
  - (* the last goroutine was started *)
    injection Hstep as <- <-. rewrite app_nil_r in Hpc |- *.
    split; [split; simpl; done|simpl; lia].
  - (* start the goroutine of the next version *)
    injection Hstep as <- <-. destruct Hpc as (Hv & Hvs & Hsent).
    split; [split; simpl|simpl].
    + by rewrite unfinished_snoc, Hwg.
    + by rewrite failed_snoc.
    + by rewrite sends_app, Hsends, app_nil_r.
    + intros i v' res Hi. apply elem_of_app. left.
      apply lookup_app_Some in Hi as [Hi|[_ Hi]]; [eauto|].
      destruct (i - length (w_gs s))%nat; done.
    + unfold pcInv. simpl. rewrite fmap_app. simpl.
      rewrite <- Hvs, <- app_assoc. done.
    + rewrite sum_list_with_app. simpl. lia.
  - (* versionWg.Wait() *)
    destruct (w_wg s =? 0)%nat eqn:H0; [|done].
    apply Nat.eqb_eq in H0. injection Hstep as <- <-.
    split; [split; simpl; try done|simpl; lia].
    + by rewrite sends_app, Hsends, app_nil_r.
    + intros i v res Hi. apply elem_of_app. left. eauto.
    + unfold pcInv. simpl. destruct Hpc as (? & ? & ?). done.
  - (* the report *)
    injection Hstep as <- <-. destruct Hpc as (Hv & Hvs & Hsent & H0).
    split; [split; simpl; try done|simpl; lia].
    + by rewrite sends_app, Hsends, Hsent.
    + intros i v res Hi. apply elem_of_app. left. eauto.
    + unfold pcInv. simpl. right. rewrite Hsent. repeat split; try done.
      exists tr. repeat split; [by rewrite Hsends|].
      intros i Hi. apply (all_done_in tr (w_gs s)); [congruence|done|].
      rewrite <- Hvs, length_fmap in Hi. done.
  - done.
Qed.

Lemma step_preserves tr s c evs s' :
  Inv tr s -> wstep c s = Some (evs, s') ->
  Inv (tr ++ evs) s' /\ (wmeasure s' < wmeasure s)%nat.
Proof. destruct c; [apply step_worker | apply step_go]. Qed.

Lemma run_preserves cs : forall tr0 s tr s',
  Inv tr0 s -> wrun cs s = Some (tr, s') ->
  Inv (tr0 ++ tr) s' /\ (length cs + wmeasure s' <= wmeasure s)%nat.
Proof.
  induction cs as [|c cs IH]; intros tr0 s tr s' HI Hrun; simpl in Hrun.
  - injection Hrun as <- <-. rewrite app_nil_r. split; [done | simpl; lia].
  - destruct (wstep c s) as [[evs s1]|] eqn:Hstep; [|done].
    destruct (wrun cs s1) as [[evs' s2]|] eqn:Hrest; [|done].
    injection Hrun as <- <-.
    destruct (step_preserves _ _ _ _ _ HI Hstep) as [HI1 Hm1].
    destruct (IH _ _ _ _ HI1 Hrest) as [HI2 Hm2].
    rewrite app_assoc. split; [done | simpl; lia].
Qed.

Lemma reach_Inv cs tr s :
  wrun cs initW = Some (tr, s) ->
  Inv tr s /\ (length cs + wmeasure s <= wmeasure initW)%nat.
Proof. intros H. apply (run_preserves cs [] initW tr s Inv_init H). Qed.

(** *** A state that cannot step has sent its report *)

Lemma stuck_done tr s :
  Inv tr s -> stuck maxRetries retryDelay mappings p s -> w_pc s = PcDone.
Proof.
  intros [Hwg Herrs Hsends Hdone Hpc] Hstuck.
  pose proof (Hstuck CWorker) as Hw. simpl in Hw.
  destruct (w_pc s) as [|[|v rest]| | |] eqn:Hpcs; try done.
  - destruct (ValidatePackage p); done.
  - destruct (w_wg s =? 0)%nat eqn:H0; [done|].
    apply Nat.eqb_neq in H0. rewrite Hwg in H0.
    destruct (sum_list_with_pos
                (fun vg : Version * gpc => if gfinished vg.2 then 0 else 1)%nat
                (w_gs s)) as (i & [v g] & Hi & Hx).
    { unfold unfinished in H0. lia. }
    simpl in Hx. destruct (gfinished g) eqn:Hg; [lia|].
    pose proof (Hstuck (CGo i "" None)) as Hgo. simpl in Hgo.
    rewrite Hi in Hgo.
    destruct (gstep_enabled i v "" None g Hg) as [[evs g'] Heq].
    rewrite Heq in Hgo. destruct (afterG g' (w_wg s) (w_errs s)). done.
Qed.

Lemma done_stuck tr s :
  Inv tr s -> w_pc s = PcDone -> stuck maxRetries retryDelay mappings p s.
Proof.
  intros [Hwg Herrs Hsends Hdone Hpc] Hpcs [|i cd ce]; simpl.
  - by rewrite Hpcs.
  - unfold pcInv in Hpc. rewrite Hpcs in Hpc.
    destruct (w_gs s !! i) as [[v g]|] eqn:Hi; [|done].
    destruct Hpc as [(err & _ & Hgs & _)|(_ & _ & H0 & _)].
    + rewrite Hgs in Hi. done.
    + rewrite Hwg in H0. pose proof (all_finished _ _ _ _ H0 Hi) as Hf.
      destruct g; done.
Qed.

(** *** What a run has sent *)

Lemma sent_at_most_one tr s :
  Inv tr s ->
  (w_sent s = [] /\ w_pc s <> PcDone) \/
  (exists r, w_sent s = [r] /\ w_pc s = PcDone /\
             PackageName r = pkg_Name p).
Proof.
  intros [_ _ _ _ Hpc]. unfold pcInv in Hpc.
  destruct (w_pc s) eqn:Hpcs; try (left; split; [tauto | done]).
  right. destruct Hpc as [(err & _ & _ & -> & _)|(_ & _ & _ & -> & _)].
  - by exists (failedReport err).
  - exists (finalReport (w_errs s)). repeat split.
    unfold sync.finalReport. by destruct (0 <? _)%nat.
Qed.

(** The status of the report, from how the versions ended. *)
Lemma status_law tr s r :
  Inv tr s -> w_sent s = [r] ->
  match ValidatePackage p with
  | Some err => Status r = "Failed" /\ ErrorMessage r = Error err
  | None =>
      length (w_gs s) = length (pkg_Versions p) /\
      unfinished (w_gs s) = 0%nat /\
      Status r = (if (0 <? failed (w_gs s))%nat
                  then "Partial Success" else "Success")
  end.
Proof.
  intros HI Hr. pose proof HI as [Hwg Herrs _ _ Hpc].
  destruct (sent_at_most_one _ _ HI) as [[Hs _]|(r' & Hs & Hpcs & _)];
    [congruence|].
  unfold pcInv in Hpc. rewrite Hpcs in Hpc.
  destruct Hpc as [(err & Hv & _ & Hsent & _)|(Hv & Hvs & H0 & Hsent & _)];
    rewrite Hv.
  - rewrite Hsent in Hr. injection Hr as <-. done.
  - rewrite Hsent in Hr. injection Hr as <-.
    rewrite <- Hvs, length_fmap. split; [done|]. split; [congruence|].
    unfold sync.finalReport. rewrite length_map, Herrs.
    by destruct (0 <? failed (w_gs s))%nat.
Qed.

Lemma transfers_app tr1 tr2 :
  transfers (tr1 ++ tr2) = (transfers tr1 ++ transfers tr2)%list.
Proof. unfold transfers. apply List.filter_app. Qed.

(** *** The claims on the worker *)

(** The worker of a package: every run is finite, sends at most one report,
    which is the package's, and has sent exactly one when it can go no
    further; when validation succeeded the send is the last event of the
    run, after the return of every version goroutine. *)
Lemma worker_report_once cs tr s :
  wrun cs initW = Some (tr, s) ->
  (length cs <= wmeasure initW)%nat /\
  sends tr = w_sent s /\
  (length (w_sent s) <= 1)%nat /\
  (forall r, r ∈ w_sent s -> PackageName r = pkg_Name p) /\
  (stuck maxRetries retryDelay mappings p s <-> exists r, w_sent s = [r]) /\
  (ValidatePackage p = None -> forall r, w_sent s = [r] ->
   exists tr1, tr = (tr1 ++ [EvSend r])%list /\ sends tr1 = [] /\
               transfers tr1 = transfers tr /\
               forall i, (i < length (pkg_Versions p))%nat ->
                         EvVersionDone i ∈ tr1).
Proof.
  intros Hrun. destruct (reach_Inv _ _ _ Hrun) as [HI Hm].
  split; [lia|]. split; [apply HI|].
  destruct (sent_at_most_one _ _ HI) as [[Hs Hpc]|(r & Hs & Hpc & Hn)].
  - rewrite Hs. split; [simpl; lia|]. split; [intros r Hr; by inversion Hr|].
    split; [|done]. split.
    + intros Hst. by apply (stuck_done _ _ HI) in Hst.
    + intros [r Hr]. done.
  - rewrite Hs. split; [simpl; lia|]. split.
    { intros r' Hr'. apply list_elem_of_singleton in Hr'. by subst. }
    split.
    + split; [eauto | intros _; by apply (done_stuck _ _ HI)].
    + intros Hv r' Hr'. injection Hr' as <-.
      destruct HI as [_ _ _ _ HP]. unfold pcInv in HP. rewrite Hpc in HP.
      destruct HP as [(err & Hv' & _)|(_ & _ & _ & Hsent & tr1 & -> & Hs1 & Hd)];
        [congruence|].
      rewrite Hsent in Hs. injection Hs as <-.
      exists tr1. repeat split; [done| |done].
      rewrite transfers_app. simpl. by rewrite app_nil_r.
Qed.

(** A package that fails validation: no version goroutine, no transfer,
    and a Failed report with the validation message. *)
Lemma failed_validation_runs err cs tr s :
  ValidatePackage p = Some err ->
  wrun cs initW = Some (tr, s) ->
  transfers tr = [] /\ w_gs s = [] /\
  (forall r, r ∈ w_sent s ->
             Status r = "Failed" /\ ErrorMessage r = Error err) /\
  (stuck maxRetries retryDelay mappings p s ->
   w_sent s = [failedReport err]).
Proof.
  intros Hv Hrun.
  destruct (reach_Inv _ _ _ Hrun) as [HI _].
  pose proof HI as [_ _ _ _ HP]. unfold pcInv in HP.
  destruct (w_pc s) eqn:Hpc.
  - destruct HP as (Hgs & Hsent & ->). rewrite Hsent.
    split; [done|]. split; [done|]. split; [intros r Hr; by inversion Hr|].
    intros Hst. apply (stuck_done _ _ HI) in Hst. congruence.
  - destruct HP as (? & _). congruence.
  - destruct HP as (? & _). congruence.
  - destruct HP as (? & _). congruence.
  - destruct HP as [(err' & Hv' & Hgs & Hsent & ->)|(? & _)]; [|congruence].
    assert (err' = err) as -> by congruence.
    split; [done|]. split; [done|]. rewrite Hsent. split; [|done].
    intros r Hr. apply list_elem_of_singleton in Hr. by subst.
Qed.

(** C7: an npm package whose name does not start with ['@'] fails
    validation with the npm [ValidationError]; no run of its worker
    starts a version goroutine or makes a download or an upload, and the
    report it sends is Failed with the validation message. *)
Theorem npm_unscoped_reported_failed :
  pkg_PackageType p = "npm" ->
  HasPrefix (pkg_Name p) "@" = false ->
  let err := ValidationError (pkg_Name p) "npm"
               "npm package name must start with '@' for scoped packages" in
  ValidatePackage p = Some err /\
  forall cs tr s,
    wrun cs initW = Some (tr, s) ->
    transfers tr = [] /\ w_gs s = [] /\
    (forall r, r ∈ w_sent s ->
               Status r = "Failed" /\ ErrorMessage r = Error err) /\
    (stuck maxRetries retryDelay mappings p s ->
     w_sent s = [mkReport (pkg_Name p) "npm" "Failed" (Error err)
                          (length (pkg_Versions p)) 0]).
Proof.
  intros Hty Hname err.
  assert (ValidatePackage p = Some err) as Hv.
  { unfold ValidatePackage. rewrite Hty. simpl.
    unfold NpmValidator_ValidatePackage. by rewrite Hname. }
  split; [done|]. intros cs tr s Hrun.
  destruct (failed_validation_runs err cs tr s Hv Hrun) as (Ht & Hg & Hr & Hs).
  repeat split; try done; try (by apply Hr).
  intros Hst. rewrite (Hs Hst).
  unfold sync.failedReport, withStatus, newReport. simpl. by rewrite Hty.
Qed.

(** *** The validation before the fan-out *)

Lemma validateVersions_None validator versions :
  validateVersions validator versions = None <->
  Forall (fun v => V_ValidateVersion validator v = None) versions.
Proof.
  induction versions as [|v vs IH]; simpl.
  - split; [constructor | done].
  - destruct (V_ValidateVersion validator v) eqn:Hv.
    + split; [done|]. intros H. inversion H; congruence.
    + rewrite IH. split; [by constructor | intros H; by inversion H].
Qed.

Lemma validateVersions_Some validator versions err :
  validateVersions validator versions = Some err ->
  exists before v after,
    versions = (before ++ v :: after)%list /\
    Forall (fun v' => V_ValidateVersion validator v' = None) before /\
    V_ValidateVersion validator v = Some err.
Proof.
  induction versions as [|v vs IH]; simpl; [done|].
  destruct (V_ValidateVersion validator v) eqn:Hv.
  - intros [= ->]. exists [], v, vs. repeat split; [constructor | done].
  - intros H. destruct (IH H) as (before & v' & after & -> & Hb & Hv').
    exists (v :: before), v', after. repeat split; [by constructor | done].
Qed.

(** C2, as the code has it: the validation before the fan-out checks the
    package-level rule and then the version-level rule of every version,
    in order. It passes exactly when all of them hold; when a version
    breaks its rule the package is reported Failed with the error of the
    first such version, and no version is downloaded or uploaded. *)
Theorem prevalidation_checks_every_version validator :
  GetValidator (pkg_PackageType p) = inl validator ->
  V_ValidatePackage validator p = None ->
  (ValidatePackage p = None <->
   Forall (fun v => V_ValidateVersion validator v = None) (pkg_Versions p)) /\
  (forall err,
      ValidatePackage p = Some err ->
      (exists before v after,
          pkg_Versions p = (before ++ v :: after)%list /\
          Forall (fun v' => V_ValidateVersion validator v' = None) before /\
          V_ValidateVersion validator v = Some err) /\
      forall cs tr s,
        wrun cs initW = Some (tr, s) ->
        transfers tr = [] /\
        (forall r, r ∈ w_sent s ->
                   Status r = "Failed" /\ ErrorMessage r = Error err) /\
        (stuck maxRetries retryDelay mappings p s ->
         w_sent s = [failedReport err])).
Proof.
  intros Hg Hp.
  assert (ValidatePackage p = validateVersions validator (pkg_Versions p)) as Heq.
  { unfold ValidatePackage. by rewrite Hg, Hp. }
  split.
  - rewrite Heq. apply validateVersions_None.
  - intros err Herr. split.
    + rewrite Heq in Herr. by apply validateVersions_Some.
    + intros cs tr s Hrun.
      destruct (failed_validation_runs err cs tr s Herr Hrun)
        as (Ht & _ & Hr & Hs). done.
Qed.

(** C1, as the code has it: the report of a package is Failed exactly when
    its validation failed, and then carries the validation message;
    otherwise every version has been attempted and the report is Success
    when no version ended with an error and Partial Success when at least
    one did, also when all of them did. *)
Theorem report_status_law cs tr s r :
  wrun cs initW = Some (tr, s) ->
  w_sent s = [r] ->
  (forall err, ValidatePackage p = Some err ->
               Status r = "Failed" /\ ErrorMessage r = Error err) /\
  (ValidatePackage p = None ->
   length (w_gs s) = length (pkg_Versions p) /\
   unfinished (w_gs s) = 0%nat /\
   Status r <> "Failed" /\
   (failed (w_gs s) = 0%nat -> Status r = "Success") /\
   ((0 < failed (w_gs s))%nat -> Status r = "Partial Success")).
Proof.
  intros Hrun Hr. destruct (reach_Inv _ _ _ Hrun) as [HI _].
  pose proof (status_law _ _ _ HI Hr) as Hlaw.
  destruct (ValidatePackage p) as [err0|].
  - split; [|done]. by intros err [= <-].
  - split; [done|]. intros _. destruct Hlaw as (Hlen & Hfin & ->).
    repeat split; try done.
    + by destruct (0 <? failed (w_gs s))%nat.
    + by intros ->.
    + intros Hpos. apply Nat.ltb_lt in Hpos. by rewrite Hpos.
Qed.

End Worker.

(** ** processConcurrently as a whole *)

Section Pool.
Variable maxRetries : nat.
Variable retryDelay : Z.
Variable mappings : gmap string string.
Variable packages : list Package.

Local Abbreviation wstep := (sync.wstep maxRetries retryDelay mappings).
Local Abbreviation wrun := (sync.wrun maxRetries retryDelay mappings).
Local Abbreviation wmeasure := (sync.wmeasure maxRetries).
Local Abbreviation pstep := (sync.pstep maxRetries retryDelay mappings packages).
Local Abbreviation prun := (sync.prun maxRetries retryDelay mappings packages).
Local Abbreviation pmeasure := (sync.pmeasure maxRetries packages).
Local Abbreviation PInv := (sync.PInv maxRetries retryDelay mappings packages).

Lemma wrun_snoc p cs : forall s tr s1 c evs s2,
  wrun p cs s = Some (tr, s1) ->
  wstep p c s1 = Some (evs, s2) ->
  wrun p (cs ++ [c]) s = Some ((tr ++ evs)%list, s2).
Proof.
  induction cs as [|c0 cs IH]; intros s tr s1 c evs s2 Hrun Hstep; simpl in Hrun.
  - injection Hrun as <- <-. simpl. rewrite Hstep. by rewrite app_nil_r.
  - cbn [app sync.wrun].
    destruct (wstep p c0 s) as [[evs0 s0]|]; [|done].
    destruct (wrun p cs s0) as [[tr0 s0']|] eqn:Hrest; [|done].
    injection Hrun as <- <-.
    rewrite (IH _ _ _ _ _ _ Hrest Hstep). by rewrite app_assoc.
Qed.

Lemma eventsOf_app k tr1 tr2 :
  eventsOf k (tr1 ++ tr2) = (eventsOf k tr1 ++ eventsOf k tr2)%list.
Proof. unfold eventsOf. apply omap_app. Qed.

Lemma eventsOf_same k evs : eventsOf k (map (PEv k) evs) = evs.
Proof.
  induction evs as [|e evs IH]; [done|].
  cbn [map]. change (eventsOf k (PEv k e :: map (PEv k) evs))
    with (match (if (k =? k)%nat then Some e else None) with
          | Some y => y :: eventsOf k (map (PEv k) evs)
          | None => eventsOf k (map (PEv k) evs)
          end).
  by rewrite Nat.eqb_refl, IH.
Qed.

Lemma eventsOf_other k k' evs : k <> k' -> eventsOf k' (map (PEv k) evs) = [].
Proof.
  intros Hne. induction evs as [|e evs IH]; [done|].
  cbn [map]. change (eventsOf k' (PEv k e :: map (PEv k) evs))
    with (match (if (k =? k')%nat then Some e else None) with
          | Some y => y :: eventsOf k' (map (PEv k) evs)
          | None => eventsOf k' (map (PEv k) evs)
          end).
  apply Nat.eqb_neq in Hne. by rewrite Hne, IH.
Qed.

Lemma PInv_init : PInv [] initP.
Proof. split; try done. cbn. unfold maxConcurrent. lia. Qed.

(** A worker of a reachable state that has returned takes no step. *)
Lemma worker_steps_not_done p cs tr s c evs s' :
  wrun p cs initW = Some (tr, s) ->
  wstep p c s = Some (evs, s') ->
  isDone s = false /\ (wmeasure p s' < wmeasure p s)%nat.
Proof.
  intros Hrun Hstep.
  destruct (reach_Inv maxRetries retryDelay mappings p cs tr s Hrun) as [HI _].
  split.
  - unfold isDone. destruct (w_pc s) eqn:Hpc; try done.
    pose proof (done_stuck maxRetries retryDelay mappings p tr s HI Hpc c).
    congruence.
  - by destruct (step_preserves maxRetries retryDelay mappings p tr s c evs s'
                   HI Hstep).
Qed.

Lemma running_insert (workers : list (Package * wstate)) k p s s' :
  workers !! k = Some (p, s) -> isDone s = false ->
  running (<[k := (p, s')]> workers)
  = if isDone s' then pred (running workers) else running workers.
Proof.
  intros Hk Hs. unfold running.
  pose proof (sum_list_with_insert
                (fun ps : Package * wstate => if isDone ps.2 then 0 else 1)%nat
                workers k (p, s) (p, s') Hk) as H.
  simpl in H. rewrite Hs in H. destruct (isDone s'); lia.
Qed.

Lemma running_snoc (workers : list (Package * wstate)) p :
  running (workers ++ [(p, initW)]) = S (running workers).
Proof. unfold running. rewrite sum_list_with_app. simpl. lia. Qed.

Lemma running_zero (workers : list (Package * wstate)) k p s :
  running workers = 0%nat -> workers !! k = Some (p, s) -> isDone s = true.
Proof.
  intros H0 Hk. unfold running in H0.
  pose proof (sum_list_with_zero _ _ _ _ H0 Hk) as Hz. simpl in Hz.
  destruct (isDone s); [done | lia].
Qed.

Lemma workers_within tr st :
  PInv tr st -> (length (p_workers st) <= length packages)%nat.
Proof.
  intros HI. destruct (decide (length (p_workers st) <= length packages)%nat)
    as [|Hgt]; [done|].
  destruct (lookup_lt_is_Some_2 (p_workers st) (length packages) ltac:(lia))
    as [[p s] Hk].
  destruct (pinv_workers _ _ _ _ _ _ HI _ _ _ Hk) as [Hp _].
  apply lookup_lt_Some in Hp. lia.
Qed.

Lemma pstep_preserves tr st c evs st' :
  PInv tr st -> pstep c st = Some (evs, st') ->
  PInv (tr ++ evs) st' /\ (pmeasure st' < pmeasure st)%nat.
Proof.
  intros HI Hstep. pose proof (workers_within _ _ HI) as Hwithin.
  destruct HI as [Hworkers Hfresh Hsem Hwg Hbound Hclosed].
  destruct c as [|k c]; cbn [sync.pstep] in Hstep.
  - destruct (packages !! length (p_workers st)) as [p|] eqn:Hp.
    + (* the main goroutine starts the next worker *)
      destruct (p_sem st <? maxConcurrent)%nat eqn:Hfree; [|done].
      apply Nat.ltb_lt in Hfree. injection Hstep as <- <-. split.
      * split; cbn [p_workers p_sem p_wg p_closed].
        -- intros k p' s Hk. rewrite eventsOf_app, app_nil_r.
           apply lookup_app_Some in Hk as [Hk|[Hge Hk]]; [by apply Hworkers|].
           destruct (k - length (p_workers st))%nat as [|n] eqn:Hn; [|done].
           injection Hk as <- <-.
           assert (k = length (p_workers st)) as -> by lia.
           split; [done|]. exists []. simpl. by rewrite Hfresh.
        -- intros k Hk. rewrite length_app in Hk. simpl in Hk.
           rewrite eventsOf_app, app_nil_r. apply Hfresh. lia.
        -- by rewrite running_snoc, Hsem.
        -- by rewrite running_snoc, Hwg.
        -- lia.
        -- intros Hc. destruct (Hclosed Hc) as [Hlen _].
           apply lookup_lt_Some in Hp. lia.
      * unfold sync.pmeasure. cbn [p_workers p_closed].
        rewrite length_app, sum_list_with_app. cbn [length sum_list_with fst snd].
        rewrite Nat.add_1_r.
        rewrite (drop_S packages p (length (p_workers st)) Hp).
        cbn [sum_list_with]. lia.
    + (* the main goroutine closes results *)
      destruct ((p_wg st =? 0)%nat && negb (p_closed st))%bool eqn:Hready; [|done].
      apply andb_true_iff in Hready as [H0 Hopen].
      apply Nat.eqb_eq in H0. apply negb_true_iff in Hopen.
      injection Hstep as <- <-. split.
      * split; cbn [p_workers p_sem p_wg p_closed]; try done.
        -- intros k p s Hk. rewrite eventsOf_app, app_nil_r. by apply Hworkers.
        -- intros k Hk. rewrite eventsOf_app, app_nil_r. by apply Hfresh.
        -- intros _. apply lookup_ge_None in Hp. split; [lia | congruence].
      * unfold sync.pmeasure. cbn [p_workers p_closed]. rewrite Hopen. lia.
  - (* a step of the worker of package k *)
    destruct (p_workers st !! k) as [[p s]|] eqn:Hk; [|done].
    destruct (wstep p c s) as [[wevs s']|] eqn:Hw; [|done].
    injection Hstep as <- <-.
    destruct (Hworkers _ _ _ Hk) as [Hp [wcs Hwrun]].
    destruct (worker_steps_not_done _ _ _ _ _ _ _ Hwrun Hw) as [Hnd Hless].
    pose proof (lookup_lt_Some _ _ _ Hk) as Hklt.
    split.
    * split; cbn [p_workers p_sem p_wg p_closed].
      -- intros k' p' s0 Hk'. rewrite eventsOf_app.
         destruct (decide (k = k')) as [<-|Hne].
         ++ rewrite list_lookup_insert_eq in Hk' by done.
            injection Hk' as <- <-. split; [done|].
            exists (wcs ++ [c])%list. rewrite eventsOf_same.
            by apply (wrun_snoc p wcs initW _ s).
         ++ rewrite list_lookup_insert_ne in Hk' by done.
            rewrite (eventsOf_other k k') by done. rewrite app_nil_r.
            by apply Hworkers.
      -- intros k' Hk'. rewrite length_insert in Hk'.
         rewrite eventsOf_app, (eventsOf_other k k') by lia.
         rewrite app_nil_r. by apply Hfresh.
      -- rewrite (running_insert _ _ _ _ _ Hk Hnd), Hsem. done.
      -- rewrite (running_insert _ _ _ _ _ Hk Hnd), Hwg. done.
      -- destruct (isDone s'); lia.
      -- intros Hc. destruct (Hclosed Hc) as [_ H0].
         pose proof (running_zero _ _ _ _ H0 Hk). congruence.
    * unfold sync.pmeasure. cbn [p_workers p_closed]. rewrite length_insert.
      pose proof (sum_list_with_insert
                    (fun ps : Package * wstate => wmeasure ps.1 ps.2)
                    (p_workers st) k (p, s) (p, s') Hk) as Hsum.
      simpl in Hsum. lia.
Qed.

Lemma prun_preserves cs : forall tr0 st tr st',
  PInv tr0 st -> prun cs st = Some (tr, st') ->
  PInv (tr0 ++ tr) st' /\ (length cs + pmeasure st' <= pmeasure st)%nat.
Proof.
  induction cs as [|c cs IH]; intros tr0 st tr st' HI Hrun; simpl in Hrun.
  - injection Hrun as <- <-. rewrite app_nil_r. split; [done | simpl; lia].
  - destruct (pstep c st) as [[evs st1]|] eqn:Hstep; [|done].
    destruct (prun cs st1) as [[evs' st2]|] eqn:Hrest; [|done].
    injection Hrun as <- <-.
    destruct (pstep_preserves _ _ _ _ _ HI Hstep) as [HI1 Hm1].
    destruct (IH _ _ _ _ HI1 Hrest) as [HI2 Hm2].
    rewrite app_assoc. split; [done | simpl; lia].
Qed.

(** When no step is left every package has its worker, every worker has
    returned and [results] is closed. *)
Lemma pool_stuck tr st :
  PInv tr st -> sync.pstuck maxRetries retryDelay mappings packages st ->
  p_closed st = true /\ (p_workers st).*1 = packages /\
  forall k p s, p_workers st !! k = Some (p, s) -> w_pc s = PcDone.
Proof.
  intros HI Hstuck. pose proof (workers_within _ _ HI) as Hwithin.
  destruct HI as [Hworkers Hfresh Hsem Hwg Hbound Hclosed].
  assert (forall k p s, p_workers st !! k = Some (p, s) -> w_pc s = PcDone)
    as Hdone.
  { intros k p s Hk. destruct (Hworkers _ _ _ Hk) as [_ [wcs Hwrun]].
    destruct (reach_Inv maxRetries retryDelay mappings p wcs _ s Hwrun) as [HIw _].
    apply (stuck_done maxRetries retryDelay mappings p _ s HIw).
    intros c. pose proof (Hstuck (PWorker k c)) as Hc.
    cbn [sync.pstep] in Hc. rewrite Hk in Hc.
    by destruct (wstep p c s) as [[evs s']|]. }
  assert (running (p_workers st) = 0%nat) as H0.
  { destruct (running (p_workers st)) as [|n] eqn:Hr; [done|].
    destruct (sum_list_with_pos
                (fun ps : Package * wstate => if isDone ps.2 then 0 else 1)%nat
                (p_workers st)) as (k & [p s] & Hk & Hpos).
    { unfold running in Hr. lia. }
    simpl in Hpos. pose proof (Hdone _ _ _ Hk) as Hpc.
    unfold isDone in Hpos. rewrite Hpc in Hpos. lia. }
  pose proof (Hstuck PMain) as Hmain. cbn [sync.pstep] in Hmain.
  destruct (packages !! length (p_workers st)) as [p|] eqn:Hp.
  { assert ((p_sem st <? maxConcurrent)%nat = true) as Hfree.
    { apply Nat.ltb_lt. rewrite Hsem, H0. unfold maxConcurrent. lia. }
    by rewrite Hfree in Hmain. }
  apply lookup_ge_None in Hp.
  rewrite Hwg, H0 in Hmain. cbn [Nat.eqb andb] in Hmain.
  destruct (p_closed st) eqn:Hc; [|done].
  split; [done|]. split; [|done].
  apply list_eq. intros k. rewrite list_lookup_fmap.
  destruct (p_workers st !! k) as [[p s]|] eqn:Hk; simpl.
  - destruct (Hworkers _ _ _ Hk) as [-> _]. done.
  - apply lookup_ge_None in Hk. symmetry. apply lookup_ge_None. lia.
Qed.

(** C3: in every run of [processConcurrently] the semaphore holds at most
    five tokens and the run is finite; the worker of each package started
    sends at most one report, which is the package's, and when validation
    succeeded the send is the last of the worker's events, after the
    return of every version goroutine (and so after every download and
    upload). When the run can go no further every package has had its
    worker, every worker has sent exactly one report, and [results] is
    closed. *)
Theorem every_package_reported_once cs tr st :
  prun cs initP = Some (tr, st) ->
  (length cs <= pmeasure initP)%nat /\
  (p_sem st <= maxConcurrent)%nat /\
  (forall k p s,
      p_workers st !! k = Some (p, s) ->
      packages !! k = Some p /\
      sends (eventsOf k tr) = w_sent s /\
      (length (w_sent s) <= 1)%nat /\
      (forall r, r ∈ w_sent s -> PackageName r = pkg_Name p) /\
      (ValidatePackage p = None -> forall r, w_sent s = [r] ->
       exists tr1, eventsOf k tr = (tr1 ++ [EvSend r])%list /\ sends tr1 = [] /\
                   transfers tr1 = transfers (eventsOf k tr) /\
                   forall i, (i < length (pkg_Versions p))%nat ->
                             EvVersionDone i ∈ tr1)) /\
  (sync.pstuck maxRetries retryDelay mappings packages st ->
   p_closed st = true /\ (p_workers st).*1 = packages /\
   forall k p s, p_workers st !! k = Some (p, s) ->
                 exists r, w_sent s = [r] /\ sends (eventsOf k tr) = [r]).
Proof.
  intros Hrun.
  destruct (prun_preserves cs [] initP tr st PInv_init Hrun) as [HI Hm].
  cbn [app] in HI. split; [lia|]. split; [apply HI|]. split.
  - intros k p s Hk.
    destruct (pinv_workers _ _ _ _ _ _ HI _ _ _ Hk) as [Hp [wcs Hwrun]].
    destruct (worker_report_once maxRetries retryDelay mappings p wcs _ s Hwrun)
      as (_ & Hsends & Hone & Hname & _ & Hlast).
    done.
  - intros Hstuck. destruct (pool_stuck _ _ HI Hstuck) as (Hc & Hall & Hdone).
    split; [done|]. split; [done|]. intros k p s Hk.
    destruct (pinv_workers _ _ _ _ _ _ HI _ _ _ Hk) as [Hp [wcs Hwrun]].
    destruct (worker_report_once maxRetries retryDelay mappings p wcs _ s Hwrun)
      as (_ & Hsends & _ & _ & Hst & _).
    destruct (reach_Inv maxRetries retryDelay mappings p wcs _ s Hwrun) as [HIw _].
    pose proof (done_stuck maxRetries retryDelay mappings p _ s HIw
                  (Hdone _ _ _ Hk)) as Hws.
    apply Hst in Hws as [r Hr]. exists r. split; [done|]. by rewrite Hsends.
Qed.
End Pool.

(** *** The concrete runs *)

Example mixedRun_report :
  w_sent mixedState
  = [mkReport "img" "container" "Partial Success"
              "failed to download version 2.0.0: connection reset by peer" 2 0].
Proof. reflexivity. Qed.

Example failingRun_report :
  w_sent failingState
  = [mkReport "img1" "container" "Partial Success"
              "failed to download version 1.0.0: connection reset by peer" 1 0].
Proof. reflexivity. Qed.

(** *** The claims at the concrete runs *)

Example poolRun_reports :
  p_closed poolState = true /\
  map (fun ps => map Status (w_sent (snd ps))) (p_workers poolState)
  = [["Failed"]; ["Partial Success"]].
Proof. vm_compute. done. Qed.

Lemma every_package_reported_once_witness :
  (length poolRun <= pmeasure 3 poolPackages initP)%nat /\
  (p_sem poolState <= maxConcurrent)%nat /\
  (forall k p s,
      p_workers poolState !! k = Some (p, s) ->
      poolPackages !! k = Some p /\
      sends (eventsOf k poolTrace) = w_sent s /\
      (length (w_sent s) <= 1)%nat /\
      (forall r, r ∈ w_sent s -> PackageName r = pkg_Name p) /\
      (ValidatePackage p = None -> forall r, w_sent s = [r] ->
       exists tr1, eventsOf k poolTrace = (tr1 ++ [EvSend r])%list /\
                   sends tr1 = [] /\
                   transfers tr1 = transfers (eventsOf k poolTrace) /\
                   forall i, (i < length (pkg_Versions p))%nat ->
                             EvVersionDone i ∈ tr1)) /\
  (pstuck 3 5000000000 ∅ poolPackages poolState ->
   p_closed poolState = true /\ (p_workers poolState).*1 = poolPackages /\
   forall k p s, p_workers poolState !! k = Some (p, s) ->
                 exists r, w_sent s = [r] /\ sends (eventsOf k poolTrace) = [r]).
Proof.
  apply (every_package_reported_once 3 5000000000 ∅ poolPackages poolRun
           poolTrace poolState).
  vm_compute. reflexivity.
Defined.

Lemma npm_unscoped_reported_failed_witness :
  ValidatePackage lodash
  = Some (ValidationError "lodash" "npm"
            "npm package name must start with '@' for scoped packages") /\
  forall cs tr s,
    wrun 3 5000000000 ∅ lodash cs initW = Some (tr, s) ->
    transfers tr = [] /\ w_gs s = [] /\
    (forall r, r ∈ w_sent s ->
               Status r = "Failed" /\
               ErrorMessage r
               = "validation error for npm package 'lodash': npm package name must start with '@' for scoped packages") /\
    (stuck 3 5000000000 ∅ lodash s ->
     w_sent s
     = [mkReport "lodash" "npm" "Failed"
                 "validation error for npm package 'lodash': npm package name must start with '@' for scoped packages"
                 1 0]).
Proof.
  apply (npm_unscoped_reported_failed 3 5000000000 ∅ lodash);
    vm_compute; reflexivity.
Defined.

Lemma report_status_law_witness :
  (forall err, ValidatePackage img = Some err ->
               Status mixedReport = "Failed" /\ ErrorMessage mixedReport = Error err) /\
  (ValidatePackage img = None ->
   length (w_gs mixedState) = length (pkg_Versions img) /\
   unfinished (w_gs mixedState) = 0%nat /\
   Status mixedReport <> "Failed" /\
   (failed (w_gs mixedState) = 0%nat -> Status mixedReport = "Success") /\
   ((0 < failed (w_gs mixedState))%nat -> Status mixedReport = "Partial Success")).
Proof.
  apply (report_status_law 3 5000000000 ∅ img mixedRun mixedTrace mixedState
           mixedReport).
  - vm_compute. reflexivity.
  - vm_compute. reflexivity.
Defined.

(** C1 fails at [img1] when the three downloads of its only version fail:
    validation passed, every version ended with an error, and the report is
    Partial Success, not Failed. *)
Lemma all_versions_failed_counterexample :
  ValidatePackage img1 = None /\
  wrun 3 5000000000 ∅ img1 failingRun initW = Some (failingTrace, failingState) /\
  failed (w_gs failingState) = length (pkg_Versions img1) /\
  w_sent failingState = [failingReport] /\
  Status failingReport = "Partial Success" /\
  Status failingReport <> "Failed".
Proof. vm_compute. repeat split; done. Qed.

(** C2 fails at [widget]: its name keeps the npm package-level rule, its
    version has no [package.json]; the validation before the fan-out returns
    the version-level error, the worker reports Failed and starts no
    transfer, so the violation is not a transfer error of that version. *)
Lemma prevalidation_package_level_only_counterexample :
  ValidatePackage_packageLevelOnly widget = None /\
  ValidatePackage widget
  = Some (ValidationError "" "npm" "missing required package.json file") /\
  ValidatePackage widget <> ValidatePackage_packageLevelOnly widget /\
  wrun 3 5000000000 ∅ widget [CWorker] initW
  = Some ([EvValidate (Some (ValidationError "" "npm"
                               "missing required package.json file"));
           EvSend (mkReport "@acme/widget" "npm" "Failed"
                     "validation error for npm package '': missing required package.json file"
                     1 0)],
          mkW PcDone [] 0 []
              [mkReport "@acme/widget" "npm" "Failed"
                 "validation error for npm package '': missing required package.json file"
                 1 0]).
Proof. vm_compute. repeat split; done. Qed.

Lemma prevalidation_checks_every_version_witness :
  (ValidatePackage widget = None <->
   Forall (fun v => V_ValidateVersion NpmValidator v = None) (pkg_Versions widget)) /\
  (forall err,
      ValidatePackage widget = Some err ->
      (exists before v after,
          pkg_Versions widget = (before ++ v :: after)%list /\
          Forall (fun v' => V_ValidateVersion NpmValidator v' = None) before /\
          V_ValidateVersion NpmValidator v = Some err) /\
      forall cs tr s,
        wrun 3 5000000000 ∅ widget cs initW = Some (tr, s) ->
        transfers tr = [] /\
        (forall r, r ∈ w_sent s ->
                   Status r = "Failed" /\ ErrorMessage r = Error err) /\
        (stuck 3 5000000000 ∅ widget s ->
         w_sent s = [failedReport widget err])).
Proof.
  apply (prevalidation_checks_every_version 3 5000000000 ∅ widget NpmValidator);
    vm_compute; reflexivity.
Defined.

(** ** The mapping table *)

Lemma addRecord_short (m : gmap string string) (record : list string) :
  (length record < 2)%nat -> addRecord m record = m.
Proof. destruct record as [|r0 [|r1 rest]]; simpl; [done | done | lia]. Qed.

Lemma addRecord_long (m : gmap string string) (record : list string) :
  (2 <= length record)%nat ->
  exists r0 r1 rest, record = r0 :: r1 :: rest /\ addRecord m record = <[r0 := r1]> m.
Proof.
  destruct record as [|r0 [|r1 rest]]; simpl; [lia | lia | eauto].
Qed.

Lemma foldl_addRecord_filter (rows : list (list string)) :
  forall m : gmap string string,
    foldl addRecord m rows
    = foldl addRecord m (List.filter (fun r => (2 <=? length r)%nat) rows).
Proof.
  induction rows as [|r rows IH]; intros m; [done|].
  cbn [foldl List.filter].
  destruct (2 <=? length r)%nat eqn:Hlen; cbn [foldl].
  - apply IH.
  - apply Nat.leb_gt in Hlen. rewrite (addRecord_short m r Hlen). apply IH.
Qed.

(** C8: name resolution returns the mapped name for a key of the table and
    the name itself otherwise, for every table and every name; with the
    table of [NewPackageSync], also after [LoadMappings] of the empty path,
    it is the identity. *)
Theorem getTargetPackageName_resolves (mappings : gmap string string)
        (sourceName : string) :
  (forall targetName,
      mappings !! sourceName = Some targetName ->
      getTargetPackageName mappings sourceName = targetName) /\
  (mappings !! sourceName = None ->
   getTargetPackageName mappings sourceName = sourceName) /\
  getTargetPackageName NewPackageSync_mappings sourceName = sourceName /\
  (forall fs, exists m,
      LoadMappings fs NewPackageSync_mappings "" = Ok m /\
      getTargetPackageName m sourceName = sourceName).
Proof.
  unfold getTargetPackageName. repeat split.
  - intros targetName ->. done.
  - intros ->. done.
  - intros fs. exists ∅. done.
Qed.

(** Scenario A: with the table [pkgA -> pkgA2], [pkgA] resolves to [pkgA2]
    and [pkgB] to itself. *)
Example getTargetPackageName_scenarioA :
  let m : gmap string string := {[ "pkgA" := "pkgA2" ]} in
  getTargetPackageName m "pkgA" = "pkgA2" /\ getTargetPackageName m "pkgB" = "pkgB".
Proof. vm_compute. done. Qed.

Lemma readRecords_ok (n : nat) (input : list GoCsv.record) :
  Forall (fun r => length (GoCsv.fields r) = n) input ->
  GoCsv.readRecords n input = inr (map GoCsv.fields input).
Proof.
  induction input as [|r input IH]; intros Hall; [done|].
  inversion Hall as [|? ? Hr Hrest]; subst. cbn [GoCsv.readRecords map].
  rewrite Nat.eqb_refl. cbn [negb]. by rewrite (IH Hrest).
Qed.

Lemma readRecords_err (n : nat) (before : list GoCsv.record) row after :
  Forall (fun r => length (GoCsv.fields r) = n) before ->
  length (GoCsv.fields row) <> n ->
  GoCsv.readRecords n (before ++ row :: after) = inl (GoCsv.ErrFieldCount row).
Proof.
  intros Hall Hrow. induction Hall as [|r before Hr Hrest IH].
  - cbn [app GoCsv.readRecords].
    apply Nat.eqb_neq in Hrow. by rewrite Hrow.
  - cbn [app GoCsv.readRecords]. rewrite Hr, Nat.eqb_refl. cbn [negb].
    by rewrite IH.
Qed.

Lemma foldl_addRecord_short (rows : list (list string)) :
  forall m : gmap string string,
    Forall (fun r => (length r < 2)%nat) rows -> foldl addRecord m rows = m.
Proof.
  induction rows as [|r rows IH]; intros m Hall; [done|].
  inversion Hall as [|? ? Hr Hrest]; subst. cbn [foldl].
  rewrite (addRecord_short m r Hr). by apply IH.
Qed.


(** C10 fails where it has short rows silently ignored: under a header of
    two columns a row of one column is not skipped, the read fails at it
    and [LoadMappings] returns an error, without the mapping of the row
    before it. *)
Lemma LoadMappings_short_row_counterexample :
  mappingFiles "ragged.csv"
  = Content [GoCsv.mkRecord 1 "source" ["target"];
             GoCsv.mkRecord 2 "pkgA" ["pkgA2"];
             GoCsv.mkRecord 3 "orphan" []] /\
  (length (GoCsv.fields (GoCsv.mkRecord 3 "orphan" [])) < 2)%nat /\
  LoadMappings mappingFiles ∅ "ragged.csv"
  = Err (Errorf "failed to read mapping file: record on line 3: wrong number of fields") /\
  (forall m, LoadMappings mappingFiles ∅ "ragged.csv" <> Ok m).
Proof.
  split; [reflexivity|]. split; [simpl; lia|]. split; [reflexivity|].
  intros m H. vm_compute in H. discriminate H.
Qed.


Example LoadMappings_empty_file :
  LoadMappings mappingFiles ∅ "empty.csv"
  = Panic "runtime error: slice bounds out of range [1:0]".
Proof. reflexivity. Qed.

Example LoadMappings_ragged_file :
  LoadMappings mappingFiles ∅ "ragged.csv"
  = Err (Errorf "failed to read mapping file: record on line 3: wrong number of fields").
Proof. reflexivity. Qed.

Example LoadMappings_one_column :
  LoadMappings mappingFiles {[ "pkgA" := "pkgA2" ]} "names.csv"
  = Ok {[ "pkgA" := "pkgA2" ]}.
Proof. reflexivity. Qed.

Example LoadMappings_three_columns :
  LoadMappings mappingFiles ∅ "map.csv"
  = Ok {[ "pkgA" := "pkgA3"; "pkgB" := "pkgB2" ]}.
Proof. vm_compute. reflexivity. Qed.

Example LoadMappings_missing_file :
  LoadMappings mappingFiles ∅ "nowhere.csv"
  = Err (Errorf "failed to open mapping file: open nowhere.csv: no such file or directory").
Proof. reflexivity. Qed.
End SyncFacts.


(** ** The catalog fetch and the rate limit *)

Module ApiFacts.
Import GoStrings api.

(** *** GetOrganizationPackages *)


Lemma packagesOf_cons q pages :
  packagesOf (q :: pages) = (map packageOfNode (Nodes q) ++ packagesOf pages)%list.
Proof. unfold packagesOf. simpl. by rewrite map_app. Qed.

Lemma fetchLoop_ok (pages : list PackageQuery) :
  forall lastPage later after packages sent,
    Forall (fun q => HasNextPage q = true) pages ->
    HasNextPage lastPage = false ->
    fetchLoop (map inr pages ++ inr lastPage :: later) after packages sent
    = Some (inl (packages ++ packagesOf (pages ++ [lastPage]))%list,
            (sent ++ after :: cursorsOf pages)%list).
Proof.
  induction pages as [|q pages IH];
    intros lastPage later after packages sent Hall Hlast.
  - cbn [map app fetchLoop]. rewrite Hlast. cbn [negb].
    rewrite packagesOf_cons. unfold packagesOf. simpl. by rewrite app_nil_r.
  - inversion Hall as [|? ? Hq Hrest]; subst. cbn [map app fetchLoop].
    rewrite Hq. cbn [negb]. rewrite (IH _ _ _ _ _ Hrest Hlast).
    rewrite packagesOf_cons, <- !app_assoc. done.
Qed.

Lemma fetchLoop_err (pages : list PackageQuery) :
  forall err later after packages sent,
    Forall (fun q => HasNextPage q = true) pages ->
    fetchLoop (map inr pages ++ inl err :: later) after packages sent
    = Some (inr (Errorf ("failed to query packages: " ++ Error err)),
            (sent ++ after :: cursorsOf pages)%list).
Proof.
  induction pages as [|q pages IH]; intros err later after packages sent Hall.
  - done.
  - inversion Hall as [|? ? Hq Hrest]; subst. cbn [map app fetchLoop].
    rewrite Hq. cbn [negb]. rewrite (IH _ _ _ _ _ Hrest).
    rewrite <- !app_assoc. done.
Qed.

Lemma isPackageNode_packageOfNode (nodes : list PackageNode) :
  Forall2 isPackageNode nodes (map packageOfNode nodes).
Proof.
  induction nodes as [|node nodes IH]; constructor; [|exact IH].
  unfold isPackageNode, packageOfNode. cbn.
  do 3 (split; [reflexivity|]).
  split; [by eexists|]. split; [by eexists|].
  induction (pn_Versions node) as [|ver vers IHv]; constructor; [|exact IHv].
  unfold isVersionNode, versionOfNode. cbn.
  do 4 (split; [reflexivity|]).
  induction (vn_Files ver) as [|file files IHf]; constructor; [|exact IHf].
  by unfold isFileNode, fileOfNode.
Qed.

(** C4: when every page but the last says there is a next page and the
    last says there is none, [GetOrganizationPackages] requests exactly
    these pages, each with the cursor of the page before, and returns one
    package for each package node of the pages, in page order and in the
    order of the nodes of a page, with the node's identifier, name, type,
    repository, download count, versions and files; when the request that
    follows some pages returns an error, it returns that error and no
    package. *)
Theorem GetOrganizationPackages_all_or_nothing
        (pages : list PackageQuery) :
  Forall (fun q => HasNextPage q = true) pages ->
  (forall lastPage later,
      HasNextPage lastPage = false ->
      exists packages,
        GetOrganizationPackages (map inr (pages ++ [lastPage]) ++ later)
        = Some (inl packages, None :: cursorsOf pages) /\
        packages = packagesOf (pages ++ [lastPage]) /\
        Forall2 isPackageNode (concat (map Nodes (pages ++ [lastPage])))
                packages) /\
  (forall err later,
      GetOrganizationPackages (map inr pages ++ inl err :: later)
      = Some (inr (Errorf ("failed to query packages: " ++ Error err)),
              None :: cursorsOf pages)).
Proof.
  intros Hall. unfold GetOrganizationPackages. split.
  - intros lastPage later Hlast.
    exists (packagesOf (pages ++ [lastPage])). split; [|split; [done|]].
    + rewrite map_app, <- app_assoc. cbn [map app].
      by rewrite (fetchLoop_ok pages _ _ _ _ _ Hall Hlast).
    + apply isPackageNode_packageOfNode.
  - intros err later. by rewrite (fetchLoop_err pages _ _ _ _ _ Hall).
Qed.


(** *** The rate-limit probe *)

Section RateLimitFacts.
Context {R : Type}.
Implicit Types (probes : list probe) (page : nat * (error + R)).
Implicit Types (log : list qevent) (res : error + R).

Lemma sleepUntil_ge now d over : now <= sleepUntil now d over /\ now + d <= sleepUntil now d over.
Proof. unfold sleepUntil. lia. Qed.

(** The page query is issued no earlier than [Query] was called. *)
Lemma Query_page_after_call probes : forall page now res t log,
  Query probes page now = Some (res, t, log) ->
  forall t', QPage t' ∈ log -> now <= t'.
Proof.
  induction probes as [|pr rest IH]; intros page now res t log HQ t' Hin;
    cbn [Query] in HQ; [done|].
  destruct (probe_result pr) as [err|rl].
  - injection HQ as <- <- <-. by apply list_elem_of_singleton in Hin.
  - destruct (0 <? Remaining rl) eqn:Hrem.
    + injection HQ as <- <- <-.
      apply elem_of_cons in Hin as [Hin|Hin]; [done|].
      apply list_elem_of_singleton in Hin. injection Hin as ->. lia.
    + destruct (Query rest page _) as [[[res' t0] log']|] eqn:Hrest; [|done].
      injection HQ as <- <- <-.
      apply elem_of_cons in Hin as [Hin|Hin]; [done|].
      apply elem_of_cons in Hin as [Hin|Hin]; [done|].
      specialize (IH _ _ _ _ _ Hrest _ Hin).
      pose proof (sleepUntil_ge (now + Z.of_nat (probe_latency pr))
                    (ResetAt rl - (now + Z.of_nat (probe_latency pr)))
                    (probe_oversleep pr)). lia.
Qed.

(** C5: in every call of [Query], a probe that reports no remaining quota
    is followed by a sleep until its reset time, and the page query is
    issued no earlier than that reset time; a probe that reports remaining
    quota is followed at once, at the time it returned, by the page query,
    which ends the call. *)
Theorem Query_waits_for_reset probes : forall page now res t log,
  Query probes page now = Some (res, t, log) ->
  (forall t0 t1 rl,
      QProbe t0 t1 (inr rl) ∈ log -> Remaining rl <= 0 ->
      QSleep t1 (ResetAt rl - t1) ∈ log /\
      forall t', QPage t' ∈ log -> ResetAt rl <= t') /\
  (forall t0 t1 rl,
      QProbe t0 t1 (inr rl) ∈ log -> 0 < Remaining rl ->
      res = snd page /\
      exists before, log = (before ++ [QProbe t0 t1 (inr rl); QPage t1])%list).
Proof.
  induction probes as [|pr rest IH]; intros page now res t log HQ;
    cbn [Query] in HQ; [done|].
  destruct (probe_result pr) as [err|rl] eqn:Hres.
  - injection HQ as <- <- <-. split; intros t0 t1 rl' Hin;
      apply list_elem_of_singleton in Hin; done.
  - destruct (0 <? Remaining rl) eqn:Hrem.
    + apply Z.ltb_lt in Hrem. injection HQ as <- <- <-.
      split; intros t0 t1 rl' Hin Hq;
        (apply elem_of_cons in Hin as [Hin|Hin];
         [injection Hin as ? ? ?; subst | apply list_elem_of_singleton in Hin; done]).
      * lia.
      * split; [done|]. by exists [].
    + apply Z.ltb_ge in Hrem.
      destruct (Query rest page _) as [[[res' t0'] log']|] eqn:Hrest; [|done].
      injection HQ as <- <- <-.
      destruct (IH _ _ _ _ _ Hrest) as [IHa IHb].
      split; intros t0 t1 rl' Hin Hq.
      * apply elem_of_cons in Hin as [Hin|Hin].
        -- injection Hin as ? ? ?; subst.
           split; [apply elem_of_cons; right; apply elem_of_cons; by left|].
           intros t' Hp.
           apply elem_of_cons in Hp as [Hp|Hp]; [done|].
           apply elem_of_cons in Hp as [Hp|Hp]; [done|].
           pose proof (Query_page_after_call _ _ _ _ _ _ Hrest _ Hp).
           pose proof (sleepUntil_ge (now + Z.of_nat (probe_latency pr))
                         (ResetAt rl - (now + Z.of_nat (probe_latency pr)))
                         (probe_oversleep pr)). lia.
        -- apply elem_of_cons in Hin as [Hin|Hin]; [done|].
           destruct (IHa _ _ _ Hin Hq) as [Hs Hp].
           split; [apply elem_of_cons; right; apply elem_of_cons; by right|].
           intros t' Ht'.
           apply elem_of_cons in Ht' as [Ht'|Ht']; [done|].
           apply elem_of_cons in Ht' as [Ht'|Ht']; [done|]. by apply Hp.
      * apply elem_of_cons in Hin as [Hin|Hin].
        -- injection Hin as ? ? ?; subst. lia.
        -- apply elem_of_cons in Hin as [Hin|Hin]; [done|].
           destruct (IHb _ _ _ Hin Hq) as [-> [before ->]]. split; [done|].
           by exists (QProbe now (now + Z.of_nat (probe_latency pr)) (inr rl)
                      :: QSleep (now + Z.of_nat (probe_latency pr))
                           (ResetAt rl - (now + Z.of_nat (probe_latency pr)))
                      :: before).
Qed.

(** With quota left at the first probe there is no sleep at all. *)
Lemma Query_quota_left pr rest page now rl :
  probe_result pr = inr rl -> 0 < Remaining rl ->
  Query (pr :: rest) page now
  = Some (snd page,
          now + Z.of_nat (probe_latency pr) + Z.of_nat (fst page),
          [QProbe now (now + Z.of_nat (probe_latency pr)) (inr rl);
           QPage (now + Z.of_nat (probe_latency pr))]).
Proof.
  intros Hres Hrem. cbn [Query]. rewrite Hres.
  apply Z.ltb_lt in Hrem. by rewrite Hrem.
Qed.

(** [Query] returns when the probes end in quota or in an error. *)
Lemma Query_returns probes : forall pr page now,
  Forall (fun pr' => exists rl, probe_result pr' = inr rl /\ Remaining rl <= 0) probes ->
  (forall rl, probe_result pr = inr rl -> 0 < Remaining rl) ->
  is_Some (Query (probes ++ [pr]) page now).
Proof.
  induction probes as [|pr0 rest IH]; intros pr page now Hall Hlast.
  - cbn [app Query]. destruct (probe_result pr) as [err|rl] eqn:Hres; [eauto|].
    specialize (Hlast rl eq_refl). apply Z.ltb_lt in Hlast. rewrite Hlast. eauto.
  - inversion Hall as [|? ? (rl & Hres & Hrem) Hrest]; subst.
    cbn [app Query]. rewrite Hres.
    apply Z.ltb_ge in Hrem. rewrite Hrem.
    destruct (IH pr page
                (sleepUntil (now + Z.of_nat (probe_latency pr0))
                   (ResetAt rl - (now + Z.of_nat (probe_latency pr0)))
                   (probe_oversleep pr0)) Hrest Hlast) as [[[res t] log] ->].
    eauto.
Qed.
End RateLimitFacts.


Lemma GetOrganizationPackages_all_or_nothing_witness :
  (forall lastPage later,
      HasNextPage lastPage = false ->
      exists packages,
        GetOrganizationPackages (map inr ([page1] ++ [lastPage]) ++ later)
        = Some (inl packages, None :: cursorsOf [page1]) /\
        packages = packagesOf ([page1] ++ [lastPage]) /\
        Forall2 isPackageNode (concat (map Nodes ([page1] ++ [lastPage])))
                packages) /\
  (forall err later,
      GetOrganizationPackages (map inr [page1] ++ inl err :: later)
      = Some (inr (Errorf ("failed to query packages: " ++ Error err)),
              None :: cursorsOf [page1])).
Proof.
  apply (GetOrganizationPackages_all_or_nothing [page1]).
  repeat constructor.
Defined.

(** The two pages of the example, fetched: three packages, the fields of
    the first written out. *)
Example GetOrganizationPackages_two_pages :
  GetOrganizationPackages [inr page1; inr page2]
  = Some (inl [mkPackage "ID-A" "pkgA" "npm"
                 (Some (mkRepository "repoA" "https://github.com/acme/repoA"))
                 (Some (mkStatistics 12))
                 [mkVersion "VA1" "1.0.0"
                    [mkFile "package.json" 310 "ab12"
                            "https://npm.pkg.example/a/1.0.0"]
                    "2024-01-01T00:00:00Z" "2024-01-02T00:00:00Z"];
               mkPackage "ID-B" "pkgB" "npm"
                 (Some (mkRepository "repoB" "https://github.com/acme/repoB"))
                 (Some (mkStatistics 0)) [];
               mkPackage "ID-C" "pkgC" "npm"
                 (Some (mkRepository "repoC" "https://github.com/acme/repoC"))
                 (Some (mkStatistics 3)) []],
          [None; Some "cursor-1"]).
Proof. reflexivity. Qed.

Example GetOrganizationPackages_error_on_second_page :
  GetOrganizationPackages [inr page1; inl (Errorf "502 Bad Gateway"); inr page2]
  = Some (inr (Errorf "failed to query packages: 502 Bad Gateway"),
          [None; Some "cursor-1"]).
Proof. reflexivity. Qed.


Example Query_scenarioE :
  Query probesE pageE 0 = Some (inr "page", 5158, logE).
Proof. reflexivity. Qed.

Lemma Query_waits_for_reset_witness :
  (forall t0 t1 rl,
      QProbe t0 t1 (inr rl) ∈ logE -> Remaining rl <= 0 ->
      QSleep t1 (ResetAt rl - t1) ∈ logE /\
      forall t', QPage t' ∈ logE -> ResetAt rl <= t') /\
  (forall t0 t1 rl,
      QProbe t0 t1 (inr rl) ∈ logE -> 0 < Remaining rl ->
      inr "page" = snd pageE /\
      exists before, logE = (before ++ [QProbe t0 t1 (inr rl); QPage t1])%list).
Proof.
  apply (Query_waits_for_reset probesE pageE 0 (inr "page") 5158 logE).
  reflexivity.
Defined.
End ApiFacts.


(** ** The retry loops *)

Module RetryFacts.
Import GoStrings api pkg sync.

Section RetryableUpload.
Context {W : Type}.
Variable m : UploadManager.
Variable fn : W -> option error * W.
Variable ctx : nat -> option error.

Local Abbreviation lastErrorOf := (api.lastErrorOf fn).
Local Abbreviation linearWaits := (api.linearWaits m).
Local Abbreviation exhausted := (api.exhausted m).


Lemma retryLoop_exhausts (n : nat) : forall attempt lastErr w,
  (forall k, (k < n)%nat -> fst (fn (worldAt fn k w)) <> None) ->
  (forall k, (k < n)%nat -> ctx (attempt + k) = None) ->
  exists log,
    retryLoop m fn ctx n attempt lastErr w
    = (Some (exhausted (lastErrorOf n lastErr w)), worldAt fn n w, log) /\
    attempts log = n /\ waits log = linearWaits attempt n.
Proof.
  induction n as [|n IH]; intros attempt lastErr w Hfail Hctx.
  - exists []. done.
  - cbn [retryLoop]. pose proof (Hfail 0%nat ltac:(lia)) as H0. simpl in H0.
    destruct (fn w) as [[err|] w'] eqn:Hfn; [|done].
    pose proof (Hctx 0%nat ltac:(lia)) as Hc. rewrite Nat.add_0_r in Hc.
    rewrite Hc.
    destruct (IH (S attempt) (Some err) w') as (log & Heq & Ha & Hw).
    { intros k Hk. specialize (Hfail (S k) ltac:(lia)). simpl in Hfail.
      by rewrite Hfn in Hfail. }
    { intros k Hk. specialize (Hctx (S k) ltac:(lia)).
      by rewrite Nat.add_succ_r in Hctx. }
    rewrite Heq.
    exists (RAttempt attempt (Some err)
            :: RWait (retryDelay m * Z.of_nat (attempt + 1)) :: log).
    split; [|split].
    + cbn [worldAt]. rewrite Hfn. simpl. do 3 f_equal.
      destruct n as [|n']; simpl; [by rewrite Hfn | by rewrite Hfn].
    + change (S (attempts log) = S n). by rewrite Ha.
    + change (retryDelay m * Z.of_nat (attempt + 1) :: waits log
              = retryDelay m * Z.of_nat (attempt + 1) :: linearWaits (S attempt) n).
      by rewrite Hw.
Qed.

(** A context that is done at a wait ends the loop there, with its error. *)
Lemma retryLoop_cancelled (n : nat) attempt lastErr w err cerr :
  fst (fn w) = Some err -> ctx attempt = Some cerr ->
  retryLoop m fn ctx (S n) attempt lastErr w
  = (Some cerr, snd (fn w),
     [RAttempt attempt (Some err);
      RCancelled (retryDelay m * Z.of_nat (attempt + 1))]).
Proof.
  intros Hfn Hc. cbn [retryLoop]. destruct (fn w) as [o w'].
  simpl in Hfn. subst o. by rewrite Hc.
Qed.
(** Failing attempts with the context done at the wait after the one
    numbered [k]: the loop ends at that wait. *)
Lemma retryLoop_cancels (k : nat) : forall n attempt lastErr w cerr,
  (k < n)%nat ->
  (forall j, (j <= k)%nat -> fst (fn (worldAt fn j w)) <> None) ->
  (forall j, (j < k)%nat -> ctx (attempt + j) = None) ->
  ctx (attempt + k) = Some cerr ->
  exists log,
    retryLoop m fn ctx n attempt lastErr w
    = (Some cerr, worldAt fn (S k) w, log) /\
    attempts log = S k /\ waits log = linearWaits attempt k /\
    last log = Some (RCancelled (retryDelay m * Z.of_nat (attempt + k + 1))).
Proof.
  induction k as [|k IH]; intros n attempt lastErr w cerr Hlt Hfail Hctx Hdone;
    (destruct n as [|n]; [lia|]); cbn [retryLoop];
    pose proof (Hfail 0%nat ltac:(lia)) as H0; simpl in H0;
    destruct (fn w) as [[err|] w1] eqn:Hfn; try done.
  - rewrite Nat.add_0_r in Hdone. rewrite Hdone. cbn [worldAt]. rewrite Hfn.
    eexists. split; [reflexivity|]. rewrite Nat.add_0_r. done.
  - assert (forall j, worldAt fn (S j) w = worldAt fn j w1) as Hw.
    { intros j. cbn [worldAt]. by rewrite Hfn. }
    pose proof (Hctx 0%nat ltac:(lia)) as Hc. rewrite Nat.add_0_r in Hc.
    rewrite Hc.
    destruct (IH n (S attempt) (Some err) w1 cerr) as (log & Heq & Ha & Hlog & Hl).
    + lia.
    + intros j Hj. specialize (Hfail (S j) ltac:(lia)). by rewrite Hw in Hfail.
    + intros j Hj. specialize (Hctx (S j) ltac:(lia)).
      by rewrite Nat.add_succ_r in Hctx.
    + by rewrite Nat.add_succ_r in Hdone.
    + rewrite Heq, (Hw (S k)). eexists. split; [reflexivity|]. split; [|split].
      * change (S (attempts log) = S (S k)). by rewrite Ha.
      * change (retryDelay m * Z.of_nat (attempt + 1) :: waits log
                = retryDelay m * Z.of_nat (attempt + 1)
                  :: linearWaits (S attempt) k).
        by rewrite Hlog.
      * destruct log as [|e log]; [done|].
        replace (attempt + S k + 1)%nat with (S attempt + k + 1)%nat by lia.
        exact Hl.
Qed.
End RetryableUpload.


Section DownloadLoop.
Variable maxRetries : nat.
Variable retryDelay : Z.
Variable mappings : gmap string string.
Variable p : Package.
Variable i : nat.
Variable v : Version.

Local Abbreviation grun := (sync.grun maxRetries retryDelay mappings p i v).
Local Abbreviation attemptEvents := (sync.attemptEvents retryDelay i v).


Lemma attemptEvents_counts errs : forall r tail,
  downloadsIn tail = 0%nat -> sleepsIn tail = [] ->
  downloadsIn (attemptEvents r errs ++ tail) = length errs /\
  sleepsIn (attemptEvents r errs ++ tail)
  = map (fun k => retryDelay * Z.of_nat (k + 1)) (seq r (length errs)).
Proof.
  induction errs as [|e errs IH]; intros r tail Hd Hs; [done|].
  destruct (IH (S r) tail Hd Hs) as [IHd IHs]. split.
  - change (S (downloadsIn (attemptEvents (S r) errs ++ tail)) = S (length errs)).
    by rewrite IHd.
  - change (retryDelay * Z.of_nat (r + 1)
            :: sleepsIn (attemptEvents (S r) errs ++ tail)
            = retryDelay * Z.of_nat (r + 1)
              :: map (fun k => retryDelay * Z.of_nat (k + 1)) (seq (S r) (length errs))).
    by rewrite IHs.
Qed.

Lemma grun_app cs1 : forall cs2 g tr1 g1,
  grun cs1 g = Some (tr1, g1) ->
  grun (cs1 ++ cs2) g
  = match grun cs2 g1 with
    | Some (tr2, g2) => Some ((tr1 ++ tr2)%list, g2)
    | None => None
    end.
Proof.
  induction cs1 as [|[cd ce] cs1 IH]; intros cs2 g tr1 g1 H; simpl in H.
  - injection H as <- <-. simpl. by destruct (grun cs2 g) as [[? ?]|].
  - cbn [app sync.grun].
    destruct (sync.gstep maxRetries retryDelay mappings p i v cd ce g)
      as [[evs g']|]; [|done].
    destruct (grun cs1 g') as [[evs' g'']|] eqn:Hrest; [|done].
    injection H as <- <-. rewrite (IH cs2 g' evs' g'' Hrest).
    destruct (grun cs2 g'') as [[tr2 g2]|]; [|done]. by rewrite app_assoc.
Qed.

(** Failing downloads keep the goroutine in the loop, one retry each. *)
Lemma grun_failing errs : forall r data err e errs',
  errs = (errs' ++ [e])%list ->
  (r + length errs <= maxRetries)%nat ->
  grun (failing errs) (GLoop r data err)
  = Some (attemptEvents r errs, GLoop (r + length errs) "" (Some e)).
Proof.
  induction errs as [|e0 errs IH]; intros r data err e errs' Heq Hlen.
  - by destruct errs'.
  - simpl in Hlen. cbn [failing map sync.grun sync.gstep].
    assert ((r <? maxRetries)%nat = true) as -> by (apply Nat.ltb_lt; lia).
    destruct errs as [|e1 errs1].
    + destruct errs' as [|? [|? ?]]; try done. injection Heq as ->.
      simpl. by rewrite Nat.add_1_r.
    + assert (exists errs'', (e1 :: errs1 = errs'' ++ [e])%list) as [errs'' Heq'].
      { destruct errs' as [|x errs']; [done|]. injection Heq as _ Heq. eauto. }
      fold (failing (e1 :: errs1)).
      rewrite (IH (S r) "" (Some e0) e errs'' Heq') by (simpl in *; lia).
      simpl. do 3 f_equal. lia.
Qed.
End DownloadLoop.

(** C6, as the code has it: an operation that fails at each of the [N]
    configured attempts is attempted exactly [N] times, the wait after the
    attempt numbered [k] (from 1) is [k] times the retry delay, and the
    error returned carries the error of the last attempt. For
    [retryableUpload] this holds when the context is not done during a
    wait. When the context is done during the wait after the attempt
    numbered [k + 1], and not before, [retryableUpload] stops at that
    wait: it has made [k + 1] attempts and waited out [k] delays, the
    cancelled wait is its last event and it returns the context's error.
    The download loop of [processConcurrently] takes no context. *)
Theorem retry_exhaustion_last_error {W : Type}
        (m : UploadManager) (fn : W -> option error * W) (w : W)
        (maxRetries' : nat) (retryDelay' : Z) (mappings : gmap string string)
        (p : Package) (i : nat) (v : Version)
        (errs : list error) (lastE : error) :
  (forall k, (k < maxRetries m)%nat -> fst (fn (worldAt fn k w)) <> None) ->
  length (errs ++ [lastE]) = maxRetries' ->
  (forall ctx : nat -> option error,
      (forall k, (k < maxRetries m)%nat -> ctx k = None) ->
      exists log,
        retryableUpload m fn ctx w
        = (Some (exhausted m (lastErrorOf fn (maxRetries m) None w)),
           worldAt fn (maxRetries m) w, log) /\
        attempts log = maxRetries m /\
        waits log = linearWaits m 0 (maxRetries m)) /\
  (forall (ctx : nat -> option error) (k : nat) (cerr : error),
      (k < maxRetries m)%nat ->
      (forall j, (j < k)%nat -> ctx j = None) ->
      ctx k = Some cerr ->
      exists log,
        retryableUpload m fn ctx w = (Some cerr, worldAt fn (S k) w, log) /\
        attempts log = S k /\
        waits log = linearWaits m 0 k /\
        last log = Some (RCancelled (retryDelay m * Z.of_nat (k + 1)))) /\
  (exists tr,
      sync.grun maxRetries' retryDelay' mappings p i v
                (failing (errs ++ [lastE]) ++ [("", None)]) (GLoop 0 "" None)
      = Some (tr, GDone (Some (downloadErr v lastE))) /\
      downloadsIn tr = maxRetries' /\
      sleepsIn tr
      = map (fun k => retryDelay' * Z.of_nat (k + 1)) (seq 0 maxRetries')).
Proof.
  intros Hfail Hlen. split; [|split].
  - intros ctx Hctx. unfold retryableUpload.
    apply (retryLoop_exhausts m fn ctx (maxRetries m) 0 None w Hfail).
    intros k Hk. by apply Hctx.
  - intros ctx k cerr Hk Hctx Hdone. unfold retryableUpload.
    apply (retryLoop_cancels m fn ctx k (maxRetries m) 0 None w cerr Hk).
    + intros j Hj. apply Hfail. lia.
    + intros j Hj. by apply Hctx.
    + exact Hdone.
  - pose proof (grun_failing maxRetries' retryDelay' mappings p i v
                  (errs ++ [lastE]) 0 "" None lastE errs eq_refl) as Hrun.
    rewrite Hlen in Hrun. specialize (Hrun ltac:(simpl; lia)). simpl in Hrun.
    rewrite (grun_app _ _ _ _ _ _ _ _ _ _ _ Hrun).
    cbn [sync.grun sync.gstep]. rewrite Nat.ltb_irrefl.
    eexists. split; [reflexivity|].
    rewrite app_nil_r, <- Hlen.
    by apply attemptEvents_counts.
Qed.


(** C6 fails for [retryableUpload] when the context is done during a wait:
    after three failed attempts out of three the error returned is the
    context's and not the last error of the operation; done at the first
    wait, one attempt is made and not three. *)
Lemma retry_exhaustion_counterexample :
  retryableUpload NewUploadManager alwaysFails doneAtThirdWait tt
  = (Some canceled, tt,
     [RAttempt 0 (Some unavailable); RWait 5000000000;
      RAttempt 1 (Some unavailable); RWait 10000000000;
      RAttempt 2 (Some unavailable); RCancelled 15000000000]) /\
  Some canceled <> Some (exhausted NewUploadManager (Some unavailable)) /\
  retryableUpload NewUploadManager alwaysFails doneAtFirstWait tt
  = (Some canceled, tt,
     [RAttempt 0 (Some unavailable); RCancelled 5000000000]).
Proof. vm_compute. repeat split; done. Qed.

Lemma retry_exhaustion_last_error_witness :
  (exists log,
      retryableUpload NewUploadManager alwaysFails neverDone tt
      = (Some (exhausted NewUploadManager
                 (lastErrorOf alwaysFails 3 None tt)),
         worldAt alwaysFails 3 tt, log) /\
      attempts log = 3%nat /\
      waits log = linearWaits NewUploadManager 0 3) /\
  (exists log,
      retryableUpload NewUploadManager alwaysFails doneAtThirdWait tt
      = (Some canceled, worldAt alwaysFails 3 tt, log) /\
      attempts log = 3%nat /\
      waits log = linearWaits NewUploadManager 0 2 /\
      last log = Some (RCancelled (retryDelay NewUploadManager * Z.of_nat (2 + 1)))) /\
  (exists log,
      retryableUpload NewUploadManager alwaysFails doneAtFirstWait tt
      = (Some canceled, worldAt alwaysFails 1 tt, log) /\
      attempts log = 1%nat /\
      waits log = linearWaits NewUploadManager 0 0 /\
      last log = Some (RCancelled (retryDelay NewUploadManager * Z.of_nat (0 + 1)))) /\
  (exists tr,
      sync.grun 3 5000000000 ∅ sync.img1 0 sync.v100
                (failing ([sync.netErr; sync.netErr] ++ [sync.netErr])
                 ++ [("", None)]) (GLoop 0 "" None)
      = Some (tr, GDone (Some (downloadErr sync.v100 sync.netErr))) /\
      downloadsIn tr = 3%nat /\
      sleepsIn tr = map (fun k => 5000000000 * Z.of_nat (k + 1)) (seq 0 3)).
Proof.
  destruct (retry_exhaustion_last_error NewUploadManager alwaysFails tt
              3 5000000000 ∅ sync.img1 0 sync.v100
              [sync.netErr; sync.netErr] sync.netErr) as (Hall & Hdone & Hloop).
  - intros k Hk. destruct k as [|[|[|k]]]; simpl; first [discriminate | lia].
  - reflexivity.
  - split; [|split; [|split]].
    + apply (Hall neverDone). reflexivity.
    + apply (Hdone doneAtThirdWait 2%nat canceled).
      * vm_compute. lia.
      * intros j Hj. destruct j as [|[|j]]; first [reflexivity | lia].
      * reflexivity.
    + apply (Hdone doneAtFirstWait 0%nat canceled).
      * vm_compute. lia.
      * intros j Hj. lia.
      * reflexivity.
    + exact Hloop.
Defined.

Example retryableUpload_exhausted :
  retryableUpload NewUploadManager alwaysFails neverDone tt
  = (Some (Errorf "upload failed after 3 attempts: 503 Service Unavailable"), tt,
     [RAttempt 0 (Some unavailable); RWait 5000000000;
      RAttempt 1 (Some unavailable); RWait 10000000000;
      RAttempt 2 (Some unavailable); RWait 15000000000]).
Proof. reflexivity. Qed.
End RetryFacts.


(** ** The container upload *)

Module ContainerFacts.
Import GoStrings api.


Lemma blobPuts_app l1 l2 : blobPuts (l1 ++ l2) = (blobPuts l1 ++ blobPuts l2)%list.
Proof. unfold blobPuts. apply omap_app. Qed.

Lemma manifestPuts_app l1 l2 :
  manifestPuts (l1 ++ l2) = (manifestPuts l1 ++ manifestPuts l2)%list.
Proof. unfold manifestPuts. apply omap_app. Qed.

(** *** A layer that the probe finds *)

Section AnyServer.
Context {S : Type}.
Variable server : request -> S -> response * S.
Variable fs : string -> option string.
Variable sha256hex : string -> string.
Variable jsonConfig : list string -> gmap string string -> string.
Variable jsonManifest : ContainerManifest -> string.

Lemma uploadContainerLayer_found baseURL file content s s' location log :
  fs file = Some content ->
  server (ReqHead (BlobURL baseURL (digestOf sha256hex content))) s
  = (Resp StatusOK location, s') ->
  uploadContainerLayer server fs sha256hex baseURL file (s, log)
  = (inl (digestOf sha256hex content),
     (s', (log ++ [ReqHead (BlobURL baseURL (digestOf sha256hex content))])%list)).
Proof.
  intros Hfs Hprobe. unfold uploadContainerLayer, checkExists, send.
  rewrite Hfs. simpl. rewrite Hprobe. done.
Qed.

(** The manifest upload only adds requests, and its first is the PUT. *)
Lemma manifest_put_appends url manifest (st : S * list request) :
  snd (snd (uploadContainerManifest server jsonManifest url manifest st))
  = (snd st ++ [ReqPut (ManifestURL url) mediaTypeManifest
                       (jsonManifest manifest)])%list.
Proof.
  unfold uploadContainerManifest, send.
  destruct (server _ (fst st)) as [[err|status location] s1]; simpl; [done|].
  by destruct (negb (status =? StatusCreated)%nat).
Qed.

Lemma retryLoop_manifest_grows m ctx url manifest (n : nat) :
  forall attempt lastErr (st : S * list request),
  exists more,
    snd (snd (fst (retryLoop m (uploadContainerManifest server jsonManifest url manifest)
                             ctx n attempt lastErr st)))
    = (snd st ++ more)%list /\
    ((0 < n)%nat ->
     exists more', more = ReqPut (ManifestURL url) mediaTypeManifest
                                 (jsonManifest manifest) :: more').
Proof.
  induction n as [|n IH]; intros attempt lastErr st.
  - exists []. simpl. rewrite app_nil_r. split; [done | lia].
  - cbn [retryLoop].
    pose proof (manifest_put_appends url manifest st) as Hput.
    destruct (uploadContainerManifest server jsonManifest url manifest st)
      as [[err|] st1] eqn:Hfn; simpl in Hput.
    + destruct (ctx attempt) as [cerr|].
      * eexists. simpl. split; [exact Hput | eauto].
      * destruct (IH (Datatypes.S attempt) (Some err) st1) as (more & Hmore & _).
        destruct (retryLoop m _ ctx n (Datatypes.S attempt) (Some err) st1)
          as [[res st2] log2]. simpl in *.
        eexists. split; [|eauto].
        rewrite Hmore, Hput, <- app_assoc. reflexivity.
    + eexists. simpl. split; [exact Hput | eauto].
Qed.

(** Once the layers are through without an error, the manifest is sent. *)
Lemma manifest_always_put m ctx opts (st st1 : S * list request) layers :
  (0 < maxRetries m)%nat ->
  validateContainerUpload opts = None ->
  uploadLayers server fs sha256hex (baseURLOf opts) (opts_Files opts) st
  = (layers, [], st1) ->
  exists more,
    snd (snd (fst (ContainerUpload server fs sha256hex jsonConfig jsonManifest
                                   m ctx opts st)))
    = (snd st1
       ++ ReqPut (ManifestURL (manifestURLOf opts)) mediaTypeManifest
            (jsonManifest (generateContainerManifest sha256hex jsonConfig layers opts))
       :: more)%list.
Proof.
  intros Hretries Hvalid Hlayers. unfold ContainerUpload. rewrite Hvalid.
  fold (baseURLOf opts). rewrite Hlayers. unfold retryableUpload.
  fold (manifestURLOf opts).
  destruct (retryLoop_manifest_grows m ctx (manifestURLOf opts)
              (generateContainerManifest sha256hex jsonConfig layers opts)
              (maxRetries m) 0 None st1) as (more & Hmore & Hfirst).
  destruct (Hfirst Hretries) as [more' ->]. eauto.
Qed.
End AnyServer.

(** *** Uploads to the registry *)

Section Registry.
Variable fs : string -> option string.
Variable sha256hex : string -> string.
Variable jsonConfig : list string -> gmap string string -> string.
Variable jsonManifest : ContainerManifest -> string.

Local Abbreviation uploadContainerLayer :=
  (api.uploadContainerLayer registryServer fs sha256hex).
Local Abbreviation uploadLayers := (api.uploadLayers registryServer fs sha256hex).
Local Abbreviation ContainerUpload :=
  (api.ContainerUpload registryServer fs sha256hex jsonConfig jsonManifest).
Local Abbreviation digestOf := (api.digestOf sha256hex).
Local Abbreviation layerDigests := (api.layerDigests fs sha256hex).
Local Abbreviation layersReadable := (api.layersReadable fs).
Local Abbreviation manifestBodyOf :=
  (api.manifestBodyOf fs sha256hex jsonConfig jsonManifest).



Lemma newLocation_nonempty n : String.eqb (newLocation n) "" = false.
Proof. reflexivity. Qed.

Lemma layer_on_registry baseURL file content r log :
  fs file = Some content ->
  exists r' delta,
    uploadContainerLayer baseURL file (r, log)
    = (inl (digestOf content), (r', (log ++ delta)%list)) /\
    blobs r' = {[ (baseURL, digestOf content) ]} ∪ blobs r /\
    manifests r' = manifests r /\
    manifestPuts delta = [] /\
    blobPuts delta = uploaded baseURL (blobs r) [digestOf content].
Proof.
  intros Hfs. unfold api.uploadContainerLayer, checkExists, send.
  rewrite Hfs. cbn [fst snd registryServer uploaded].
  destruct (bool_decide ((baseURL, digestOf content) ∈ blobs r)) eqn:Hin.
  - apply bool_decide_eq_true in Hin.
    exists r, [ReqHead (BlobURL baseURL (digestOf content))].
    repeat split; try done.
    symmetry. apply subseteq_union_1_L. by apply singleton_subseteq_l.
  - cbn [Nat.eqb StatusOK StatusAccepted StatusCreated negb fst snd registryServer].
    rewrite newLocation_nonempty. cbn [fst snd registryServer sessions].
    rewrite lookup_insert_eq. cbn [Nat.eqb negb].
    eexists _, [ReqHead (BlobURL baseURL (digestOf content));
                ReqPost (UploadsURL baseURL);
                ReqPut (SessionURL (newLocation (size (sessions r)))
                                   (digestOf content)) mediaTypeLayer content].
    rewrite <- !app_assoc. repeat split; done.
Qed.

Lemma uploaded_cons baseURL present d rest :
  uploaded baseURL present (d :: rest)
  = (uploaded baseURL present [d]
     ++ uploaded baseURL ({[ (baseURL, d) ]} ∪ present) rest)%list.
Proof.
  cbn [uploaded]. destruct (bool_decide ((baseURL, d) ∈ present)) eqn:Hin; [|done].
  apply bool_decide_eq_true in Hin. cbn [app].
  by rewrite (subseteq_union_1_L {[ (baseURL, d) ]} present)
    by (by apply singleton_subseteq_l).
Qed.

Lemma uploaded_elem baseURL digests : forall present d,
  d ∈ uploaded baseURL present digests ->
  ((baseURL, d) ∉ present) /\ (d ∈ digests).
Proof.
  induction digests as [|d0 rest IH]; intros present d Hin; cbn [uploaded] in Hin.
  - by apply elem_of_nil in Hin.
  - destruct (bool_decide ((baseURL, d0) ∈ present)) eqn:Hd0.
    + destruct (IH _ _ Hin) as [Hn Hr]. split; [done|].
      apply elem_of_cons. by right.
    + apply bool_decide_eq_false in Hd0.
      apply elem_of_cons in Hin as [->|Hin].
      * split; [done|]. apply elem_of_cons. by left.
      * destruct (IH _ _ Hin) as [Hn Hr]. split.
        -- intros Hp. apply Hn. apply elem_of_union. by right.
        -- apply elem_of_cons. by right.
Qed.

Lemma uploaded_complete baseURL digests : forall present d,
  d ∈ digests -> (baseURL, d) ∉ present ->
  d ∈ uploaded baseURL present digests.
Proof.
  induction digests as [|d0 rest IH]; intros present d Hin Hn.
  - by apply elem_of_nil in Hin.
  - cbn [uploaded]. destruct (bool_decide ((baseURL, d0) ∈ present)) eqn:Hd0.
    + apply bool_decide_eq_true in Hd0.
      apply elem_of_cons in Hin as [->|Hin]; [done|]. by apply IH.
    + apply elem_of_cons in Hin as [->|Hin]; [apply elem_of_cons; by left|].
      destruct (decide (d = d0)) as [->|Hne]; [apply elem_of_cons; by left|].
      apply elem_of_cons. right. apply IH; [done|].
      intros Hp. apply elem_of_union in Hp as [Hp|Hp]; [|done].
      apply elem_of_singleton in Hp. congruence.
Qed.

Lemma uploaded_NoDup baseURL digests : forall present,
  NoDup (uploaded baseURL present digests).
Proof.
  induction digests as [|d0 rest IH]; intros present; cbn [uploaded].
  - constructor.
  - destruct (bool_decide ((baseURL, d0) ∈ present)); [apply IH|].
    constructor; [|apply IH].
    intros Hin. apply uploaded_elem in Hin as [Hn _].
    apply Hn. apply elem_of_union. left. by apply elem_of_singleton.
Qed.

Lemma withBlobs_cons baseURL d rest present :
  withBlobs baseURL rest ({[ (baseURL, d) ]} ∪ present)
  = withBlobs baseURL (d :: rest) present.
Proof.
  unfold withBlobs. cbn [fmap list_fmap list_to_set].
  rewrite (assoc_L (∪)).
  by rewrite (comm_L (∪) (list_to_set ((fun d0 => (baseURL, d0)) <$> rest))
                {[ (baseURL, d) ]}).
Qed.

Lemma layers_on_registry baseURL files : forall r log,
  layersReadable files ->
  exists r' delta,
    uploadLayers baseURL files (r, log)
    = (layerDigests files, [], (r', (log ++ delta)%list)) /\
    blobs r' = withBlobs baseURL (layerDigests files) (blobs r) /\
    manifests r' = manifests r /\
    manifestPuts delta = [] /\
    blobPuts delta = uploaded baseURL (blobs r) (layerDigests files).
Proof.
  induction files as [|file rest IH]; intros r log Hread.
  - exists r, []. rewrite app_nil_r. repeat split; try done.
    unfold withBlobs. simpl. by rewrite (left_id_L ∅ (∪)).
  - inversion Hread as [|? ? Hfile Hrest]; subst.
    cbn [api.uploadLayers]. unfold layerDigests. cbn [omap list_omap].
    destruct (isContainerLayer file) eqn:Hlayer.
    + destruct (Hfile eq_refl) as [content Hfs].
      destruct (layer_on_registry baseURL file content r log Hfs)
        as (r1 & delta1 & Heq1 & Hb1 & Hm1 & Hmp1 & Hbp1).
      destruct (IH r1 (log ++ delta1)%list Hrest)
        as (r2 & delta2 & Heq2 & Hb2 & Hm2 & Hmp2 & Hbp2).
      rewrite Heq1, Heq2, Hfs. cbn [fmap option_fmap option_map].
      exists r2, (delta1 ++ delta2)%list. rewrite app_assoc.
      split; [done|]. split; [|split; [congruence|split]].
      * rewrite Hb2, Hb1. apply withBlobs_cons.
      * by rewrite manifestPuts_app, Hmp1, Hmp2.
      * rewrite blobPuts_app, Hbp1, Hbp2, Hb1.
        symmetry. apply uploaded_cons.
    + by apply IH.
Qed.


Lemma upload_on_registry m ctx opts r log :
  (0 < maxRetries m)%nat ->
  validateContainerUpload opts = None ->
  layersReadable (opts_Files opts) ->
  exists r' delta,
    ContainerUpload m ctx opts (r, log)
    = (None, (r', (log ++ delta)%list), [RAttempt 0 None]) /\
    blobs r' = withBlobs (baseURLOf opts) (layerDigests (opts_Files opts)) (blobs r) /\
    manifests r' = (manifests r ++ [(manifestURLOf opts, manifestBodyOf opts)])%list /\
    manifestPuts delta = [manifestURLOf opts] /\
    blobPuts delta
    = uploaded (baseURLOf opts) (blobs r) (layerDigests (opts_Files opts)).
Proof.
  intros Hretries Hvalid Hread. unfold api.ContainerUpload. rewrite Hvalid.
  destruct (layers_on_registry (baseURLOf opts) (opts_Files opts) r log Hread)
    as (r1 & delta1 & Heq1 & Hb1 & Hm1 & Hmp1 & Hbp1).
  fold (baseURLOf opts). rewrite Heq1.
  unfold retryableUpload. destruct (maxRetries m) as [|n]; [lia|].
  cbn [retryLoop]. unfold uploadContainerManifest, send.
  cbn [fst snd registryServer Nat.eqb StatusCreated negb].
  eexists _, (delta1 ++ [ReqPut (ManifestURL (manifestURLOf opts))
                                mediaTypeManifest (manifestBodyOf opts)])%list.
  rewrite app_assoc. split; [reflexivity|]. cbn [blobs manifests].
  split; [done|]. split; [by rewrite Hm1|]. split.
  - by rewrite manifestPuts_app, Hmp1.
  - by rewrite blobPuts_app, Hbp1, app_nil_r.
Qed.

End Registry.



Example scenarioD_first_upload :
  logD1
  = [ReqHead (BlobURL "acme/img" "sha256:BASE-LAYER");
     ReqPost (UploadsURL "acme/img");
     ReqPut (SessionURL "/v2/uploads/0?s=1" "sha256:BASE-LAYER")
            mediaTypeLayer "BASE-LAYER";
     ReqHead (BlobURL "acme/img" "sha256:APP-1");
     ReqPost (UploadsURL "acme/img");
     ReqPut (SessionURL "/v2/uploads/1?s=1" "sha256:APP-1") mediaTypeLayer "APP-1";
     ReqPut (ManifestURL "acme/img/manifests/1.0") mediaTypeManifest
            "sha256:BASE-LAYER,sha256:APP-1"].
Proof. vm_compute. reflexivity. Qed.

Example scenarioD_second_upload :
  logD2
  = [ReqHead (BlobURL "acme/img" "sha256:BASE-LAYER");
     ReqHead (BlobURL "acme/img" "sha256:APP-2");
     ReqPost (UploadsURL "acme/img");
     ReqPut (SessionURL "/v2/uploads/2?s=1" "sha256:APP-2") mediaTypeLayer "APP-2";
     ReqPut (ManifestURL "acme/img/manifests/2.0") mediaTypeManifest
            "sha256:BASE-LAYER,sha256:APP-2"].
Proof. vm_compute. reflexivity. Qed.

End ContainerFacts.


(** ** The validators *)

Module PkgFacts.
Import GoStrings pkg.

Lemma Split_length s c : length (Split s c) = S (countChar c s).
Proof.
  induction s as [|a s IH]; [done|]. cbn [Split countChar].
  destruct (Ascii.eqb a c); [simpl; by rewrite IH|].
  destruct (Split s c) as [|h t]; simpl in *; lia.
Qed.

Lemma prefix_char c s :
  String.prefix (String c EmptyString) s
  = match s with
    | EmptyString => false
    | String a _ => Ascii.eqb a c
    end.
Proof.
  destruct s as [|a s]; [done|]. cbn [String.prefix].
  destruct (ascii_dec c a) as [->|Hne].
  - rewrite Ascii.eqb_refl. by destruct s.
  - symmetry. apply Ascii.eqb_neq. congruence.
Qed.

Lemma Contains_char s c :
  Contains s (String c EmptyString) = negb (Nat.eqb (countChar c s) 0).
Proof.
  induction s as [|a s IH]; [done|]. cbn [Contains countChar].
  rewrite prefix_char. destruct (Ascii.eqb a c); [done|]. by rewrite IH.
Qed.

(** X: the Maven validator accepts exactly the names with one colon and the
    container validator exactly those with none, so no name is accepted by
    both. *)
Theorem maven_and_container_names (p : Package) :
  (MavenValidator_ValidatePackage p = None
   <-> countChar ":"%char (pkg_Name p) = 1%nat) /\
  (ContainerValidator_ValidatePackage p = None
   <-> countChar ":"%char (pkg_Name p) = 0%nat) /\
  ~ (MavenValidator_ValidatePackage p = None /\
     ContainerValidator_ValidatePackage p = None).
Proof.
  assert (MavenValidator_ValidatePackage p = None
          <-> countChar ":"%char (pkg_Name p) = 1%nat) as Hm.
  { unfold MavenValidator_ValidatePackage. cbv zeta. rewrite Split_length.
    destruct (countChar ":"%char (pkg_Name p)) as [|[|n]]; simpl; split;
      first [done | lia]. }
  assert (ContainerValidator_ValidatePackage p = None
          <-> countChar ":"%char (pkg_Name p) = 0%nat) as Hc.
  { unfold ContainerValidator_ValidatePackage.
    change ":" with (String ":"%char EmptyString). rewrite Contains_char.
    destruct (countChar ":"%char (pkg_Name p)); simpl; split; first [done | lia]. }
  split; [done|]. split; [done|].
  intros [H1 H2]. apply Hm in H1. apply Hc in H2. lia.
Qed.

Lemma ContainsAny_more s c chars :
  ContainsAny s (String c chars) = false -> ContainsAny s chars = false.
Proof.
  unfold ContainsAny. cbn [list_ascii_of_string].
  induction (list_ascii_of_string s) as [|a l IH]; [done|]. cbn [existsb].
  intros H. apply orb_false_iff in H as [Ha Hl].
  apply orb_false_iff in Ha as [_ Ha]. rewrite Ha. by apply IH.
Qed.

Lemma ContainsAny_space s chars :
  ContainsAny s (String " "%char chars) = false -> countChar " "%char s = 0%nat.
Proof.
  unfold ContainsAny. cbn [list_ascii_of_string].
  induction s as [|a s IH]; [done|]. cbn [list_ascii_of_string existsb countChar].
  intros H. apply orb_false_iff in H as [Ha Hl].
  apply orb_false_iff in Ha as [Ha _]. rewrite Ha. by rewrite IH.
Qed.

(** X: every name the RubyGems validator accepts is accepted by the NuGet
    validator, has no space and is unchanged by [ToLower]. *)
Theorem rubygems_names_are_nuget_names (p : Package) :
  RubyGemsValidator_ValidatePackage p = None ->
  NuGetValidator_ValidatePackage p = None /\
  countChar " "%char (pkg_Name p) = 0%nat /\
  ToLower (pkg_Name p) = pkg_Name p.
Proof.
  unfold RubyGemsValidator_ValidatePackage, NuGetValidator_ValidatePackage.
  destruct (ContainsAny (pkg_Name p) (String " "%char specialChars)) eqn:Hany;
    [done|].
  destruct (String.eqb (ToLower (pkg_Name p)) (pkg_Name p)) eqn:Hlow; [|done].
  intros _. rewrite (ContainsAny_more _ _ _ Hany).
  split; [done|]. split; [by apply (ContainsAny_space _ specialChars)|].
  by apply String.eqb_eq.
Qed.


Lemma rubygems_names_are_nuget_names_witness :
  let p := mkPackage "G1" "rails-html_sanitizer" "rubygems" "public"
             (mkOwner "acme" "Organization") [] None None in
  NuGetValidator_ValidatePackage p = None /\
  countChar " "%char (pkg_Name p) = 0%nat /\
  ToLower (pkg_Name p) = pkg_Name p.
Proof.
  apply (rubygems_names_are_nuget_names
           (mkPackage "G1" "rails-html_sanitizer" "rubygems" "public"
              (mkOwner "acme" "Organization") [] None None)).
  vm_compute. reflexivity.
Defined.

(** The five package types. *)
Lemma GetValidator_supported pkgType :
  (exists validator, GetValidator pkgType = inl validator) <->
  pkgType ∈ [PackageTypeContainer; PackageTypeNpm; PackageTypeMaven;
             PackageTypeNuGet; PackageTypeRubyGems].
Proof.
  unfold GetValidator. split.
  - intros [validator H].
    repeat (apply elem_of_cons;
            match type of H with
            | context [String.eqb pkgType ?t] =>
                destruct (String.eqb pkgType t) eqn:?;
                [left; by apply String.eqb_eq|right]
            end).
    done.
  - intros H. repeat (apply elem_of_cons in H as [->|H]; [simpl; eauto|]).
    by apply elem_of_nil in H.
Qed.

(** X: a package whose type is not one of the five strings fails
    validation with the unsupported-type error, whatever its name and
    versions; the type is compared as it is, so another case is another
    type. *)
Theorem unsupported_type_fails_validation (p : Package) :
  pkg_PackageType p ∉ [PackageTypeContainer; PackageTypeNpm; PackageTypeMaven;
                       PackageTypeNuGet; PackageTypeRubyGems] ->
  ValidatePackage p
  = Some (Errorf ("unsupported package type: " ++ pkg_PackageType p)).
Proof.
  intros Hnot. unfold ValidatePackage.
  destruct (GetValidator (pkg_PackageType p)) as [validator|err] eqn:Hg.
  - exfalso. apply Hnot. apply GetValidator_supported. eauto.
  - unfold GetValidator in Hg.
    repeat match type of Hg with
           | context [String.eqb ?a ?t] => destruct (String.eqb a t); [done|]
           end.
    by injection Hg as <-.
Qed.

Lemma unsupported_type_fails_validation_witness :
  ValidatePackage (mkPackage "P" "@acme/widget" "NPM" "public"
                     (mkOwner "acme" "Organization") [] None None)
  = Some (Errorf ("unsupported package type: " ++ "NPM")).
Proof.
  apply (unsupported_type_fails_validation
           (mkPackage "P" "@acme/widget" "NPM" "public"
              (mkOwner "acme" "Organization") [] None None)).
  vm_compute. intros H.
  repeat (apply elem_of_cons in H as [H|H]; [discriminate H|]).
  by apply elem_of_nil in H.
Defined.

Lemma firstFileError_None cond err files :
  firstFileError cond err files = None <-> Forall (fun f => cond f = false) files.
Proof.
  induction files as [|f files IH]; simpl.
  - split; [constructor | done].
  - destruct (cond f) eqn:Hf.
    + split; [done|]. intros H. inversion H; congruence.
    + rewrite IH. split; [by constructor | intros H; by inversion H].
Qed.

Lemma firstFileError_Some cond err files e :
  firstFileError cond err files = Some e ->
  exists before f after,
    files = (before ++ f :: after)%list /\
    Forall (fun f' => cond f' = false) before /\ cond f = true /\ e = err f.
Proof.
  induction files as [|f files IH]; simpl; [done|].
  destruct (cond f) eqn:Hf.
  - intros [= <-]. exists [], f, files. repeat split; [constructor | done].
  - intros H. destruct (IH H) as (before & f' & after & -> & Hb & Hc & He).
    exists (f :: before), f', after. repeat split; [by constructor | done | done].
Qed.

(** X: the container validator accepts a version exactly when no file is
    larger than its own [GetMaxFileSize] (10 GiB); when it refuses, the
    error names the first file that is. *)
Theorem container_version_within_max_file_size (ver : Version) :
  (ContainerValidator_ValidateVersion ver = None <->
   Forall (fun f => file_Size f <= V_GetMaxFileSize ContainerValidator)
          (ver_Files ver)) /\
  (forall e,
      ContainerValidator_ValidateVersion ver = Some e ->
      exists before f after,
        ver_Files ver = (before ++ f :: after)%list /\
        Forall (fun f' => file_Size f' <= V_GetMaxFileSize ContainerValidator)
               before /\
        V_GetMaxFileSize ContainerValidator < file_Size f /\
        e = ValidationError "" "container"
              ("file " ++ file_Name f ++ " exceeds 10GB layer limit")).
Proof.
  unfold ContainerValidator_ValidateVersion. split.
  - rewrite firstFileError_None. apply Forall_iff. intros f.
    cbn [V_GetMaxFileSize ContainerValidator]. rewrite Z.ltb_ge. done.
  - intros e He. apply firstFileError_Some in He
      as (before & f & after & Hfiles & Hb & Hf & ->).
    exists before, f, after. repeat split; try done.
    + eapply Forall_impl; [exact Hb|]. intros f' Hf'.
      cbn [V_GetMaxFileSize ContainerValidator]. by apply Z.ltb_ge.
    + cbn [V_GetMaxFileSize ContainerValidator]. by apply Z.ltb_lt.
Qed.

Lemma hasFile_true cond files :
  hasFile cond files = true <-> exists f, f ∈ files /\ cond f = true.
Proof.
  unfold hasFile. rewrite existsb_exists. split.
  - intros (f & Hin & Hc). exists f. split; [by apply list_elem_of_In | done].
  - intros (f & Hin & Hc). exists f. split; [by apply list_elem_of_In | done].
Qed.

(** X: the RubyGems validator accepts a version exactly when it has a file
    whose name ends in [.gem], a file whose name ends in [.gemspec], and no
    file whose name ends in [metadata.gz] is larger than 2 MiB. *)
Theorem rubygems_version_rule (ver : Version) :
  RubyGemsValidator_ValidateVersion ver = None <->
  (exists f, f ∈ ver_Files ver /\ HasSuffix (file_Name f) ".gem" = true) /\
  (exists f, f ∈ ver_Files ver /\ HasSuffix (file_Name f) ".gemspec" = true) /\
  Forall (fun f => HasSuffix (file_Name f) "metadata.gz" = true ->
                   file_Size f <= 2 * 1024 * 1024) (ver_Files ver).
Proof.
  unfold RubyGemsValidator_ValidateVersion. cbv zeta.
  rewrite <- !hasFile_true.
  destruct (hasFile (fun file => HasSuffix (file_Name file) ".gem") (ver_Files ver));
    simpl; [|split; [done | intros [? _]; done]].
  destruct (hasFile (fun file => HasSuffix (file_Name file) ".gemspec")
                    (ver_Files ver));
    simpl; [|split; [done | intros (_ & ? & _); done]].
  rewrite firstFileError_None. split.
  - intros H. split; [done|]. split; [done|].
    eapply Forall_impl; [exact H|]. intros f Hf Hs. simpl in Hf.
    rewrite Hs in Hf. simpl in Hf. by apply Z.ltb_ge.
  - intros (_ & _ & H). eapply Forall_impl; [exact H|]. intros f Hf. simpl.
    destruct (HasSuffix (file_Name f) "metadata.gz") eqn:Hs; [|done].
    cbn [andb]. apply Z.ltb_ge. simpl in Hf. by apply Hf.
Qed.

(** X: a package of type npm, maven, nuget or rubygems with a version that
    has no file fails validation, whatever its name; the container
    validator accepts such a version. *)
Theorem version_without_files (p : Package) (v : Version) :
  pkg_PackageType p ∈ [PackageTypeNpm; PackageTypeMaven; PackageTypeNuGet;
                       PackageTypeRubyGems] ->
  v ∈ pkg_Versions p -> ver_Files v = [] ->
  ValidatePackage p <> None /\ ContainerValidator_ValidateVersion v = None.
Proof.
  intros Hty Hv Hfiles. split.
  - unfold ValidatePackage.
    assert (exists validator,
               GetValidator (pkg_PackageType p) = inl validator /\
               V_ValidateVersion validator v <> None) as (validator & -> & Hbad).
    { repeat (apply elem_of_cons in Hty as [->|Hty];
              [eexists; split; [reflexivity|]; simpl;
               cbv [NpmValidator_ValidateVersion MavenValidator_ValidateVersion
                    NuGetValidator_ValidateVersion
                    RubyGemsValidator_ValidateVersion];
               rewrite Hfiles; done|]).
      by apply elem_of_nil in Hty. }
    destruct (V_ValidatePackage validator p); [done|].
    intros Hnone. apply SyncFacts.validateVersions_None in Hnone.
    rewrite Forall_forall in Hnone. by apply Hbad, Hnone.
  - unfold ContainerValidator_ValidateVersion. by rewrite Hfiles.
Qed.

Lemma version_without_files_witness :
  let v := mkVersion "V" "1.0.0" ∅ [] "" "" in
  let p := mkPackage "P" "org.acme:lib" "maven" "public"
             (mkOwner "acme" "Organization") [v] None None in
  ValidatePackage p <> None /\ ContainerValidator_ValidateVersion v = None.
Proof.
  apply (version_without_files
           (mkPackage "P" "org.acme:lib" "maven" "public"
              (mkOwner "acme" "Organization")
              [mkVersion "V" "1.0.0" ∅ [] "" ""] None None)
           (mkVersion "V" "1.0.0" ∅ [] "" "")).
  - apply elem_of_cons. right. apply elem_of_cons. by left.
  - apply elem_of_cons. by left.
  - reflexivity.
Defined.
End PkgFacts.


(** ** The mapping table, row by row *)

Module MappingFacts.
Import GoStrings pkg sync.

Lemma foldl_addRecord_other (name : string) (rows : list (list string)) :
  forall m : gmap string string,
    Forall (fun r => (length r < 2)%nat \/ head r <> Some name) rows ->
    foldl addRecord m rows !! name = m !! name.
Proof.
  induction rows as [|r rows IH]; intros m Hall; [done|].
  inversion Hall as [|? ? Hr Hrest]; subst. cbn [foldl].
  rewrite (IH _ Hrest).
  destruct r as [|r0 [|r1 more]]; simpl in *; try done.
  destruct Hr as [Hr|Hr]; [lia|].
  apply lookup_insert_ne. congruence.
Qed.

Lemma readRecords_rows (n : nat) (input : list GoCsv.record) :
  Forall (fun r => length (GoCsv.fields r) = n) input ->
  GoCsv.readRecords n input = inr (map GoCsv.fields input).
Proof.
  induction input as [|r input IH]; intros Hall; [done|].
  inversion Hall as [|? ? Hr Hrest]; subst. cbn [GoCsv.readRecords map].
  rewrite Nat.eqb_refl. cbn [negb]. by rewrite (IH Hrest).
Qed.

(** X: in a mapping file that the CSV reader accepts, every row having as
    many columns as the header, a row of two columns or more maps its
    first column to its second, further columns being ignored; when
    several rows have the same first column the last of them wins; a name
    that no row starts with, the header's first column included, resolves
    as it did before the load, and so does every name when the file has
    one column. *)
Theorem LoadMappings_last_row_wins (fs : string -> csvFile)
        (mappings : gmap string string) (mappingFile : string)
        (header : GoCsv.record) (rows : list GoCsv.record) :
  mappingFile <> "" ->
  fs mappingFile = Content (header :: rows) ->
  Forall (fun r => length (GoCsv.fields r) = length (GoCsv.fields header)) rows ->
  exists m,
    LoadMappings fs mappings mappingFile = Ok m /\
    (forall (before : list GoCsv.record) line source target more after,
        rows = (before ++ GoCsv.mkRecord line source (target :: more) :: after)%list ->
        Forall (fun r => GoCsv.rec_first r <> source) after ->
        getTargetPackageName m source = target) /\
    (forall name,
        Forall (fun r => GoCsv.rec_first r <> name) rows ->
        getTargetPackageName m name = getTargetPackageName mappings name) /\
    ((length (GoCsv.fields header) < 2)%nat -> m = mappings).
Proof.
  intros Hne Hfs Hall. unfold LoadMappings.
  destruct (String.eqb mappingFile "") eqn:Heq.
  { apply String.eqb_eq in Heq. done. }
  rewrite Hfs. unfold GoCsv.ReadAll.
  rewrite (readRecords_rows _ (header :: rows)) by by constructor.
  cbn [map]. eexists. split; [reflexivity|]. split; [|split].
  - intros before line source target more after -> Hafter.
    unfold getTargetPackageName.
    rewrite map_app, foldl_app. cbn [map foldl addRecord GoCsv.fields
      GoCsv.rec_first GoCsv.rec_more].
    rewrite foldl_addRecord_other.
    + by rewrite lookup_insert_eq.
    + apply Forall_map. apply (Forall_impl _ _ _ Hafter).
      intros r Hr. right. simpl. congruence.
  - intros name Hother. unfold getTargetPackageName.
    rewrite foldl_addRecord_other; [done|].
    apply Forall_map. apply (Forall_impl _ _ _ Hother).
    intros r Hr. right. simpl. congruence.
  - intros Hshort. clear Hfs.
    assert (Forall (fun r => (length r < 2)%nat) (map GoCsv.fields rows)) as Hs.
    { apply Forall_map. apply (Forall_impl _ _ _ Hall). intros r Hr.
      by rewrite Hr. }
    clear Hall. revert mappings.
    induction Hs as [|r rs Hr Hrs IH]; intros mappings; [done|].
    cbn [foldl]. destruct r as [|r0 [|r1 more]]; simpl in Hr; try lia; apply IH.
Qed.

(** In the file of three columns, [pkgA] is mapped twice: it resolves to
    the target of the last row, the third column plays no part, and the
    header's first column is no key of the table. *)
Lemma LoadMappings_last_row_wins_witness :
  exists m,
    LoadMappings mappingFiles ∅ "map.csv" = Ok m /\
    getTargetPackageName m "pkgA" = "pkgA3" /\
    getTargetPackageName m "pkgB" = "pkgB2" /\
    getTargetPackageName m "source" = "source".
Proof.
  destruct (LoadMappings_last_row_wins mappingFiles ∅ "map.csv"
              (GoCsv.mkRecord 1 "source" ["target"; "note"])
              [GoCsv.mkRecord 2 "pkgA" ["pkgA2"; "first name"];
               GoCsv.mkRecord 3 "pkgB" ["pkgB2"; ""];
               GoCsv.mkRecord 4 "pkgA" ["pkgA3"; "renamed again"]])
    as (m & Hm & Hrow & Hother & _).
  - intros H. discriminate H.
  - reflexivity.
  - by repeat constructor.
  - exists m. split; [exact Hm|]. split; [|split].
    + apply (Hrow [GoCsv.mkRecord 2 "pkgA" ["pkgA2"; "first name"];
                   GoCsv.mkRecord 3 "pkgB" ["pkgB2"; ""]]
                  4%nat "pkgA" "pkgA3" ["renamed again"] []).
      * reflexivity.
      * constructor.
    + apply (Hrow [GoCsv.mkRecord 2 "pkgA" ["pkgA2"; "first name"]]
                  3%nat "pkgB" "pkgB2" [""]
                  [GoCsv.mkRecord 4 "pkgA" ["pkgA3"; "renamed again"]]).
      * reflexivity.
      * constructor; [discriminate|constructor].
    + rewrite (Hother "source"); [reflexivity|].
      repeat (constructor; [discriminate|]). constructor.
Defined.
End MappingFacts.


(** ** The reporter and the reports of processConcurrently *)

Module ReportFacts.
Import GoStrings pkg sync.

Lemma sum_list_with_ext {A : Type} (f g : A -> nat) (l : list A) :
  (forall k x, l !! k = Some x -> f x = g x) ->
  sum_list_with f l = sum_list_with g l.
Proof.
  induction l as [|a l IH]; intros H; [done|]. simpl.
  rewrite (H 0%nat a eq_refl), IH; [done|].
  intros k x Hk. apply (H (S k) x Hk).
Qed.

Lemma sum_list_with_fst {A B : Type} (h : A -> nat) (l : list (A * B)) :
  sum_list_with (fun ab => h (fst ab)) l = sum_list_with h (l.*1).
Proof. induction l as [|a l IH]; simpl; [done | by rewrite IH]. Qed.

Lemma length_filter_sum {A : Type} (f : A -> bool) (l : list A) :
  length (List.filter f l) = sum_list_with (fun x => if f x then 1 else 0)%nat l.
Proof.
  induction l as [|a l IH]; simpl; [done|].
  destruct (f a); simpl; by rewrite IH.
Qed.

Lemma tally_app f rs1 rs2 : tally f (rs1 ++ rs2) = (tally f rs1 + tally f rs2)%nat.
Proof. unfold tally. apply sum_list_with_app. Qed.

Lemma resultsOf_app tr1 tr2 :
  resultsOf (tr1 ++ tr2) = (resultsOf tr1 ++ resultsOf tr2)%list.
Proof. unfold resultsOf. apply omap_app. Qed.

Lemma resultsOf_PEv k evs : resultsOf (map (PEv k) evs) = sends evs.
Proof.
  induction evs as [|e evs IH]; [done|].
  destruct e; simpl;
    first [exact IH
          | change (r :: resultsOf (map (PEv k) evs) = r :: sends evs);
            by rewrite IH].
Qed.

Section Summary.
Variables Green Red Yellow : string -> string.

Local Abbreviation reportRow := (sync.reportRow Green Red Yellow).
Local Abbreviation reportValidation := (sync.reportValidation Green Red Yellow).

(** What the loop of the reporter adds to its counters and its table. *)
Lemma foldl_reportRow rs : forall acc,
  successCount (foldl reportRow acc rs)
  = (successCount acc + tally (hasStatus "Success") rs)%nat /\
  failureCount (foldl reportRow acc rs)
  = (failureCount acc + tally (hasStatus "Failed") rs)%nat /\
  partialCount (foldl reportRow acc rs)
  = (partialCount acc + tally (hasStatus "Partial Success") rs)%nat /\
  length (table (foldl reportRow acc rs)) = (length (table acc) + length rs)%nat.
Proof.
  induction rs as [|r rs IH]; intros acc.
  - simpl. unfold tally. simpl. lia.
  - cbn [foldl]. destruct (IH (reportRow acc r)) as (Hs & Hf & Hp & Ht).
    rewrite Hs, Hf, Hp, Ht. unfold tally, hasStatus. cbn [sum_list_with length].
    unfold sync.reportRow.
    destruct (String.eqb (Status r) "Success") eqn:E1.
    { apply String.eqb_eq in E1. rewrite E1. simpl. rewrite length_app. simpl.
      lia. }
    destruct (String.eqb (Status r) "Failed") eqn:E2.
    { apply String.eqb_eq in E2. rewrite E2. simpl. rewrite length_app. simpl.
      lia. }
    destruct (String.eqb (Status r) "Partial Success") eqn:E3.
    { simpl. rewrite length_app. simpl. lia. }
    simpl. rewrite length_app. simpl. lia.
Qed.
End Summary.

Section Pool.
Variable maxRetries : nat.
Variable retryDelay : Z.
Variable mappings : gmap string string.
Variable packages : list Package.

Local Abbreviation wstep := (sync.wstep maxRetries retryDelay mappings).
Local Abbreviation pstep := (sync.pstep maxRetries retryDelay mappings packages).
Local Abbreviation prun := (sync.prun maxRetries retryDelay mappings packages).
Local Abbreviation PInv := (sync.PInv maxRetries retryDelay mappings packages).

(** A step of a worker adds to [w_sent] the reports it sends. *)
Lemma wstep_sent p c s evs s' :
  wstep p c s = Some (evs, s') -> w_sent s' = (w_sent s ++ sends evs)%list.
Proof.
  destruct c as [|i cd ce]; cbn [sync.wstep].
  - destruct (w_pc s) as [|[|v rest]| | |].
    + destruct (ValidatePackage p); intros [= <- <-]; simpl;
        [done | by rewrite app_nil_r].
    + intros [= <- <-]. simpl. by rewrite app_nil_r.
    + intros [= <- <-]. simpl. by rewrite app_nil_r.
    + destruct (w_wg s =? 0)%nat; [|done]. intros [= <- <-]. simpl.
      by rewrite app_nil_r.
    + intros [= <- <-]. done.
    + done.
  - destruct (w_gs s !! i) as [[v g]|]; [|done].
    destruct (sync.gstep maxRetries retryDelay mappings p i v cd ce g)
      as [[evs0 g']|] eqn:Hg; [|done].
    destruct (afterG g' (w_wg s) (w_errs s)) as [wg errs].
    intros [= <- <-]. simpl.
    assert (sends evs0 = []) as ->; [|by rewrite app_nil_r].
    unfold sync.gstep in Hg.
    destruct g as [retries data err| data | res]; [| |done].
    + destruct (retries <? maxRetries)%nat.
      * destruct ce; injection Hg as <- <-; done.
      * destruct err; injection Hg as <- <-; done.
    + destruct ce; injection Hg as <- <-; done.
Qed.

(** The reports received are those the workers have sent. *)
Lemma pstep_tally f c st evs st' :
  pstep c st = Some (evs, st') ->
  sum_list_with (fun ps => tally f (w_sent (snd ps))) (p_workers st')
  = (sum_list_with (fun ps => tally f (w_sent (snd ps))) (p_workers st)
     + tally f (resultsOf evs))%nat.
Proof.
  destruct c as [|k c]; cbn [sync.pstep].
  - destruct (packages !! length (p_workers st)) as [p|].
    + destruct (p_sem st <? maxConcurrent)%nat; [|done].
      intros [= <- <-]. simpl. rewrite sum_list_with_app. simpl.
      unfold tally. simpl. lia.
    + destruct ((p_wg st =? 0)%nat && negb (p_closed st))%bool; [|done].
      intros [= <- <-]. simpl. unfold tally. simpl. lia.
  - destruct (p_workers st !! k) as [[p s]|] eqn:Hk; [|done].
    destruct (wstep p c s) as [[evs0 s']|] eqn:Hstep; [|done].
    intros [= <- <-]. simpl.
    pose proof (sum_list_with_insert
                  (fun ps : Package * wstate => tally f (w_sent (snd ps)))
                  (p_workers st) k (p, s) (p, s') Hk) as Hins.
    simpl in Hins. rewrite (wstep_sent _ _ _ _ _ Hstep), tally_app in Hins.
    rewrite resultsOf_PEv. lia.
Qed.

Lemma prun_tally f cs : forall st tr st',
  prun cs st = Some (tr, st') ->
  sum_list_with (fun ps => tally f (w_sent (snd ps))) (p_workers st')
  = (sum_list_with (fun ps => tally f (w_sent (snd ps))) (p_workers st)
     + tally f (resultsOf tr))%nat.
Proof.
  induction cs as [|c cs IH]; intros st tr st' Hrun; simpl in Hrun.
  - injection Hrun as <- <-. unfold tally. simpl. lia.
  - destruct (pstep c st) as [[evs st1]|] eqn:Hstep; [|done].
    destruct (prun cs st1) as [[evs' st2]|] eqn:Hrest; [|done].
    injection Hrun as <- <-.
    rewrite (IH _ _ _ Hrest), (pstep_tally _ _ _ _ _ Hstep).
    rewrite resultsOf_app, tally_app. lia.
Qed.

(** Once [results] is closed every package has a worker that has sent one
    report, Failed exactly when the package fails validation. *)
Lemma closed_workers tr st :
  PInv tr st -> p_closed st = true ->
  (p_workers st).*1 = packages /\
  forall k p s, p_workers st !! k = Some (p, s) ->
    exists r, w_sent s = [r] /\
              Status r = (if invalid p then "Failed"
                          else if (0 <? failed (w_gs s))%nat
                               then "Partial Success" else "Success").
Proof.
  intros HI Hclosed. pose proof HI as [Hworkers _ _ _ _ Hc].
  destruct (Hc Hclosed) as [Hlen Hrun]. split.
  - apply list_eq. intros k. rewrite list_lookup_fmap.
    destruct (p_workers st !! k) as [[p s]|] eqn:Hk; simpl.
    + destruct (Hworkers _ _ _ Hk) as [-> _]. done.
    + apply lookup_ge_None in Hk. symmetry. apply lookup_ge_None. lia.
  - intros k p s Hk. destruct (Hworkers _ _ _ Hk) as [_ [wcs Hwrun]].
    destruct (SyncFacts.reach_Inv maxRetries retryDelay mappings p wcs _ s Hwrun)
      as [HIw _].
    pose proof (sum_list_with_zero _ _ _ _ Hrun Hk) as Hdone. simpl in Hdone.
    destruct (SyncFacts.sent_at_most_one p _ s HIw)
      as [[_ Hpc]|(r & Hr & _ & _)].
    { unfold isDone in Hdone. destruct (w_pc s); done. }
    exists r. split; [done|].
    pose proof (SyncFacts.status_law p _ s r HIw Hr)
      as Hlaw.
    unfold invalid. destruct (ValidatePackage p); [apply Hlaw|].
    by destruct Hlaw as (_ & _ & ->).
Qed.

(** X: when [processConcurrently] has closed [results], the reporter has
    received one report for each package: its Failed count is the number of
    packages that fail validation, its Success and Partial Success counts
    add up to the number of the others, and its table has one row for each
    package under the header. A package whose transfers all failed is never
    counted as Failed. *)
Theorem summary_counts_every_package (Green Red Yellow : string -> string)
        cs tr st :
  prun cs initP = Some (tr, st) ->
  p_closed st = true ->
  let s := sync.reportValidation Green Red Yellow (resultsOf tr) in
  failureCount s = length (List.filter invalid packages) /\
  (successCount s + partialCount s
   = length (List.filter (fun p => negb (invalid p)) packages))%nat /\
  (successCount s + partialCount s + failureCount s = length packages)%nat /\
  length (table s) = S (length packages).
Proof.
  intros Hrun Hclosed s.
  destruct (SyncFacts.prun_preserves maxRetries retryDelay mappings packages
              cs [] initP tr st
              (SyncFacts.PInv_init maxRetries retryDelay mappings packages) Hrun)
    as [HI _].
  cbn [app] in HI. destruct (closed_workers _ _ HI Hclosed) as [Hfst Hone].
  assert (forall (f : ValidationReport -> bool) (h : Package -> nat),
             (forall (k : nat) (p : Package) (s0 : wstate) (r : ValidationReport),
                 p_workers st !! k = Some (p, s0) ->
                               w_sent s0 = [r] ->
                               (if f r then 1 else 0)%nat = h p) ->
             tally f (resultsOf tr) = sum_list_with h packages) as Hcount.
  { intros f h Hh. pose proof (prun_tally f cs initP tr st Hrun) as Ht.
    simpl in Ht. rewrite <- Ht, <- Hfst, <- sum_list_with_fst.
    apply sum_list_with_ext. intros k [p s0] Hk. simpl.
    destruct (Hone _ _ _ Hk) as (r & Hr & _). rewrite Hr. unfold tally. simpl.
    rewrite Nat.add_0_r. by apply (Hh k p s0 r). }
  destruct (foldl_reportRow Green Red Yellow (resultsOf tr)
              (mkSummary 0 0 0 [["Package"; "Type"; "Status"; "Versions"; "Error"]]))
    as (Hs & Hf & Hp & Ht).
  fold (sync.reportValidation Green Red Yellow (resultsOf tr)) in Hs, Hf, Hp, Ht.
  fold s in Hs, Hf, Hp, Ht. simpl in Hs, Hf, Hp, Ht.
  assert (failureCount s = length (List.filter invalid packages)) as HF.
  { rewrite Hf, length_filter_sum. apply Hcount.
    intros k p s0 r Hk Hr. destruct (Hone _ _ _ Hk) as (r' & Hr' & Hst).
    assert (r' = r) as -> by congruence. unfold hasStatus. rewrite Hst.
    destruct (invalid p); [done|]. by destruct (0 <? failed (w_gs s0))%nat. }
  assert ((successCount s + partialCount s
           = length (List.filter (fun p => negb (invalid p)) packages))%nat) as HS.
  { rewrite Hs, Hp, length_filter_sum.
    rewrite <- (Hcount (fun r => hasStatus "Success" r
                                 || hasStatus "Partial Success" r)
                       (fun p => if negb (invalid p) then 1 else 0)%nat).
    - unfold tally. clear. induction (resultsOf tr) as [|r rs IH]; [done|].
      simpl. unfold hasStatus in *.
      destruct (String.eqb (Status r) "Success") eqn:E1.
      + apply String.eqb_eq in E1. rewrite E1. simpl. lia.
      + simpl. destruct (String.eqb (Status r) "Partial Success"); lia.
    - intros k p s0 r Hk Hr. destruct (Hone _ _ _ Hk) as (r' & Hr' & Hst).
      assert (r' = r) as -> by congruence. unfold hasStatus. rewrite Hst.
      destruct (invalid p); [done|]. by destruct (0 <? failed (w_gs s0))%nat. }
  split; [done|]. split; [done|]. split.
  - rewrite HS, HF. clear. induction packages as [|p ps IH]; [done|].
    simpl. destruct (invalid p); simpl; lia.
  - rewrite Ht. simpl. f_equal.
    transitivity (tally (fun _ => true) (resultsOf tr)).
    + unfold tally. clear. induction (resultsOf tr) as [|r rs IH]; simpl; lia.
    + rewrite (Hcount (fun _ => true) (fun _ => 1%nat)); [|done].
      clear. induction packages as [|p ps IH]; simpl; lia.
Qed.
End Pool.

Lemma summary_counts_every_package_witness :
  let s := reportValidation id id id (resultsOf poolTrace) in
  failureCount s = length (List.filter invalid poolPackages) /\
  (successCount s + partialCount s
   = length (List.filter (fun p => negb (invalid p)) poolPackages))%nat /\
  (successCount s + partialCount s + failureCount s = length poolPackages)%nat /\
  length (table s) = S (length poolPackages).
Proof.
  apply (summary_counts_every_package 3 5000000000 ∅ poolPackages id id id
           poolRun poolTrace poolState).
  - vm_compute. reflexivity.
  - reflexivity.
Defined.

Example poolRun_summary :
  reportValidation id id id (resultsOf poolTrace)
  = mkSummary 0 1 1
      [["Package"; "Type"; "Status"; "Versions"; "Error"];
       ["lodash"; "npm"; "Failed"; "1";
        "validation error for npm package 'lodash': npm package name must start with '@' for scoped packages"];
       ["img1"; "container"; "Partial Success"; "1";
        "failed to download version 1.0.0: connection reset by peer"]].
Proof. vm_compute. reflexivity. Qed.
End ReportFacts.


(** ** The sequential loop of SyncPackages *)

Module LoopFacts.
Import GoStrings pkg sync.

Lemma chain_app_closed {A : Type} (R : option A -> A -> Prop) (l1 l2 : list A) :
  forall prev,
    chain R prev l1 -> (forall prev', chain R prev' l2) ->
    chain R prev (l1 ++ l2).
Proof.
  induction l1 as [|x l1 IH]; intros prev H1 H2; simpl; [apply H2|].
  destruct H1 as [Hx H1]. split; [done|]. by apply IH.
Qed.

Lemma chain_at {A : Type} (R : option A -> A -> Prop) (pre : list A) :
  forall prev e post,
    chain R prev (pre ++ e :: post) ->
    R (match last pre with Some x => Some x | None => prev end) e.
Proof.
  induction pre as [|x pre IH]; intros prev e post H; simpl in H.
  - apply H.
  - destruct H as [_ H]. specialize (IH _ _ _ H).
    destruct pre as [|y pre]; [done|].
    change (last (x :: y :: pre)) with (last (y :: pre)).
    destruct (last (y :: pre)) eqn:Hl; [done|]. by apply last_None in Hl.
Qed.

Lemma countEvents_app f l1 l2 :
  countEvents f (l1 ++ l2) = (countEvents f l1 + countEvents f l2)%nat.
Proof. unfold countEvents. by rewrite List.filter_app, length_app. Qed.

Lemma countEvents_cons f e l :
  countEvents f (e :: l) = ((if f e then 1 else 0) + countEvents f l)%nat.
Proof. unfold countEvents. simpl. by destruct (f e). Qed.

Lemma countEvents_nil f : countEvents f [] = 0%nat.
Proof. done. Qed.

Section SyncLoop.
Context {W : Type}.
Variables sourceOrg targetOrg : string.
Variable skipExisting : bool.
Variable mappings : gmap string string.
Variable PackageExists : string -> string -> W -> bool * option error * W.
Variable DownloadPackageVersion :
  string -> string -> string -> W -> string * option error * W.
Variable UploadPackageVersion :
  string -> string -> string -> string -> W -> option error * W.
Variable UpdatePackageMetadata :
  string -> string -> string -> gmap string string -> W -> option error * W.
Variable UpdatePackageVisibility :
  string -> string -> string -> W -> option error * W.

Local Abbreviation follows := (sync.follows sourceOrg targetOrg mappings).
Local Abbreviation migrateVersion :=
  (sync.migrateVersion sourceOrg targetOrg DownloadPackageVersion
                       UploadPackageVersion UpdatePackageMetadata).
Local Abbreviation migrateVersions :=
  (sync.migrateVersions sourceOrg targetOrg DownloadPackageVersion
                        UploadPackageVersion UpdatePackageMetadata).
Local Abbreviation migratePackage :=
  (sync.migratePackage sourceOrg targetOrg skipExisting mappings PackageExists
                       DownloadPackageVersion UploadPackageVersion
                       UpdatePackageMetadata UpdatePackageVisibility).
Local Abbreviation migratePackages :=
  (sync.migratePackages sourceOrg targetOrg skipExisting mappings PackageExists
                        DownloadPackageVersion UploadPackageVersion
                        UpdatePackageMetadata UpdatePackageVisibility).

(** *** Every upload follows its download *)

Lemma migrateVersion_chain p version w prev :
  chain follows prev
        (fst (migrateVersion p (getTargetPackageName mappings (pkg_Name p))
                             version w)).
Proof.
  unfold sync.migrateVersion.
  destruct (DownloadPackageVersion _ _ _ w) as [[files [e|]] w1]; [simpl; tauto|].
  destruct (UploadPackageVersion _ _ _ files w1) as [[e|] w2].
  { simpl. repeat split; eauto. }
  destruct (UpdatePackageMetadata _ _ _ _ w2) as [[e|] w3];
    simpl; repeat split; eauto.
Qed.

Lemma migrateVersions_chain p versions : forall w prev,
  chain follows prev
        (fst (migrateVersions p (getTargetPackageName mappings (pkg_Name p))
                              versions w)).
Proof.
  induction versions as [|version rest IH]; intros w prev; [done|].
  cbn [sync.migrateVersions].
  pose proof (migrateVersion_chain p version w prev) as H1.
  destruct (migrateVersion p _ version w) as [evs w1].
  pose proof (fun prev' => IH w1 prev') as H2.
  destruct (migrateVersions p _ rest w1) as [evs' w2].
  simpl in *. by apply chain_app_closed.
Qed.

Lemma migratePackage_chain p w prev :
  chain follows prev (fst (migratePackage p w)).
Proof.
  unfold sync.migratePackage. destruct (ValidatePackage p); [simpl; tauto|].
  destruct (PackageExists _ _ w) as [[found [e|]] w1]; [simpl; tauto|].
  destruct (found && skipExisting)%bool; [simpl; tauto|].
  pose proof (fun prev' => migrateVersions_chain p (pkg_Versions p) w1 prev')
    as Hvs.
  destruct (migrateVersions p _ (pkg_Versions p) w1) as [evs w2].
  destruct (UpdatePackageVisibility _ _ _ w2) as [[e|] w3]; simpl in *;
    (split; [done|]); (apply chain_app_closed; [apply Hvs | simpl; tauto]).
Qed.

Lemma migratePackages_chain packages : forall w prev,
  chain follows prev (fst (migratePackages packages w)).
Proof.
  induction packages as [|p rest IH]; intros w prev; [done|].
  cbn [sync.migratePackages].
  pose proof (migratePackage_chain p w prev) as H1.
  destruct (migratePackage p w) as [evs w1].
  pose proof (fun prev' => IH w1 prev') as H2.
  destruct (migratePackages rest w1) as [evs' w2].
  simpl in *. by apply chain_app_closed.
Qed.

(** X: in the sequential loop of [SyncPackages], whatever the calls
    return, an upload comes directly after a download that returned no
    error, of the same version, and sends the files that download returned
    to the target organization under the mapped name of the package
    downloaded; a metadata update comes directly after an upload of the same
    package and version that returned no error. *)
Theorem upload_follows_download (packages : list Package) (w : W) :
  let log := fst (migratePackages packages w) in
  (forall pre org name version files err post,
      log = (pre ++ SUpload org name version files err :: post)%list ->
      exists pre' source,
        pre = (pre' ++ [SDownload sourceOrg source version files None])%list /\
        org = targetOrg /\ name = getTargetPackageName mappings source) /\
  (forall pre org name version metadata err post,
      log = (pre ++ SMetadata org name version metadata err :: post)%list ->
      exists pre' files,
        pre = (pre' ++ [SUpload org name version files None])%list).
Proof.
  intros log. pose proof (migratePackages_chain packages w None) as Hchain.
  fold log in Hchain. split.
  - intros pre org name version files err post Hlog. rewrite Hlog in Hchain.
    apply chain_at in Hchain. simpl in Hchain.
    destruct Hchain as (source & Hlast & -> & ->).
    destruct (last pre) as [x|] eqn:Hpre; [|done]. injection Hlast as ->.
    apply last_Some in Hpre as [pre' ->]. eauto.
  - intros pre org name version metadata err post Hlog. rewrite Hlog in Hchain.
    apply chain_at in Hchain. simpl in Hchain. destruct Hchain as (files & Hlast).
    destruct (last pre) as [x|] eqn:Hpre; [|done]. injection Hlast as ->.
    apply last_Some in Hpre as [pre' ->]. eauto.
Qed.

(** *** How many calls the loop makes *)

Lemma migrateVersion_counts p targetName version w :
  let log := fst (migrateVersion p targetName version w) in
  countEvents isDownload log = 1%nat /\
  countEvents isUpload log = countEvents isDownloadOk log /\
  countEvents isMetadata log = countEvents isUploadOk log /\
  countEvents isExists log = 0%nat /\ countEvents isExistsOk log = 0%nat /\
  countEvents (isMigrated skipExisting) log = 0%nat /\
  countEvents isVisibility log = 0%nat /\ countEvents isIncrement log = 0%nat.
Proof.
  unfold sync.migrateVersion.
  destruct (DownloadPackageVersion _ _ _ w) as [[files [e|]] w1]; [done|].
  destruct (UploadPackageVersion _ _ _ files w1) as [[e|] w2]; [done|].
  destruct (UpdatePackageMetadata _ _ _ _ w2) as [[e|] w3]; done.
Qed.

Lemma migrateVersions_counts p targetName versions : forall w,
  let log := fst (migrateVersions p targetName versions w) in
  countEvents isDownload log = length versions /\
  countEvents isUpload log = countEvents isDownloadOk log /\
  countEvents isMetadata log = countEvents isUploadOk log /\
  countEvents isExists log = 0%nat /\ countEvents isExistsOk log = 0%nat /\
  countEvents (isMigrated skipExisting) log = 0%nat /\
  countEvents isVisibility log = 0%nat /\ countEvents isIncrement log = 0%nat.
Proof.
  induction versions as [|version rest IH]; intros w; [done|].
  cbn [sync.migrateVersions].
  pose proof (migrateVersion_counts p targetName version w) as H1.
  destruct (migrateVersion p targetName version w) as [evs w1].
  specialize (IH w1).
  destruct (migrateVersions p targetName rest w1) as [evs' w2].
  simpl in *. rewrite !countEvents_app. lia.
Qed.

(** The versions of a package when it passes validation, none otherwise. *)
Lemma migratePackage_counts p w :
  let log := fst (migratePackage p w) in
  countEvents isExists log = (if invalid p then 0 else 1)%nat /\
  countEvents isUpload log = countEvents isDownloadOk log /\
  countEvents isMetadata log = countEvents isUploadOk log /\
  countEvents isVisibility log = countEvents (isMigrated skipExisting) log /\
  countEvents isIncrement log = countEvents isExistsOk log /\
  (countEvents isDownload log
   = countEvents (isMigrated skipExisting) log * length (pkg_Versions p))%nat /\
  (countEvents (isMigrated skipExisting) log <= countEvents isExistsOk log)%nat /\
  (countEvents isExistsOk log <= countEvents isExists log)%nat.
Proof.
  unfold sync.migratePackage, invalid. destruct (ValidatePackage p); [done|].
  destruct (PackageExists _ _ w) as [[found [e|]] w1];
    [unfold countEvents; simpl; lia|].
  destruct (found && skipExisting)%bool eqn:Hskip.
  { unfold countEvents. simpl. rewrite Hskip. simpl. lia. }
  pose proof (migrateVersions_counts p (getTargetPackageName mappings (pkg_Name p))
                (pkg_Versions p) w1) as Hvs.
  destruct (migrateVersions p _ (pkg_Versions p) w1) as [evs w2].
  destruct (UpdatePackageVisibility _ _ _ w2) as [[e|] w3]; simpl in *;
    rewrite !countEvents_cons, !countEvents_app, !countEvents_cons,
      !countEvents_nil;
    simpl; rewrite ?Hskip; simpl; lia.
Qed.

(** X: whatever the calls return, the sequential loop of [SyncPackages]
    checks existence once for each package that passes validation and for
    no other; it uploads once for each download that returned no error and
    updates metadata once for each upload that returned no error; it
    downloads each version of, and updates visibility once for, exactly the
    packages whose existence check returned no error and that are not
    skipped as existing, also when every version failed; and it advances
    the progress bar once for each existence check that returned no error,
    so not for a package that fails validation. *)
Theorem sequential_call_counts (packages : list Package) (w : W) :
  let log := fst (migratePackages packages w) in
  countEvents isExists log
  = length (List.filter (fun p => negb (invalid p)) packages) /\
  countEvents isUpload log = countEvents isDownloadOk log /\
  countEvents isMetadata log = countEvents isUploadOk log /\
  countEvents isVisibility log = countEvents (isMigrated skipExisting) log /\
  countEvents isIncrement log = countEvents isExistsOk log /\
  (countEvents (isMigrated skipExisting) log <= countEvents isExistsOk log)%nat /\
  (countEvents isExistsOk log <= countEvents isExists log)%nat /\
  (countEvents isDownload log
   <= sum_list_with (fun p => if invalid p then 0 else length (pkg_Versions p))
                    packages)%nat.
Proof.
  revert w. induction packages as [|p rest IH]; intros w log.
  - unfold log. simpl. unfold countEvents. simpl. lia.
  - unfold log. cbn [sync.migratePackages].
    pose proof (migratePackage_counts p w) as H1.
    destruct (migratePackage p w) as [evs w1].
    specialize (IH w1).
    destruct (migratePackages rest w1) as [evs' w2].
    simpl in *. rewrite !countEvents_app.
    destruct H1 as (Ha & Hb & Hc & Hd & He & Hf & Hg & Hh).
    destruct IH as (Ia & Ib & Ic & Id & Ie & If' & Ig & Ih).
    rewrite Ha, Hb, Hc, Hd, He, Hf, Ia, Ib, Ic, Id, Ie.
    destruct (invalid p); simpl in *; repeat split; try lia.
    + assert (countEvents (isMigrated skipExisting) evs = 0%nat) as -> by lia.
      lia.
    + assert (countEvents (isMigrated skipExisting) evs <= 1)%nat by lia.
      nia.
Qed.
End SyncLoop.
End LoopFacts.


(** ** The transfers of the version goroutines *)

Module TransferFacts.
Import GoStrings pkg sync.

Lemma prefixed_app {A : Type} (Q : list A -> A -> Prop) (l1 l2 : list A) :
  forall pre,
    prefixed Q pre l1 -> prefixed Q (pre ++ l1) l2 -> prefixed Q pre (l1 ++ l2).
Proof.
  induction l1 as [|x l1 IH]; intros pre H1 H2; simpl.
  - by rewrite app_nil_r in H2.
  - destruct H1 as [Hx H1]. split; [done|]. apply IH; [done|].
    by rewrite <- app_assoc.
Qed.

Lemma prefixed_at {A : Type} (Q : list A -> A -> Prop) (l1 : list A) :
  forall pre e post,
    prefixed Q pre (l1 ++ e :: post) -> Q (pre ++ l1)%list e.
Proof.
  induction l1 as [|x l1 IH]; intros pre e post H; simpl in H.
  - rewrite app_nil_r. apply H.
  - destruct H as [_ H]. apply IH in H. by rewrite <- app_assoc in H.
Qed.

Lemma downloadsOf_app i tr1 tr2 :
  downloadsOf i (tr1 ++ tr2) = (downloadsOf i tr1 + downloadsOf i tr2)%nat.
Proof. unfold downloadsOf. by rewrite List.filter_app, length_app. Qed.

Lemma uploadsOf_app i tr1 tr2 :
  uploadsOf i (tr1 ++ tr2) = (uploadsOf i tr1 + uploadsOf i tr2)%nat.
Proof. unfold uploadsOf. by rewrite List.filter_app, length_app. Qed.

Section Worker.
Variable maxRetries : nat.
Variable retryDelay : Z.
Variable mappings : gmap string string.
Variable p : Package.

Local Abbreviation gstep := (sync.gstep maxRetries retryDelay mappings p).
Local Abbreviation wstep := (sync.wstep maxRetries retryDelay mappings p).
Local Abbreviation wrun := (sync.wrun maxRetries retryDelay mappings p).
Local Abbreviation Inv := (sync.Inv p).
Local Abbreviation ginv := (sync.ginv maxRetries).
Local Abbreviation uploadOk := (sync.uploadOk maxRetries mappings p).
Local Abbreviation TInv := (sync.TInv maxRetries mappings p).

(** The goroutine of index [i] is that of the [i]-th version. *)
Lemma gs_versions tr s i v g :
  Inv tr s -> w_gs s !! i = Some (v, g) -> pkg_Versions p !! i = Some v.
Proof.
  intros [_ _ _ _ Hpc] Hi. unfold sync.pcInv in Hpc.
  assert ((w_gs s).*1 !! i = Some v) as Hfst.
  { by rewrite list_lookup_fmap, Hi. }
  destruct (w_pc s).
  - destruct Hpc as (Hgs & _). by rewrite Hgs in Hi.
  - destruct Hpc as (_ & <- & _). by apply lookup_app_l_Some.
  - destruct Hpc as (_ & <- & _). done.
  - destruct Hpc as (_ & <- & _). done.
  - destruct Hpc as [(err & _ & Hgs & _)|(_ & <- & _)]; [|done].
    by rewrite Hgs in Hi.
Qed.

(** The events of a step of goroutine [i] are transfers of [i] only. *)
Lemma gstep_other i v cd ce g evs g' j :
  gstep i v cd ce g = Some (evs, g') -> j <> i ->
  downloadsOf j evs = 0%nat /\ uploadsOf j evs = 0%nat.
Proof.
  intros Hg Hj. apply Nat.eqb_neq in Hj. rewrite Nat.eqb_sym in Hj.
  unfold sync.gstep in Hg.
  destruct g as [retries data err|data|res]; [| |done].
  - destruct (retries <? maxRetries)%nat.
    + destruct ce; injection Hg as <- <-; unfold downloadsOf, uploadsOf; simpl;
        by rewrite Hj.
    + destruct err; injection Hg as <- <-; done.
  - destruct ce; injection Hg as <- <-; unfold downloadsOf, uploadsOf; simpl;
      by rewrite Hj.
Qed.

Lemma TInv_init : TInv [] initW.
Proof. split; done. Qed.

Lemma ginv_other i v g tr evs :
  downloadsOf i evs = 0%nat -> uploadsOf i evs = 0%nat ->
  ginv i v g tr -> ginv i v g (tr ++ evs).
Proof.
  intros Hd Hu. unfold sync.ginv.
  rewrite downloadsOf_app, uploadsOf_app, Hd, Hu, !Nat.add_0_r.
  destruct g as [retries data err|data|res]; try done.
  intros (H1 & H2 & H3). split; [done|]. split; [done|].
  intros Hpos. destruct (H3 Hpos) as [r Hr]. exists r.
  apply elem_of_app. by left.
Qed.

Lemma tstep_go tr s i cd ce evs s' :
  Inv tr s -> TInv tr s -> wstep (CGo i cd ce) s = Some (evs, s') ->
  TInv (tr ++ evs) s'.
Proof.
  intros HI [Hstarted Hfresh Huploads] Hstep. cbn [sync.wstep] in Hstep.
  destruct (w_gs s !! i) as [[v g]|] eqn:Hi; [|done].
  destruct (gstep i v cd ce g) as [[evs0 g']|] eqn:Hg; [|done].
  destruct (afterG g' (w_wg s) (w_errs s)) as [wg errs].
  injection Hstep as <- <-. cbn [w_gs].
  pose proof (lookup_lt_Some _ _ _ Hi) as Hlt.
  pose proof (Hstarted _ _ _ Hi) as Hgi.
  pose proof (gs_versions _ _ _ _ _ HI Hi) as Hv.
  assert (ginv i v g' (tr ++ evs0) /\ prefixed uploadOk tr evs0) as [Hgi' Hup].
  { unfold sync.gstep in Hg. unfold sync.ginv in *.
    rewrite downloadsOf_app, uploadsOf_app.
    destruct g as [retries data err|data|res]; [| |done].
    - destruct Hgi as (Hd & Hle & Hu & Herr).
      destruct (retries <? maxRetries)%nat eqn:Hr.
      + apply Nat.ltb_lt in Hr.
        destruct ce; injection Hg as <- <-;
          unfold downloadsOf, uploadsOf in *; simpl; rewrite Nat.eqb_refl; simpl.
        * repeat split; try lia. done.
        * repeat split; try lia. intros _. exists retries.
          apply elem_of_app. right. apply elem_of_cons. by left.
      + apply Nat.ltb_ge in Hr.
        destruct err; injection Hg as <- <-;
          unfold downloadsOf, uploadsOf in *; simpl.
        * repeat split; lia.
        * specialize (Herr eq_refl). repeat split; try lia.
    - destruct Hgi as (Hd & Hu & Hdl).
      destruct ce; injection Hg as <- <-;
        unfold downloadsOf, uploadsOf in *; simpl; rewrite Nat.eqb_refl; simpl;
        repeat split; try lia; eauto. }
  split; cbn [w_gs].
  - intros j vj gj Hj. destruct (decide (j = i)) as [->|Hne].
    + rewrite list_lookup_insert_eq in Hj by done. injection Hj as <- <-. done.
    + rewrite list_lookup_insert_ne in Hj by done.
      destruct (gstep_other _ _ _ _ _ _ _ j Hg Hne) as [Hd Hu].
      apply ginv_other; [done | done |]. by apply Hstarted.
  - intros j Hj. rewrite length_insert in Hj.
    destruct (gstep_other _ _ _ _ _ _ _ j Hg ltac:(lia)) as [Hd Hu].
    destruct (Hfresh j Hj) as [Hd0 Hu0].
    rewrite downloadsOf_app, uploadsOf_app. lia.
  - by apply prefixed_app.
Qed.

Lemma tstep_worker tr s evs s' :
  TInv tr s -> wstep CWorker s = Some (evs, s') -> TInv (tr ++ evs) s'.
Proof.
  intros [Hstarted Hfresh Huploads] Hstep. cbn [sync.wstep] in Hstep.
  assert (forall evs1 gs,
             (forall i, downloadsOf i evs1 = 0%nat /\ uploadsOf i evs1 = 0%nat) ->
             prefixed uploadOk tr evs1 ->
             (forall i v g, gs !! i = Some (v, g) ->
                            w_gs s !! i = Some (v, g) \/
                            (i = length (w_gs s) /\ g = GLoop 0 "" None)) ->
             (length (w_gs s) <= length gs)%nat ->
             forall pc wg errs sent, TInv (tr ++ evs1) (mkW pc gs wg errs sent))
    as Hkeep.
  { intros evs1 gs Hnone Hpre Hgs Hlen pc wg errs sent. split; cbn [w_gs].
    - intros i v g Hi. destruct (Hnone i) as [Hd Hu].
      destruct (Hgs _ _ _ Hi) as [Hold|[-> ->]].
      + apply ginv_other; [done | done |]. by apply Hstarted.
      + destruct (Hfresh (length (w_gs s)) ltac:(lia)) as [Hd0 Hu0].
        unfold sync.ginv. rewrite downloadsOf_app, uploadsOf_app.
        repeat split; lia.
    - intros i Hi. destruct (Hnone i) as [Hd Hu].
      destruct (Hfresh i ltac:(lia)) as [Hd0 Hu0].
      rewrite downloadsOf_app, uploadsOf_app. lia.
    - by apply prefixed_app. }
  destruct (w_pc s) as [|[|v rest]| | |].
  - destruct (ValidatePackage p); injection Hstep as <- <-;
      (apply Hkeep; [done | simpl; tauto | eauto | done]).
  - injection Hstep as <- <-. apply Hkeep; [done | simpl; tauto | eauto | done].
  - injection Hstep as <- <-. apply Hkeep; [done | simpl; tauto | |].
    + intros i v' g Hi. apply lookup_app_Some in Hi as [Hi|[Hge Hi]]; [by left|].
      right. apply list_lookup_singleton_Some in Hi as [Hi [= <- <-]].
      split; [lia | done].
    + rewrite length_app. lia.
  - destruct (w_wg s =? 0)%nat; [|done]. injection Hstep as <- <-.
    apply Hkeep; [done | simpl; tauto | eauto | done].
  - injection Hstep as <- <-. apply Hkeep; [done | simpl; tauto | eauto | done].
  - done.
Qed.

Lemma trun_preserves cs : forall tr0 s tr s',
  Inv tr0 s -> TInv tr0 s -> wrun cs s = Some (tr, s') -> TInv (tr0 ++ tr) s'.
Proof.
  induction cs as [|c cs IH]; intros tr0 s tr s' HI HT Hrun; simpl in Hrun.
  - injection Hrun as <- <-. by rewrite app_nil_r.
  - destruct (wstep c s) as [[evs s1]|] eqn:Hstep; [|done].
    destruct (wrun cs s1) as [[evs' s2]|] eqn:Hrest; [|done].
    injection Hrun as <- <-. rewrite app_assoc.
    destruct (SyncFacts.step_preserves maxRetries retryDelay mappings p
                _ _ _ _ _ HI Hstep) as [HI1 _].
    apply (IH _ s1); [done | | done].
    destruct c as [|i cd ce];
      [exact (tstep_worker _ s _ _ HT Hstep)
      | exact (tstep_go _ s _ _ _ _ _ HI HT Hstep)].
Qed.

(** X: in every run of the worker of a package, each version is
    downloaded at most [maxRetries] times and uploaded at most once; an
    upload is that of one of the package's versions, under the mapped name
    of the package, and, when [maxRetries] is not zero, comes after a
    download of that version that returned no error. *)
Theorem version_transfers cs tr s :
  wrun cs initW = Some (tr, s) ->
  (forall i, (downloadsOf i tr <= maxRetries)%nat /\ (uploadsOf i tr <= 1)%nat) /\
  (forall pre i targetName version data err post,
      tr = (pre ++ EvUpload i targetName version data err :: post)%list ->
      targetName = getTargetPackageName mappings (pkg_Name p) /\
      (exists v, pkg_Versions p !! i = Some v /\ ver_Name v = version) /\
      ((0 < maxRetries)%nat ->
       exists retries, EvDownload i version retries None ∈ pre)).
Proof.
  intros Hrun.
  pose proof (trun_preserves cs [] initW tr s
                (SyncFacts.Inv_init p) TInv_init Hrun) as HT.
  cbn [app] in HT. destruct HT as [Hstarted Hfresh Huploads]. split.
  - intros i. destruct (w_gs s !! i) as [[v g]|] eqn:Hi.
    + pose proof (Hstarted _ _ _ Hi) as Hg. unfold sync.ginv in Hg.
      destruct g; lia.
    + apply lookup_ge_None in Hi. destruct (Hfresh i Hi). lia.
  - intros pre i targetName version data err post ->.
    apply prefixed_at in Huploads. done.
Qed.
End Worker.

Lemma version_transfers_witness :
  (forall i, (downloadsOf i mixedTrace <= 3)%nat /\
             (uploadsOf i mixedTrace <= 1)%nat) /\
  (forall pre i targetName version data err post,
      mixedTrace = (pre ++ EvUpload i targetName version data err :: post)%list ->
      targetName = getTargetPackageName ∅ (pkg_Name img) /\
      (exists v, pkg_Versions img !! i = Some v /\ ver_Name v = version) /\
      ((0 < 3)%nat -> exists retries, EvDownload i version retries None ∈ pre)).
Proof.
  apply (version_transfers 3 5000000000 ∅ img mixedRun mixedTrace mixedState).
  vm_compute. reflexivity.
Defined.

(** With [maxRetries] zero the download loop is not entered and the upload
    sends the empty [data]. *)
Example upload_without_download :
  wrun 0 5000000000 ∅ img1
       [CWorker; CWorker; CWorker; CGo 0 "" None; CGo 0 "" None; CWorker; CWorker]
       initW
  = Some ([EvValidate None; EvSpawn 0; EvUpload 0 "img1" "1.0.0" "" None;
           EvVersionDone 0; EvWait;
           EvSend (mkReport "img1" "container" "Success" "" 1 0)],
          mkW PcDone [(v100, GDone None)] 0 []
              [mkReport "img1" "container" "Success" "" 1 0]).
Proof. vm_compute. reflexivity. Qed.
End TransferFacts.


(** ** How Query and retryableUpload end *)

Module EndFacts.
Import GoStrings api.

Section QueryEnd.
Context {R : Type}.

(** X: a call of [Query] that returns has made one more probe than it has
    slept, and the page query at most once. When a probe fails the call
    ends there: the failed probe is the last event of the call, whatever
    came before it, so no sleep, no further probe and no page query follow
    it, and the probe's error is returned as it is at the probe's end.
    Otherwise the page query is the last event, it comes right after a
    probe that found requests remaining, and its result is what the call
    returns. *)
Theorem Query_probe_error_aborts (probes : list probe) :
  forall (page : nat * (error + R)) now res t log,
    Query probes page now = Some (res, t, log) ->
    probesIn log = S (qsleepsIn log) /\
    ((pagesIn log = 0%nat /\
      exists t0 err, last log = Some (QProbe t0 t (inl err)) /\ res = inl err) \/
     (pagesIn log = 1%nat /\
      last log = Some (QPage (t - Z.of_nat (fst page))) /\ res = snd page)) /\
    (forall (pre : list qevent) t0 t1 err post,
        log = (pre ++ QProbe t0 t1 (inl err) :: post)%list ->
        post = [] /\ res = inl err /\ t = t1 /\ pagesIn log = 0%nat) /\
    (forall (pre : list qevent) t1 post,
        log = (pre ++ QPage t1 :: post)%list ->
        post = [] /\ res = snd page /\ t = t1 + Z.of_nat (fst page) /\
        exists (pre' : list qevent) t0 rateLimit,
          pre = (pre' ++ [QProbe t0 t1 (inr rateLimit)])%list /\
          0 < Remaining rateLimit).
Proof.
  induction probes as [|pr rest IH]; intros page now res t log HQ;
    cbn [Query] in HQ; [done|].
  destruct (probe_result pr) as [err|rl].
  - injection HQ as <- <- <-. split; [done|]. split; [left; split; [done|]; eauto|].
    split.
    + intros pre t0 t1 err' post Hlog.
      destruct pre as [|e pre]; simpl in Hlog.
      * by injection Hlog as <- <- <- <-.
      * injection Hlog as _ Hlog. by destruct pre.
    + intros pre t1 post Hlog.
      destruct pre as [|e pre]; simpl in Hlog; [done|].
      injection Hlog as _ Hlog. by destruct pre.
  - destruct (0 <? Remaining rl) eqn:Hrem.
    + injection HQ as <- <- <-. split; [done|]. split.
      { right. split; [done|]. split; [|done]. simpl. do 2 f_equal. lia. }
      split.
      * intros pre t0 t1 err post Hlog.
        destruct pre as [|e pre]; simpl in Hlog; [done|].
        injection Hlog as _ Hlog.
        destruct pre as [|e' pre]; simpl in Hlog; [done|].
        injection Hlog as _ Hlog. by destruct pre.
      * intros pre t1 post Hlog.
        destruct pre as [|e pre]; simpl in Hlog; [done|].
        injection Hlog as <- Hlog.
        destruct pre as [|e' pre]; simpl in Hlog.
        -- injection Hlog as <- <-. do 3 (split; [done|]).
           exists [], now, rl. split; [done|]. by apply Z.ltb_lt.
        -- injection Hlog as _ Hlog. by destruct pre.
    + destruct (Query rest page _) as [[[res' t'] log']|] eqn:Hrest; [|done].
      injection HQ as <- <- <-.
      destruct (IH _ _ _ _ _ Hrest) as (Hn & Hend & Hfail & Hpage).
      assert (forall x, last log' = Some x ->
                        last (QProbe now (now + Z.of_nat (probe_latency pr)) (inr rl)
                              :: QSleep (now + Z.of_nat (probe_latency pr))
                                   (ResetAt rl - (now + Z.of_nat (probe_latency pr)))
                              :: log') = Some x) as Hlast.
      { intros x Hx. destruct log' as [|e log']; [done|]. done. }
      split; [unfold probesIn, qsleepsIn in *; simpl; lia|].
      split.
      { destruct Hend as [(Hp & t0 & err & Hl & ->)|(Hp & Hl & ->)].
        - left. split; [exact Hp|]. exists t0, err. split; [|done].
          by apply Hlast.
        - right. split; [exact Hp|]. split; [|done]. by apply Hlast. }
      split.
      * intros pre t0 t1 err post Hlog.
        destruct pre as [|e pre]; simpl in Hlog; [done|].
        injection Hlog as _ Hlog.
        destruct pre as [|e' pre]; simpl in Hlog; [done|].
        injection Hlog as _ Hlog.
        destruct (Hfail _ _ _ _ _ Hlog) as (-> & -> & -> & Hp).
        done.
      * intros pre t1 post Hlog.
        destruct pre as [|e pre]; simpl in Hlog; [done|].
        injection Hlog as <- Hlog.
        destruct pre as [|e' pre]; simpl in Hlog; [done|].
        injection Hlog as <- Hlog.
        destruct (Hpage _ _ _ Hlog) as (-> & -> & -> & pre' & t0 & rl' & -> & Hr).
        do 3 (split; [done|]).
        by exists (QProbe now (now + Z.of_nat (probe_latency pr)) (inr rl)
                   :: QSleep (now + Z.of_nat (probe_latency pr))
                        (ResetAt rl - (now + Z.of_nat (probe_latency pr)))
                   :: pre'), t0, rl'.
Qed.
End QueryEnd.

Lemma Query_probe_error_aborts_witness :
  probesIn logFail = S (qsleepsIn logFail) /\
  ((pagesIn logFail = 0%nat /\
    exists t0 err, last logFail = Some (QProbe t0 9021 (inl err)) /\
                   inl (Errorf "401 Unauthorized") = inl (B := string) err) \/
   (pagesIn logFail = 1%nat /\
    last logFail = Some (QPage (9021 - Z.of_nat (fst pageE))) /\
    inl (Errorf "401 Unauthorized") = snd pageE)) /\
  (forall (pre : list qevent) t0 t1 err post,
      logFail = (pre ++ QProbe t0 t1 (inl err) :: post)%list ->
      post = [] /\ inl (Errorf "401 Unauthorized") = inl (B := string) err /\
      9021 = t1 /\ pagesIn logFail = 0%nat) /\
  (forall (pre : list qevent) t1 post,
      logFail = (pre ++ QPage t1 :: post)%list ->
      post = [] /\ inl (Errorf "401 Unauthorized") = snd pageE /\
      9021 = t1 + Z.of_nat (fst pageE) /\
      exists (pre' : list qevent) t0 rateLimit,
        pre = (pre' ++ [QProbe t0 t1 (inr rateLimit)])%list /\
        0 < Remaining rateLimit).
Proof.
  apply (Query_probe_error_aborts probesFail pageE 0
           (inl (Errorf "401 Unauthorized")) 9021 logFail).
  reflexivity.
Defined.

Section RetryEnd.
Context {W : Type}.
Variable m : UploadManager.
Variable fn : W -> option error * W.
Variable ctx : nat -> option error.

Lemma retryLoop_succeeds (k : nat) : forall n attempt lastErr w,
  (k < n)%nat ->
  (forall j, (j < k)%nat -> fst (fn (worldAt fn j w)) <> None) ->
  fst (fn (worldAt fn k w)) = None ->
  (forall j, (j < k)%nat -> ctx (attempt + j) = None) ->
  exists log,
    retryLoop m fn ctx n attempt lastErr w = (None, worldAt fn (S k) w, log) /\
    attempts log = S k /\ waits log = linearWaits m attempt k.
Proof.
  induction k as [|k IH]; intros n attempt lastErr w Hlt Hfail Hok Hctx;
    (destruct n as [|n]; [lia|]); cbn [retryLoop].
  - simpl in Hok. cbn [worldAt]. destruct (fn w) as [res w1]. simpl in Hok.
    subst res. eexists. split; [reflexivity|]. done.
  - pose proof (Hfail 0%nat ltac:(lia)) as H0. simpl in H0.
    destruct (fn w) as [[err|] w1] eqn:Hfn; [|done].
    assert (forall j, worldAt fn (S j) w = worldAt fn j w1) as Hw.
    { intros j. cbn [worldAt]. by rewrite Hfn. }
    pose proof (Hctx 0%nat ltac:(lia)) as Hc. rewrite Nat.add_0_r in Hc.
    rewrite Hc.
    destruct (IH n (S attempt) (Some err) w1) as (log & Heq & Ha & Hlog).
    + lia.
    + intros j Hj. specialize (Hfail (S j) ltac:(lia)). by rewrite Hw in Hfail.
    + by rewrite Hw in Hok.
    + intros j Hj. specialize (Hctx (S j) ltac:(lia)).
      by rewrite Nat.add_succ_r in Hctx.
    + rewrite Heq, (Hw (S k)). eexists. split; [reflexivity|]. split.
      * change (S (attempts log) = S (S k)). by rewrite Ha.
      * change (retryDelay m * Z.of_nat (attempt + 1) :: waits log
                = retryDelay m * Z.of_nat (attempt + 1)
                  :: linearWaits m (S attempt) k).
        by rewrite Hlog.
Qed.

Lemma retryLoop_bounded (n : nat) : forall attempt lastErr w res w' log,
  retryLoop m fn ctx n attempt lastErr w = (res, w', log) ->
  (attempts log <= n)%nat /\
  w' = worldAt fn (attempts log) w /\
  (res = None <-> exists a, last log = Some (RAttempt a None)).
Proof.
  induction n as [|n IH]; intros attempt lastErr w res w' log H;
    cbn [retryLoop] in H.
  - injection H as <- <- <-. unfold attempts. simpl.
    split; [lia|]. split; [done|]. split; [done | by intros [a Ha]].
  - destruct (fn w) as [[err|] w1] eqn:Hfn.
    + destruct (ctx attempt) as [cerr|].
      * injection H as <- <- <-. unfold attempts. simpl. rewrite Hfn.
        split; [lia|]. split; [done|]. split; [done | by intros [a Ha]].
      * destruct (retryLoop m fn ctx n (S attempt) (Some err) w1)
          as [[res1 w2] log1] eqn:Hrest.
        injection H as <- <- <-.
        destruct (IH _ _ _ _ _ _ Hrest) as (Hle & Hw & Hres).
        change (attempts (RAttempt attempt (Some err)
                          :: RWait (retryDelay m * Z.of_nat (attempt + 1)) :: log1))
          with (S (attempts log1)).
        split; [lia|]. split; [cbn [worldAt]; by rewrite Hfn|].
        rewrite Hres. destruct log1 as [|e log1]; [|done].
        simpl. split; intros [a Ha]; done.
    + injection H as <- <- <-. unfold attempts. simpl. rewrite Hfn.
      split; [lia|]. split; [done|]. split; [eauto | done].
Qed.

Lemma retryLoop_stops (n : nat) : forall attempt lastErr w res w' log,
  retryLoop m fn ctx n attempt lastErr w = (res, w', log) ->
  forall (pre post : list revent),
    (forall a, log = (pre ++ RAttempt a None :: post)%list ->
               post = [] /\ res = None) /\
    (forall d, log = (pre ++ RCancelled d :: post)%list ->
               post = [] /\ exists a, ctx a = res /\ res <> None).
Proof.
  induction n as [|n IH]; intros attempt lastErr w res w' log H pre post;
    cbn [retryLoop] in H.
  - injection H as <- <- <-. split; intros x Hx; by destruct pre.
  - destruct (fn w) as [[err|] w1] eqn:Hfn.
    + destruct (ctx attempt) as [cerr|] eqn:Hctx.
      * injection H as <- <- <-. split; intros x Hx.
        -- destruct pre as [|e pre]; simpl in Hx; [done|].
           injection Hx as _ Hx. destruct pre as [|e' pre]; simpl in Hx; [done|].
           injection Hx as _ Hx. by destruct pre.
        -- destruct pre as [|e pre]; simpl in Hx; [done|].
           injection Hx as _ Hx. destruct pre as [|e' pre]; simpl in Hx.
           ++ injection Hx as _ <-. split; [done|]. by exists attempt.
           ++ injection Hx as _ Hx. by destruct pre.
      * destruct (retryLoop m fn ctx n (S attempt) (Some err) w1)
          as [[res1 w2] log1] eqn:Hrest.
        injection H as <- <- <-. split; intros x Hx.
        -- destruct pre as [|e pre]; simpl in Hx; [done|].
           injection Hx as _ Hx. destruct pre as [|e' pre]; simpl in Hx; [done|].
           injection Hx as _ Hx.
           by apply (IH _ _ _ _ _ _ Hrest pre post) in Hx.
        -- destruct pre as [|e pre]; simpl in Hx; [done|].
           injection Hx as _ Hx. destruct pre as [|e' pre]; simpl in Hx; [done|].
           injection Hx as _ Hx.
           by apply (IH _ _ _ _ _ _ Hrest pre post) in Hx.
    + injection H as <- <- <-. split; intros x Hx.
      * destruct pre as [|e pre]; simpl in Hx.
        -- by injection Hx as _ <-.
        -- injection Hx as _ Hx. by destruct pre.
      * destruct pre as [|e pre]; simpl in Hx; [done|].
        injection Hx as _ Hx. by destruct pre.
Qed.

(** X: [retryableUpload] calls the operation at most [maxRetries] times,
    one call after the other, and returns nil exactly when the last call
    returned nil. It never calls the operation again after a success: a
    call that returned nil is the last event of the run, with no wait and
    no call after it, and the run returns nil. A wait that the context
    ended is the last event too, and the run returns the context's error.
    With [maxRetries] zero it does not call the operation at all and still
    returns the exhaustion error, for a nil last error. *)
Theorem retryableUpload_bounded (w : W) :
  (attempts (snd (retryableUpload m fn ctx w)) <= maxRetries m)%nat /\
  snd (fst (retryableUpload m fn ctx w))
  = worldAt fn (attempts (snd (retryableUpload m fn ctx w))) w /\
  (fst (fst (retryableUpload m fn ctx w)) = None <->
   exists a, last (snd (retryableUpload m fn ctx w)) = Some (RAttempt a None)) /\
  (maxRetries m = 0%nat ->
   retryableUpload m fn ctx w
   = (Some (Errorf ("upload failed after 0 attempts: <nil>")), w, [])) /\
  (forall (pre post : list revent) a,
      snd (retryableUpload m fn ctx w) = (pre ++ RAttempt a None :: post)%list ->
      post = [] /\ fst (fst (retryableUpload m fn ctx w)) = None) /\
  (forall (pre post : list revent) d,
      snd (retryableUpload m fn ctx w) = (pre ++ RCancelled d :: post)%list ->
      post = [] /\
      exists a, ctx a = fst (fst (retryableUpload m fn ctx w)) /\
                fst (fst (retryableUpload m fn ctx w)) <> None).
Proof.
  unfold retryableUpload.
  destruct (retryLoop m fn ctx (maxRetries m) 0 None w) as [[res w'] log] eqn:H.
  destruct (retryLoop_bounded _ _ _ _ _ _ _ H) as (H1 & H2 & H3). simpl.
  split; [done|]. split; [done|]. split; [done|].
  split; [intros H0; rewrite H0 in H; simpl in H; by rewrite H0 in H|].
  split.
  - intros pre post a. apply (retryLoop_stops _ _ _ _ _ _ _ H pre post).
  - intros pre post d. apply (retryLoop_stops _ _ _ _ _ _ _ H pre post).
Qed.

(** X: when the operation fails at its first [k] calls and succeeds at the
    next, with [k] less than [maxRetries] and the context not done during
    the waits, [retryableUpload] returns nil after [k + 1] calls, having
    waited [retryDelay], twice [retryDelay], ... after the failed ones. *)
Theorem retryableUpload_succeeds_after (k : nat) (w : W) :
  (k < maxRetries m)%nat ->
  (forall j, (j < k)%nat -> fst (fn (worldAt fn j w)) <> None) ->
  fst (fn (worldAt fn k w)) = None ->
  (forall j, (j < k)%nat -> ctx j = None) ->
  exists log,
    retryableUpload m fn ctx w = (None, worldAt fn (S k) w, log) /\
    attempts log = S k /\
    waits log = map (fun j => retryDelay m * Z.of_nat (j + 1)) (seq 0 k).
Proof.
  intros Hlt Hfail Hok Hctx. unfold retryableUpload.
  by apply retryLoop_succeeds.
Qed.
End RetryEnd.

Lemma retryableUpload_succeeds_after_witness :
  exists log,
    retryableUpload NewUploadManager thirdTime neverDone 0%nat
    = (None, worldAt thirdTime 3 0%nat, log) /\
    attempts log = 3%nat /\
    waits log = map (fun j => retryDelay NewUploadManager * Z.of_nat (j + 1))
                    (seq 0 2).
Proof.
  apply (retryableUpload_succeeds_after NewUploadManager thirdTime neverDone
           2 0%nat).
  - vm_compute. lia.
  - intros j Hj. destruct j as [|[|j]]; simpl; first [discriminate | lia].
  - reflexivity.
  - reflexivity.
Defined.

Example retryableUpload_third_time :
  retryableUpload NewUploadManager thirdTime neverDone 0%nat
  = (None, 3%nat,
     [RAttempt 0 (Some unavailable); RWait 5000000000;
      RAttempt 1 (Some unavailable); RWait 10000000000;
      RAttempt 2 None]).
Proof. reflexivity. Qed.
End EndFacts.


(** ** Layers that fail *)

Module LayerFacts.
Import GoStrings api.

Section AnyServer.
Context {S : Type}.
Variable server : request -> S -> response * S.
Variable fs : string -> option string.
Variable sha256hex : string -> string.
Variable jsonConfig : list string -> gmap string string -> string.
Variable jsonManifest : ContainerManifest -> string.

Local Abbreviation uploadContainerLayer :=
  (api.uploadContainerLayer server fs sha256hex).
Local Abbreviation uploadLayers := (api.uploadLayers server fs sha256hex).
Local Abbreviation ContainerUpload :=
  (api.ContainerUpload server fs sha256hex jsonConfig jsonManifest).
Local Abbreviation digestOf := (api.digestOf sha256hex).

(** A layer upload sends no manifest; it probes the blob of a file it can
    read, and fails without a request for a file it cannot. *)
Lemma layer_requests baseURL file (st : S * list request) :
  exists more,
    snd (snd (uploadContainerLayer baseURL file st)) = (snd st ++ more)%list /\
    manifestPuts more = [] /\
    (forall content, fs file = Some content ->
                     ReqHead (BlobURL baseURL (digestOf content)) ∈ more) /\
    (fs file = None ->
     more = [] /\ exists err, fst (uploadContainerLayer baseURL file st) = inr err).
Proof.
  unfold api.uploadContainerLayer, checkExists, send.
  destruct (fs file) as [content|]; [|].
  2:{ exists []. rewrite app_nil_r. repeat split; eauto. done. }
  assert (forall more : list request,
             ReqHead (BlobURL baseURL (digestOf content)) ∈
             ReqHead (BlobURL baseURL (digestOf content)) :: more) as Hhead.
  { intros more. apply elem_of_cons. by left. }
  destruct (server (ReqHead _) (fst st)) as [[err|status location] s1]; simpl.
  { eexists. split; [reflexivity|]. split; [done|].
    split; [intros ? [= <-]; apply Hhead | done]. }
  destruct (status =? StatusOK)%nat; simpl.
  { eexists. split; [reflexivity|]. split; [done|].
    split; [intros ? [= <-]; apply Hhead | done]. }
  destruct (server (ReqPost _) s1) as [[err|status' location'] s2]; simpl.
  { eexists. split; [by rewrite <- app_assoc|]. split; [done|].
    split; [intros ? [= <-]; apply Hhead | done]. }
  destruct (negb (status' =? StatusAccepted)%nat); simpl.
  { eexists. split; [by rewrite <- app_assoc|]. split; [done|].
    split; [intros ? [= <-]; apply Hhead | done]. }
  destruct (String.eqb location' ""); simpl.
  { eexists. split; [by rewrite <- app_assoc|]. split; [done|].
    split; [intros ? [= <-]; apply Hhead | done]. }
  destruct (server (ReqPut _ _ _) s2) as [[err|status'' location''] s3]; simpl.
  { eexists. split; [by rewrite <- !app_assoc|]. split; [done|].
    split; [intros ? [= <-]; apply Hhead | done]. }
  destruct (negb (status'' =? StatusCreated)%nat); simpl;
    (eexists; split; [by rewrite <- !app_assoc|]; split; [done|];
     split; [intros ? [= <-]; apply Hhead | done]).
Qed.

Lemma layers_requests baseURL files : forall (st : S * list request),
  exists more,
    snd (uploadLayers baseURL files st).2 = (snd st ++ more)%list /\
    manifestPuts more = [] /\
    (forall file content,
        file ∈ files -> isContainerLayer file = true -> fs file = Some content ->
        ReqHead (BlobURL baseURL (digestOf content)) ∈ more) /\
    (forall file,
        file ∈ files -> isContainerLayer file = true -> fs file = None ->
        snd (fst (uploadLayers baseURL files st)) <> []).
Proof.
  induction files as [|file rest IH]; intros st.
  - exists []. simpl. rewrite app_nil_r. repeat split; try done.
    + intros file content H. by apply elem_of_nil in H.
    + intros file H. by apply elem_of_nil in H.
  - cbn [api.uploadLayers]. destruct (isContainerLayer file) eqn:Hlayer.
    + destruct (layer_requests baseURL file st)
        as (more1 & Hlog1 & Hm1 & Hhead1 & Hnone1).
      destruct (uploadContainerLayer baseURL file st) as [res st1].
      simpl in Hlog1, Hnone1.
      destruct (IH st1) as (more2 & Hlog2 & Hm2 & Hhead2 & Hnone2).
      destruct (uploadLayers baseURL rest st1) as [[layerResults layerErrors] st2].
      simpl in Hlog2, Hnone2.
      exists (more1 ++ more2)%list.
      assert (forall X Y : list string * list error * (S * list request),
                 snd X = st2 -> snd (snd X) = (snd st ++ more1 ++ more2)%list) as Hst.
      { intros X _ ->. by rewrite Hlog2, Hlog1, <- app_assoc. }
      split; [destruct res; simpl; by rewrite Hlog2, Hlog1, <- app_assoc|].
      split; [by rewrite ContainerFacts.manifestPuts_app, Hm1, Hm2|].
      split.
      * intros file' content Hin Hl Hfs.
        apply elem_of_app. apply elem_of_cons in Hin as [->|Hin].
        -- left. by apply Hhead1.
        -- right. by apply (Hhead2 file').
      * intros file' Hin Hl Hfs. apply elem_of_cons in Hin as [->|Hin].
        -- destruct (Hnone1 Hfs) as (_ & err & ->). done.
        -- specialize (Hnone2 file' Hin Hl Hfs). by destruct res.
    + destruct (IH st) as (more & Hlog & Hm & Hhead & Hnone).
      exists more. split; [done|]. split; [done|]. split.
      * intros file' content Hin Hl Hfs.
        apply elem_of_cons in Hin as [->|Hin]; [congruence|]. by apply (Hhead file').
      * intros file' Hin Hl Hfs.
        apply elem_of_cons in Hin as [->|Hin]; [congruence|]. by apply (Hnone file').
Qed.

(** X: when one of the layer files of an upload cannot be read,
    [ContainerUpload] returns an error and sends no manifest, whatever the
    server answers; when the options pass validation the other layers are
    still attempted, each readable one being probed at the registry, and
    when they do not, no request is made at all. *)
Theorem unreadable_layer_blocks_manifest (m : UploadManager)
        (ctx : nat -> option error) (opts : UploadOptions)
        (st : S * list request) (file : string) :
  file ∈ opts_Files opts -> isContainerLayer file = true -> fs file = None ->
  exists err s' more,
    ContainerUpload m ctx opts st = (Some err, (s', (snd st ++ more)%list), []) /\
    manifestPuts more = [] /\
    (validateContainerUpload opts <> None -> more = []) /\
    (validateContainerUpload opts = None ->
     forall file' content,
       file' ∈ opts_Files opts -> isContainerLayer file' = true ->
       fs file' = Some content ->
       ReqHead (BlobURL (baseURLOf opts) (digestOf content)) ∈ more).
Proof.
  intros Hin Hlayer Hfs. unfold api.ContainerUpload.
  destruct (validateContainerUpload opts) as [verr|] eqn:Hv.
  { eexists _, (fst st), []. rewrite app_nil_r. destruct st as [s log].
    split; [reflexivity|]. done. }
  fold (baseURLOf opts).
  destruct (layers_requests (baseURLOf opts) (opts_Files opts) st)
    as (more & Hlog & Hm & Hhead & Hnone).
  specialize (Hnone file Hin Hlayer Hfs).
  destruct (uploadLayers (baseURLOf opts) (opts_Files opts) st)
    as [[layers layerErrors] [s1 log1]].
  simpl in Hlog, Hnone. subst log1.
  destruct layerErrors as [|err errs]; [done|].
  exists err, s1, more. done.
Qed.
End AnyServer.

Lemma unreadable_layer_blocks_manifest_witness :
  exists err s' more,
    ContainerUpload registryServer filesD toyHash toyConfig toyManifest
      NewUploadManager noContext
      (mkUploadOptions "acme" "img" "3.0" "container" ∅
         ["v1/base.tar.gz"; "v3/app.tar.gz"] "private")
      (emptyRegistry, [])
    = (Some err, (s', (snd (emptyRegistry, []) ++ more)%list), []) /\
    manifestPuts more = [] /\
    (validateContainerUpload
       (mkUploadOptions "acme" "img" "3.0" "container" ∅
          ["v1/base.tar.gz"; "v3/app.tar.gz"] "private") <> None -> more = []) /\
    (validateContainerUpload
       (mkUploadOptions "acme" "img" "3.0" "container" ∅
          ["v1/base.tar.gz"; "v3/app.tar.gz"] "private") = None ->
     forall file' content,
       file' ∈ opts_Files
         (mkUploadOptions "acme" "img" "3.0" "container" ∅
            ["v1/base.tar.gz"; "v3/app.tar.gz"] "private") ->
       isContainerLayer file' = true ->
       filesD file' = Some content ->
       ReqHead (BlobURL
                  (baseURLOf
                     (mkUploadOptions "acme" "img" "3.0" "container" ∅
                        ["v1/base.tar.gz"; "v3/app.tar.gz"] "private"))
                  (digestOf toyHash content)) ∈ more).
Proof.
  apply (unreadable_layer_blocks_manifest registryServer filesD toyHash
           toyConfig toyManifest NewUploadManager noContext
           (mkUploadOptions "acme" "img" "3.0" "container" ∅
              ["v1/base.tar.gz"; "v3/app.tar.gz"] "private")
           (emptyRegistry, []) "v3/app.tar.gz").
  - apply elem_of_cons. right. apply elem_of_cons. by left.
  - reflexivity.
  - reflexivity.
Defined.

Example unreadable_layer_upload :
  ContainerUpload registryServer filesD toyHash toyConfig toyManifest
    NewUploadManager noContext
    (mkUploadOptions "acme" "img" "3.0" "container" ∅
       ["v3/app.tar.gz"; "v1/base.tar.gz"] "private")
    (emptyRegistry, [])
  = (Some (Errorf "layer upload failed: failed to stat file: stat v3/app.tar.gz: no such file or directory"),
     (mkRegistry {[ ("acme/img", "sha256:BASE-LAYER") ]}
                 {[ "/v2/uploads/0?s=1" := "acme/img" ]} [],
      [ReqHead (BlobURL "acme/img" "sha256:BASE-LAYER");
       ReqPost (UploadsURL "acme/img");
       ReqPut (SessionURL "/v2/uploads/0?s=1" "sha256:BASE-LAYER")
              mediaTypeLayer "BASE-LAYER"]),
     []).
Proof. vm_compute. reflexivity. Qed.

(** *** The manifest after the layers *)

Section Manifest.
Context {S : Type}.
Variable server : request -> S -> response * S.
Variable fs : string -> option string.
Variable sha256hex : string -> string.
Variable jsonConfig : list string -> gmap string string -> string.
Variable jsonManifest : ContainerManifest -> string.

Local Abbreviation uploadLayers := (api.uploadLayers server fs sha256hex).
Local Abbreviation uploadContainerManifest :=
  (api.uploadContainerManifest server jsonManifest).
Local Abbreviation ContainerUpload :=
  (api.ContainerUpload server fs sha256hex jsonConfig jsonManifest).

(** Each attempt of the manifest upload sends the same request. *)
Lemma retryLoop_manifest_puts m ctx url manifest (n : nat) :
  forall attempt lastErr (st : S * list request) res st' log,
    retryLoop m (uploadContainerManifest url manifest) ctx n attempt lastErr st
    = (res, st', log) ->
    snd st' = (snd st
               ++ replicate (attempts log)
                    (ReqPut (ManifestURL url) mediaTypeManifest
                            (jsonManifest manifest)))%list.
Proof.
  induction n as [|n IH]; intros attempt lastErr st res st' log H;
    cbn [retryLoop] in H.
  - injection H as <- <- <-. simpl. by rewrite app_nil_r.
  - pose proof (ContainerFacts.manifest_put_appends server jsonManifest
                  url manifest st) as Hput.
    destruct (uploadContainerManifest url manifest st) as [[err|] st1] eqn:Hfn;
      simpl in Hput.
    + destruct (ctx attempt) as [cerr|].
      * by injection H as <- <- <-.
      * destruct (retryLoop m _ ctx n (Datatypes.S attempt) (Some err) st1)
          as [[res1 st2] log1] eqn:Hrest.
        injection H as <- <- <-. rewrite (IH _ _ _ _ _ _ Hrest), Hput.
        change (attempts (RAttempt attempt (Some err)
                          :: RWait (retryDelay m * Z.of_nat (attempt + 1)) :: log1))
          with (Datatypes.S (attempts log1)).
        by rewrite <- app_assoc.
    + by injection H as <- <- <-.
Qed.

(** X: the requests of [ContainerUpload] are those of its layers followed
    by the manifest, PUT to the manifest URL of the options once for each
    attempt of the retry loop, at most [maxRetries] times and each time
    with the same body; no layer request comes after a manifest, and nil is
    returned only when a manifest has been sent. *)
Theorem manifest_after_layers (m : UploadManager) (ctx : nat -> option error)
        (opts : UploadOptions) (st : S * list request) res st' log :
  ContainerUpload m ctx opts st = (res, st', log) ->
  exists layerRequests body,
    snd st' = (snd st ++ layerRequests
               ++ replicate (attempts log)
                    (ReqPut (ManifestURL (manifestURLOf opts)) mediaTypeManifest
                            body))%list /\
    manifestPuts layerRequests = [] /\
    (attempts log <= maxRetries m)%nat /\
    (res = None -> (0 < attempts log)%nat).
Proof.
  unfold api.ContainerUpload.
  destruct (validateContainerUpload opts) as [verr|].
  { intros [= <- <- <-]. exists [], "". simpl. rewrite app_nil_r.
    repeat split; [unfold attempts; simpl; lia | done]. }
  fold (baseURLOf opts). fold (manifestURLOf opts).
  destruct (layers_requests server fs sha256hex (baseURLOf opts) (opts_Files opts) st)
    as (more & Hlog & Hm & _).
  destruct (uploadLayers (baseURLOf opts) (opts_Files opts) st)
    as [[layers layerErrors] st1].
  simpl in Hlog. destruct layerErrors as [|err errs].
  - unfold retryableUpload. intros H.
    destruct (EndFacts.retryLoop_bounded m _ ctx _ _ _ _ _ _ _ H)
      as (Hle & _ & Hres).
    exists more, (jsonManifest
                    (generateContainerManifest sha256hex jsonConfig layers opts)).
    rewrite (retryLoop_manifest_puts _ _ _ _ _ _ _ _ _ _ _ H), Hlog, <- app_assoc.
    repeat split; try done.
    intros Hnone. apply Hres in Hnone as [a Ha].
    destruct log as [|e log]; [done|]. unfold attempts.
    destruct (decide (0 < length (List.filter
                (fun e => match e with RAttempt _ _ => true | _ => false end)
                (e :: log))))%nat as [|Hz]; [done|].
    exfalso. assert (List.filter
                (fun e => match e with RAttempt _ _ => true | _ => false end)
                (e :: log) = []) as Hnil.
    { destruct (List.filter _ (e :: log)); [done | simpl in Hz; lia]. }
    apply last_Some in Ha as [l' Hl'].
    assert (In (RAttempt a None) (e :: log)) as Hin.
    { rewrite Hl'. apply in_or_app. right. by left. }
    assert (In (RAttempt a None)
               (List.filter (fun e => match e with RAttempt _ _ => true | _ => false end)
                            (e :: log))) as Hf.
    { apply filter_In. done. }
    by rewrite Hnil in Hf.
  - intros [= <- <- <-]. exists more, "". simpl. rewrite app_nil_r.
    repeat split; [done | done | unfold attempts; simpl; lia | done].
Qed.
End Manifest.

Lemma manifest_after_layers_witness :
  exists layerRequests body,
    snd (registryD1, logD1)
    = (snd (emptyRegistry, ([] : list request)) ++ layerRequests
       ++ replicate (attempts [RAttempt 0 None])
            (ReqPut (ManifestURL (manifestURLOf optsD1)) mediaTypeManifest body))%list /\
    manifestPuts layerRequests = [] /\
    (attempts [RAttempt 0 None] <= maxRetries NewUploadManager)%nat /\
    ((None : option error) = None -> (0 < attempts [RAttempt 0 None])%nat).
Proof.
  apply (manifest_after_layers registryServer filesD toyHash toyConfig toyManifest
           NewUploadManager noContext optsD1 (emptyRegistry, [])
           None (registryD1, logD1) [RAttempt 0 None]).
  vm_compute. reflexivity.
Defined.
End LayerFacts.


(** ** Maven uploads *)

Module MavenFacts.
Import GoStrings api.

Lemma Contains_slash_tail c s :
  Contains (String c s) "/" = false -> Contains s "/" = false.
Proof.
  intros H. cbn [Contains] in H.
  by destruct (String.prefix "/" (String c s)).
Qed.

Lemma lastElem_no_slash s : Contains s "/" = false -> lastElem s = s.
Proof.
  destruct s as [|c s]; [done|]. intros H.
  pose proof (Contains_slash_tail _ _ H) as Htail.
  cbn [lastElem]. rewrite Htail.
  cbn [Contains] in H. rewrite PkgFacts.prefix_char in H.
  by destruct (Ascii.eqb c "/"%char).
Qed.

Lemma lastElem_slash_free s : Contains (lastElem s) "/" = false.
Proof.
  induction s as [|c s IH]; [done|]. cbn [lastElem].
  destruct (Contains s "/") eqn:Hs; [done|].
  destruct (Ascii.eqb c "/"%char) eqn:Hc; [done|].
  cbn [Contains]. rewrite PkgFacts.prefix_char, Hc. done.
Qed.

Lemma fromLastDot_xml s :
  HasSuffix s "pom.xml" = true -> Contains s "/" = false ->
  fromLastDot s = Some ".xml".
Proof.
  induction s as [|c s IH]; [done|]. intros Hsuf Hslash.
  cbn [HasSuffix] in Hsuf.
  destruct (String.eqb (String c s) "pom.xml") eqn:Heq.
  - apply String.eqb_eq in Heq. by rewrite Heq.
  - cbn [fromLastDot].
    by rewrite (IH Hsuf (Contains_slash_tail _ _ Hslash)).
Qed.

Lemma HasSuffix_lastElem s :
  HasSuffix s "pom.xml" = true -> HasSuffix (lastElem s) "pom.xml" = true.
Proof.
  induction s as [|c s IH]; [done|]. intros Hsuf.
  cbn [HasSuffix] in Hsuf. cbn [lastElem].
  destruct (String.eqb (String c s) "pom.xml") eqn:Heq.
  - apply String.eqb_eq in Heq. injection Heq as -> ->. reflexivity.
  - destruct (Contains s "/"); [by apply IH|].
    destruct (Ascii.eqb c "/"%char); [done|].
    cbn [HasSuffix]. by rewrite Heq.
Qed.

(** A file named [pom.xml] has the extension [.xml]. *)
Lemma Ext_pom_xml s : HasSuffix s "pom.xml" = true -> Ext s = ".xml".
Proof.
  intros Hsuf. unfold Ext.
  by rewrite (fromLastDot_xml _ (HasSuffix_lastElem _ Hsuf)
                (lastElem_slash_free s)).
Qed.

Lemma findMavenFiles_no_pom files : forall pomFile jarFiles,
  Forall (fun file => HasSuffix file "pom.xml" = true \/ Ext file <> ".pom") files ->
  fst (findMavenFiles files pomFile jarFiles) = pomFile.
Proof.
  induction files as [|file rest IH]; intros pomFile jarFiles Hall; [done|].
  inversion Hall as [|? ? Hfile Hrest]; subst. cbn [findMavenFiles].
  assert (String.eqb (Ext file) ".pom" = false) as ->.
  { apply String.eqb_neq. destruct Hfile as [Hsuf|Hne]; [|done].
    by rewrite (Ext_pom_xml _ Hsuf). }
  destruct (String.eqb (Ext file) ".jar"); by apply IH.
Qed.

Section AnyServer.
Context {S : Type}.
Variable server : put -> S -> response * S.
Variable fs : string -> option string.
Variable xmlUnmarshal : string -> string + MavenPOM.
Variables md5hex sha1hex sha256hex : string -> string.
Variable mapOrder : list (string * string) -> list (string * string).

Local Abbreviation uploadFile := (api.uploadFile server).
Local Abbreviation uploadChecksums := (api.uploadChecksums server).
Local Abbreviation checksumsOf := (api.checksumsOf md5hex sha1hex sha256hex).
Local Abbreviation uploadMavenFile :=
  (api.uploadMavenFile server fs md5hex sha1hex sha256hex mapOrder).
Local Abbreviation MavenUpload :=
  (api.MavenUpload server fs xmlUnmarshal md5hex sha1hex sha256hex mapOrder).

Lemma uploadFile_log url content (st : S * list put) res st' :
  uploadFile url content st = (res, st') ->
  snd st' = (snd st ++ [Put url content])%list /\
  (res = None ->
   exists status location s1,
     server (Put url content) (fst st) = (Resp status location, s1) /\
     (status = StatusOK \/ status = StatusCreated)).
Proof.
  unfold api.uploadFile, msend.
  destruct (server (Put url content) (fst st)) as [[err|status location] s1].
  - intros [= <- <-]. done.
  - destruct (status =? StatusOK)%nat eqn:H200; simpl.
    + intros [= <- <-]. split; [done|]. intros _.
      apply Nat.eqb_eq in H200. eauto 6.
    + destruct (status =? StatusCreated)%nat eqn:H201; simpl.
      * intros [= <- <-]. split; [done|]. intros _.
        apply Nat.eqb_eq in H201. eauto 6.
      * intros [= <- <-]. done.
Qed.

Lemma uploadChecksums_log checksums : forall (st : S * list put) res st',
  uploadChecksums checksums st = (res, st') ->
  exists sums rest,
    checksums = (sums ++ rest)%list /\
    snd st' = (snd st ++ map toPut sums)%list /\
    (res = None -> rest = []).
Proof.
  induction checksums as [|[checksumURL checksumData] more IH];
    intros st res st' H; cbn [api.uploadChecksums] in H.
  - injection H as <- <-. exists [], []. simpl. by rewrite app_nil_r.
  - destruct (uploadFile checksumURL checksumData st) as [[err|] st1] eqn:Hput;
      destruct (uploadFile_log _ _ _ _ _ Hput) as [Hlog _].
    + injection H as <- <-.
      exists [(checksumURL, checksumData)], more. done.
    + destruct (IH _ _ _ H) as (sums & rest & -> & Hlog' & Hres).
      exists ((checksumURL, checksumData) :: sums), rest.
      split; [done|]. split; [|done].
      rewrite Hlog', Hlog, <- app_assoc. done.
Qed.

(** X: [uploadMavenFile] on a file it can read sends the artifact first
    and a checksum only when the server answered the artifact with 200 or
    201; the checksums it sends are among the MD5, SHA-1 and SHA-256 files
    of the artifact, each at most once, in the order the map gives them,
    and when it returns nil all three were sent: four requests in all. *)
Theorem checksums_follow_artifact (url file data : string)
        (st : S * list put) res st' :
  (forall l, mapOrder l ≡ₚ l) ->
  fs file = Some data ->
  uploadMavenFile url file st = (res, st') ->
  exists sums rest,
    snd st' = (snd st ++ Put url data :: map toPut sums)%list /\
    (sums ++ rest)%list ≡ₚ checksumsOf url data /\
    (res = None -> rest = [] /\ length (Put url data :: map toPut sums) = 4%nat) /\
    (sums <> [] ->
     exists status location s1,
       server (Put url data) (fst st) = (Resp status location, s1) /\
       (status = StatusOK \/ status = StatusCreated)).
Proof.
  intros Horder Hfs H. unfold api.uploadMavenFile in H. rewrite Hfs in H.
  destruct (uploadFile url data st) as [[err|] st1] eqn:Hput;
    destruct (uploadFile_log _ _ _ _ _ Hput) as [Hlog Hok].
  - injection H as <- <-. exists [], (mapOrder (checksumsOf url data)).
    split; [done|]. split; [apply Horder|]. done.
  - destruct (uploadChecksums_log _ _ _ _ H) as (sums & rest & Heq & Hlog' & Hres).
    exists sums, rest. split; [by rewrite Hlog', Hlog, <- app_assoc|].
    split; [rewrite <- Heq; apply Horder|]. split; [|by intros _; apply Hok].
    intros Hnone. specialize (Hres Hnone). subst rest. split; [done|].
    rewrite app_nil_r in Heq. simpl. rewrite length_map, <- Heq.
    by rewrite (Permutation_length (Horder _)).
Qed.

(** X: [MavenUpload] takes as POM a file whose extension is [.pom]. When
    no file of the upload has that extension, as when the POM is named
    [pom.xml], the file that [MavenValidator] requires, it sends nothing
    and returns the missing-POM error. *)
Theorem MavenUpload_needs_pom_extension (m : UploadManager)
        (ctx : nat -> option error) (opts : UploadOptions)
        (st : S * list put) :
  Forall (fun file => HasSuffix file "pom.xml" = true \/ Ext file <> ".pom")
         (opts_Files opts) ->
  MavenUpload m ctx opts st
  = (Some (Errorf "missing required pom.xml file"), st, []).
Proof.
  intros Hall. unfold api.MavenUpload.
  pose proof (findMavenFiles_no_pom (opts_Files opts) "" [] Hall) as Hpom.
  destruct (findMavenFiles (opts_Files opts) "" []) as [pomFile jarFiles].
  simpl in Hpom. by subst pomFile.
Qed.
End AnyServer.

Lemma checksums_follow_artifact_witness :
  exists sums rest,
    snd (snd (api.uploadMavenFile mavenServer filesD id id id id
                "acme/g/a/1.0/a.jar" "v1/app.tar.gz" ([], [])))
    = (snd (([] : list put), ([] : list put))
       ++ Put "acme/g/a/1.0/a.jar" "APP-1" :: map toPut sums)%list /\
    (sums ++ rest)%list ≡ₚ checksumsOf id id id "acme/g/a/1.0/a.jar" "APP-1" /\
    (fst (api.uploadMavenFile mavenServer filesD id id id id
            "acme/g/a/1.0/a.jar" "v1/app.tar.gz" ([], [])) = None ->
     rest = [] /\
     length (Put "acme/g/a/1.0/a.jar" "APP-1" :: map toPut sums) = 4%nat) /\
    (sums <> [] ->
     exists status location s1,
       mavenServer (Put "acme/g/a/1.0/a.jar" "APP-1")
                   (fst (([] : list put), ([] : list put)))
       = (Resp status location, s1) /\
       (status = StatusOK \/ status = StatusCreated)).
Proof.
  apply (checksums_follow_artifact mavenServer filesD id id id id
           "acme/g/a/1.0/a.jar" "v1/app.tar.gz" "APP-1" ([], [])).
  - intros l. reflexivity.
  - reflexivity.
  - reflexivity.
Defined.

Lemma MavenUpload_needs_pom_extension_witness :
  api.MavenUpload mavenServer filesD (fun _ => inl "no element found") id id id id
    NewUploadManager noContext
    (mkUploadOptions "acme" "org.acme:lib" "1.0" "maven" ∅
       ["lib/pom.xml"; "lib/lib-1.0.jar"] "private")
    ([], [])
  = (Some (Errorf "missing required pom.xml file"), ([], []), []).
Proof.
  apply (MavenUpload_needs_pom_extension mavenServer filesD
           (fun _ => inl "no element found") id id id id
           NewUploadManager noContext
           (mkUploadOptions "acme" "org.acme:lib" "1.0" "maven" ∅
              ["lib/pom.xml"; "lib/lib-1.0.jar"] "private")
           ([], [])).
  constructor; [left; reflexivity|].
  constructor; [right; vm_compute; discriminate|]. constructor.
Defined.

(** *** Where MavenUpload puts its files *)

Lemma append_assoc (a b c : string) : ((a ++ b) ++ c = a ++ (b ++ c))%string.
Proof.
  induction a as [|x a IH]; [done|].
  change (String x ((a ++ b) ++ c) = String x (a ++ (b ++ c)))%string.
  by rewrite IH.
Qed.

Lemma append_nil_r (a : string) : (a ++ "")%string = a.
Proof.
  induction a as [|x a IH]; [done|].
  change (String x (a ++ "") = String x a)%string. by rewrite IH.
Qed.

Lemma prefix_iff (a b : string) :
  String.prefix a b = true <-> exists c, b = (a ++ c)%string.
Proof.
  revert b. induction a as [|x a IH]; intros b.
  - split; [intros _; by exists b | intros _; by destruct b].
  - destruct b as [|y b]; cbn [String.prefix].
    + split; [done | intros [c Hc]; discriminate Hc].
    + destruct (ascii_dec x y) as [->|Hne].
      * rewrite IH. split; intros [c Hc]; exists c.
        -- change (String y b = String y (a ++ c))%string. by rewrite Hc.
        -- change (String y b = String y (a ++ c))%string in Hc.
           by injection Hc.
      * split; [done|]. intros [c Hc].
        change (String y b = String x (a ++ c))%string in Hc.
        injection Hc as Hxy _. by symmetry in Hxy.
Qed.

Lemma prefix_under (a b c : string) :
  String.prefix (a ++ b) c = true -> String.prefix a c = true.
Proof.
  rewrite !prefix_iff. intros [d ->]. exists (b ++ d)%string.
  apply append_assoc.
Qed.

Lemma findMavenFiles_pom files : forall pomFile jarFiles,
  fst (findMavenFiles files pomFile jarFiles) = pomFile \/
  (fst (findMavenFiles files pomFile jarFiles) ∈ files /\
   Ext (fst (findMavenFiles files pomFile jarFiles)) = ".pom").
Proof.
  induction files as [|file rest IH]; intros pomFile jarFiles; [by left|].
  cbn [findMavenFiles]. destruct (String.eqb (Ext file) ".pom") eqn:Hpom.
  - apply String.eqb_eq in Hpom. right.
    destruct (IH file jarFiles) as [->|[Hin Hext]].
    + split; [apply elem_of_cons; by left | done].
    + split; [apply elem_of_cons; by right | done].
  - destruct (String.eqb (Ext file) ".jar").
    + destruct (IH pomFile (jarFiles ++ [file])%list) as [->|[Hin Hext]];
        [by left|].
      right. split; [apply elem_of_cons; by right | done].
    + destruct (IH pomFile jarFiles) as [->|[Hin Hext]]; [by left|].
      right. split; [apply elem_of_cons; by right | done].
Qed.

Section Urls.
Context {S : Type}.
Variable server : put -> S -> response * S.
Variable fs : string -> option string.
Variable xmlUnmarshal : string -> string + MavenPOM.
Variables md5hex sha1hex sha256hex : string -> string.
Variable mapOrder : list (string * string) -> list (string * string).
Hypothesis mapOrder_permutation : forall l, mapOrder l ≡ₚ l.

Local Abbreviation uploadFile := (api.uploadFile server).
Local Abbreviation uploadChecksums := (api.uploadChecksums server).
Local Abbreviation checksumsOf := (api.checksumsOf md5hex sha1hex sha256hex).
Local Abbreviation uploadMavenFile :=
  (api.uploadMavenFile server fs md5hex sha1hex sha256hex mapOrder).
Local Abbreviation uploadJars :=
  (api.uploadJars server fs md5hex sha1hex sha256hex mapOrder).
Local Abbreviation parseMavenPOM := (api.parseMavenPOM fs xmlUnmarshal).
Local Abbreviation MavenUpload :=
  (api.MavenUpload server fs xmlUnmarshal md5hex sha1hex sha256hex mapOrder).

(** The requests of [uploadMavenFile] go to [url] and to its checksums. *)
Lemma uploadMavenFile_urls url file (st : S * list put) :
  exists more,
    snd (snd (uploadMavenFile url file st)) = (snd st ++ more)%list /\
    Forall (fun r => String.prefix url (putURL r) = true) more /\
    (forall data, fs file = Some data -> exists more', more = Put url data :: more').
Proof.
  unfold api.uploadMavenFile. destruct (fs file) as [data|].
  2:{ exists []. rewrite app_nil_r. done. }
  assert (String.prefix url url = true) as Hself.
  { apply prefix_iff. exists "". by rewrite append_nil_r. }
  destruct (uploadFile url data st) as [[err|] st1] eqn:Hput;
    destruct (uploadFile_log server _ _ _ _ _ Hput) as [Hlog _].
  - exists [Put url data]. split; [done|]. split; [by repeat constructor|].
    intros ? [= <-]. by exists [].
  - destruct (uploadChecksums (mapOrder (checksumsOf url data)) st1)
      as [res st2] eqn:Hsums.
    destruct (uploadChecksums_log server _ _ _ _ Hsums)
      as (sums & rest & Heq & Hlog' & _).
    exists (Put url data :: map toPut sums). simpl.
    split; [by rewrite Hlog', Hlog, <- app_assoc|]. split.
    + constructor; [done|]. apply Forall_forall. intros r Hr.
      apply list_elem_of_In, in_map_iff in Hr as ([u d] & <- & Hin).
      assert ((u, d) ∈ checksumsOf url data) as Hmem.
      { rewrite <- (mapOrder_permutation (checksumsOf url data)), Heq.
        apply elem_of_app. left. by apply list_elem_of_In. }
      unfold api.checksumsOf in Hmem. simpl.
      repeat (apply elem_of_cons in Hmem as [[= -> ->]|Hmem];
              [apply prefix_iff; eauto|]).
      by apply elem_of_nil in Hmem.
    + intros ? [= <-]. eauto.
Qed.

Lemma retryLoop_maven_urls m ctx url file (n : nat) :
  forall attempt lastErr (st : S * list put),
  exists more,
    snd (snd (fst (retryLoop m (uploadMavenFile url file) ctx n attempt lastErr st)))
    = (snd st ++ more)%list /\
    Forall (fun r => String.prefix url (putURL r) = true) more /\
    (forall data, fs file = Some data ->
                  n = 0%nat \/ exists more', more = Put url data :: more') /\
    (n = 0%nat ->
     more = [] /\
     fst (fst (retryLoop m (uploadMavenFile url file) ctx n attempt lastErr st))
     <> None).
Proof.
  induction n as [|n IH]; intros attempt lastErr st.
  - exists []. simpl. rewrite app_nil_r. repeat split; eauto.
  - cbn [retryLoop].
    destruct (uploadMavenFile_urls url file st) as (more1 & Hlog1 & Hall1 & Hfirst).
    destruct (uploadMavenFile url file st) as [[err|] st1]; simpl in Hlog1.
    + destruct (ctx attempt) as [cerr|].
      * exists more1. simpl. repeat split; [done | done | | done | done].
        intros data Hd. right. by apply Hfirst.
      * destruct (IH (Datatypes.S attempt) (Some err) st1)
          as (more2 & Hlog2 & Hall2 & _).
        destruct (retryLoop m _ ctx n (Datatypes.S attempt) (Some err) st1)
          as [[res st2] log2]. simpl in *.
        exists (more1 ++ more2)%list.
        split; [by rewrite Hlog2, Hlog1, <- app_assoc|].
        split; [by apply Forall_app|]. split; [|done].
        intros data Hd. right. destruct (Hfirst data Hd) as [more' ->]. eauto.
    + exists more1. simpl. repeat split; [done | done | | done | done].
      intros data Hd. right. by apply Hfirst.
Qed.

Lemma uploadJars_urls m ctx dir jarFiles : forall (st : S * list put),
  exists more,
    snd (snd (fst (uploadJars m ctx dir jarFiles st))) = (snd st ++ more)%list /\
    Forall (fun r => String.prefix (dir ++ "/") (putURL r) = true) more.
Proof.
  induction jarFiles as [|jarFile rest IH]; intros st.
  - exists []. simpl. by rewrite app_nil_r.
  - cbn [api.uploadJars]. unfold retryableUpload.
    destruct (retryLoop_maven_urls m ctx (dir ++ "/" ++ Base jarFile) jarFile
                (maxRetries m) 0 None st) as (more1 & Hlog1 & Hall1 & _).
    destruct (retryLoop m (uploadMavenFile (dir ++ "/" ++ Base jarFile) jarFile)
                        ctx (maxRetries m) 0 None st) as [[res st1] log1].
    simpl in Hlog1.
    destruct (IH st1) as (more2 & Hlog2 & Hall2).
    destruct (uploadJars m ctx dir rest st1) as [[uploadErrors st2] log2].
    simpl in Hlog2. exists (more1 ++ more2)%list.
    split; [destruct res; simpl; by rewrite Hlog2, Hlog1, <- app_assoc|].
    apply Forall_app. split; [|done].
    eapply Forall_impl; [exact Hall1|]. intros r Hr. simpl in Hr.
    apply (prefix_under _ (Base jarFile)). by rewrite append_assoc.
Qed.

(** X: whatever [MavenUpload] sends goes under
    [organization/groupId/artifactId/version/], for a POM file of extension
    [.pom] among the files of the upload that parses with an artifact id and
    a group id, the group id being that of the project or, when the project
    has none, that of its parent; neither is empty; and the first request is
    the PUT of that POM to [pom.xml] in this directory. *)
Theorem MavenUpload_urls (m : UploadManager) (ctx : nat -> option error)
        (opts : UploadOptions) (st : S * list put) :
  exists more,
    snd (snd (fst (MavenUpload m ctx opts st))) = (snd st ++ more)%list /\
    (more <> [] ->
     exists pomFile data pom groupID,
       pomFile ∈ opts_Files opts /\ Ext pomFile = ".pom" /\
       fs pomFile = Some data /\ xmlUnmarshal data = inr pom /\
       pom_ArtifactID pom <> "" /\ groupID <> "" /\
       (groupID = pom_GroupID pom \/
        (pom_GroupID pom = "" /\
         exists parent, pom_Parent pom = Some parent /\
                        groupID = parent_GroupID parent)) /\
       (exists more',
           more = Put (opts_Organization opts ++ "/" ++ groupID ++ "/"
                       ++ pom_ArtifactID pom ++ "/" ++ opts_Version opts
                       ++ "/pom.xml") data :: more') /\
       Forall (fun r => String.prefix
                          (opts_Organization opts ++ "/" ++ groupID ++ "/"
                           ++ pom_ArtifactID pom ++ "/" ++ opts_Version opts
                           ++ "/") (putURL r) = true) more).
Proof.
  unfold api.MavenUpload.
  destruct (findMavenFiles_pom (opts_Files opts) "" []) as [Hp|[Hin Hext]];
    destruct (findMavenFiles (opts_Files opts) "" []) as [pomFile jarFiles];
    simpl in *.
  { subst pomFile. exists []. rewrite app_nil_r. done. }
  destruct (String.eqb pomFile ""); [exists []; by rewrite app_nil_r|].
  destruct (parseMavenPOM pomFile) as [[groupID artifactID]|perr] eqn:Hparse;
    [|exists []; by rewrite app_nil_r].
  unfold api.parseMavenPOM in Hparse.
  destruct (fs pomFile) as [data|] eqn:Hfs; [|done].
  destruct (xmlUnmarshal data) as [xerr|pom] eqn:Hxml; [done|].
  simpl in Hparse.
  set (group := if String.eqb (pom_GroupID pom) "" then
                  match pom_Parent pom with
                  | Some parent => parent_GroupID parent
                  | None => pom_GroupID pom
                  end
                else pom_GroupID pom) in *.
  destruct (String.eqb group "") eqn:Hg; [done|].
  destruct (String.eqb (pom_ArtifactID pom) "") eqn:Ha; [done|].
  injection Hparse as <- <-.
  apply String.eqb_neq in Hg, Ha.
  set (dir := (opts_Organization opts ++ "/" ++ group ++ "/"
               ++ pom_ArtifactID pom ++ "/" ++ opts_Version opts)%string).
  assert (forall tail : string,
             (opts_Organization opts ++ "/" ++ group ++ "/"
              ++ pom_ArtifactID pom ++ "/" ++ opts_Version opts ++ tail
              = dir ++ tail)%string) as Hdir.
  { intros tail. unfold dir. by rewrite !append_assoc. }
  unfold retryableUpload.
  destruct (retryLoop_maven_urls m ctx (dir ++ "/pom.xml") pomFile
              (maxRetries m) 0 None st) as (more1 & Hlog1 & Hall1 & Hfirst & Hzero).
  destruct (retryLoop m (uploadMavenFile (dir ++ "/pom.xml") pomFile)
                      ctx (maxRetries m) 0 None st) as [[res st1] log1].
  simpl in Hlog1, Hzero.
  assert (Forall (fun r => String.prefix (dir ++ "/") (putURL r) = true) more1)
    as Hall1'.
  { eapply Forall_impl; [exact Hall1|]. intros r Hr. simpl in Hr.
    apply (prefix_under _ "pom.xml"). by rewrite append_assoc. }
  assert (group = pom_GroupID pom \/
          (pom_GroupID pom = "" /\
           exists parent, pom_Parent pom = Some parent /\
                          group = parent_GroupID parent)) as Hgroup.
  { unfold group. destruct (String.eqb (pom_GroupID pom) "") eqn:Hown; [|by left].
    apply String.eqb_eq in Hown.
    destruct (pom_Parent pom) as [parent|]; [right; eauto | by left]. }
  assert (forall more2,
             Forall (fun r => String.prefix (dir ++ "/") (putURL r) = true) more2 ->
             (res <> None -> more2 = []) ->
             (more1 ++ more2)%list <> [] ->
             exists pomFile0 data0 pom0 groupID,
               pomFile0 ∈ opts_Files opts /\ Ext pomFile0 = ".pom" /\
               fs pomFile0 = Some data0 /\ xmlUnmarshal data0 = inr pom0 /\
               pom_ArtifactID pom0 <> "" /\ groupID <> "" /\
               (groupID = pom_GroupID pom0 \/
                (pom_GroupID pom0 = "" /\
                 exists parent, pom_Parent pom0 = Some parent /\
                                groupID = parent_GroupID parent)) /\
               (exists more',
                   (more1 ++ more2)%list
                   = Put (opts_Organization opts ++ "/" ++ groupID ++ "/"
                          ++ pom_ArtifactID pom0 ++ "/" ++ opts_Version opts
                          ++ "/pom.xml") data0 :: more') /\
               Forall (fun r => String.prefix
                                  (opts_Organization opts ++ "/" ++ groupID ++ "/"
                                   ++ pom_ArtifactID pom0 ++ "/" ++ opts_Version opts
                                   ++ "/") (putURL r) = true) (more1 ++ more2))
    as Hfinish.
  { intros more2 Hall2 Hstop Hne. exists pomFile, data, pom, group.
    rewrite !Hdir. repeat split; try done.
    - destruct (Hfirst data Hfs) as [H0|[more' ->]]; [|by eexists].
      (* no attempt was made: the upload stopped at the POM *)
      destruct (Hzero H0) as [-> Hres]. rewrite (Hstop Hres) in Hne. done.
    - by apply Forall_app. }
  destruct res as [err|].
  - exists more1. split; [done|]. intros Hne.
    specialize (Hfinish [] ltac:(constructor) ltac:(done)).
    rewrite app_nil_r in Hfinish. by apply Hfinish.
  - destruct (uploadJars_urls m ctx dir jarFiles st1) as (more2 & Hlog2 & Hall2).
    destruct (uploadJars m ctx dir jarFiles st1) as [[uploadErrors st2] log2].
    simpl in Hlog2. exists (more1 ++ more2)%list.
    split; [destruct uploadErrors; simpl; by rewrite Hlog2, Hlog1, <- app_assoc|].
    apply Hfinish; [done|]. intros Hc. done.
Qed.
End Urls.

Lemma MavenUpload_urls_witness :
  exists more,
    snd (snd (fst (api.MavenUpload mavenServer libFiles libXml id id id id
                     NewUploadManager noContext libOpts ([], []))))
    = (snd (([] : list put), ([] : list put)) ++ more)%list /\
    (more <> [] ->
     exists pomFile data pom groupID,
       pomFile ∈ opts_Files libOpts /\ Ext pomFile = ".pom" /\
       libFiles pomFile = Some data /\ libXml data = inr pom /\
       pom_ArtifactID pom <> "" /\ groupID <> "" /\
       (groupID = pom_GroupID pom \/
        (pom_GroupID pom = "" /\
         exists parent, pom_Parent pom = Some parent /\
                        groupID = parent_GroupID parent)) /\
       (exists more',
           more = Put (opts_Organization libOpts ++ "/" ++ groupID ++ "/"
                       ++ pom_ArtifactID pom ++ "/" ++ opts_Version libOpts
                       ++ "/pom.xml") data :: more') /\
       Forall (fun r => String.prefix
                          (opts_Organization libOpts ++ "/" ++ groupID ++ "/"
                           ++ pom_ArtifactID pom ++ "/" ++ opts_Version libOpts
                           ++ "/") (putURL r) = true) more).
Proof.
  apply (MavenUpload_urls mavenServer libFiles libXml id id id id
           (fun l => reflexivity l) NewUploadManager noContext libOpts ([], [])).
Defined.

Example MavenUpload_library :
  api.MavenUpload mavenServer libFiles libXml id id id id
    NewUploadManager noContext libOpts ([], [])
  = (None,
     (map (fun ub => Put (fst ub) (snd ub))
          [("acme/org.acme/lib/1.0/pom.xml", "<project/>");
           ("acme/org.acme/lib/1.0/pom.xml.md5", "<project/>");
           ("acme/org.acme/lib/1.0/pom.xml.sha1", "<project/>");
           ("acme/org.acme/lib/1.0/pom.xml.sha256", "<project/>");
           ("acme/org.acme/lib/1.0/lib-1.0.jar", "JAR");
           ("acme/org.acme/lib/1.0/lib-1.0.jar.md5", "JAR");
           ("acme/org.acme/lib/1.0/lib-1.0.jar.sha1", "JAR");
           ("acme/org.acme/lib/1.0/lib-1.0.jar.sha256", "JAR")],
      map (fun ub => Put (fst ub) (snd ub))
          [("acme/org.acme/lib/1.0/pom.xml", "<project/>");
           ("acme/org.acme/lib/1.0/pom.xml.md5", "<project/>");
           ("acme/org.acme/lib/1.0/pom.xml.sha1", "<project/>");
           ("acme/org.acme/lib/1.0/pom.xml.sha256", "<project/>");
           ("acme/org.acme/lib/1.0/lib-1.0.jar", "JAR");
           ("acme/org.acme/lib/1.0/lib-1.0.jar.md5", "JAR");
           ("acme/org.acme/lib/1.0/lib-1.0.jar.sha1", "JAR");
           ("acme/org.acme/lib/1.0/lib-1.0.jar.sha256", "JAR")]),
     [RAttempt 0 None; RAttempt 0 None]).
Proof. vm_compute. reflexivity. Qed.
End MavenFacts.


(** ** The dispatcher of uploads *)

Module DispatchFacts.
Import GoStrings api.

Section Dispatch.
Context {W : Type}.
Variable stat : string -> string + Z.
Variables uploadContainer uploadNpm uploadMaven uploadNuGet uploadRubyGems :
  UploadOptions -> W -> option error * W.

Local Abbreviation checkFileSizes := (api.checkFileSizes stat).
Local Abbreviation UploadPackageVersion :=
  (api.UploadPackageVersion stat uploadContainer uploadNpm uploadMaven
                            uploadNuGet uploadRubyGems).
Local Abbreviation uploaderOf :=
  (api.uploaderOf uploadContainer uploadNpm uploadMaven uploadNuGet
                  uploadRubyGems).

Lemma checkFileSizes_None maxSize files :
  checkFileSizes maxSize files = None <->
  Forall (fun file => exists size, stat file = inr size /\ size <= maxSize) files.
Proof.
  induction files as [|file rest IH]; cbn [api.checkFileSizes].
  - split; [constructor | done].
  - destruct (stat file) as [err|size] eqn:Hstat.
    + split; [done|]. intros H. inversion H as [|? ? (size & Hs & _) _].
      congruence.
    + destruct (maxSize <? size) eqn:Hlt.
      * apply Z.ltb_lt in Hlt. split; [done|]. intros H.
        inversion H as [|? ? (size' & Hs & Hle) _].
        assert (size' = size) by congruence. lia.
      * apply Z.ltb_ge in Hlt. rewrite IH. split.
        -- intros H. constructor; [eauto | done].
        -- intros H. by inversion H.
Qed.

Lemma checkFileSizes_Some maxSize files err :
  checkFileSizes maxSize files = Some err ->
  exists before file after,
    files = (before ++ file :: after)%list /\
    Forall (fun file => exists size, stat file = inr size /\ size <= maxSize)
           before /\
    ~ (exists size, stat file = inr size /\ size <= maxSize).
Proof.
  induction files as [|file rest IH]; cbn [api.checkFileSizes]; [done|].
  destruct (stat file) as [e|size] eqn:Hstat.
  - intros _. exists [], file, rest. split; [done|]. split; [constructor|].
    intros (size & Hs & _). congruence.
  - destruct (maxSize <? size) eqn:Hlt.
    + apply Z.ltb_lt in Hlt. intros _. exists [], file, rest.
      split; [done|]. split; [constructor|].
      intros (size' & Hs & Hle). assert (size' = size) by congruence. lia.
    + apply Z.ltb_ge in Hlt. intros H.
      destruct (IH H) as (before & file' & after & -> & Hb & Hbad).
      exists (file :: before), file', after. split; [done|].
      split; [constructor; eauto | done].
Qed.

(** X: [UploadPackageVersion] runs an uploader only when the package type
    is one of the five and every file of the upload can be stat'ed and is
    no larger than the size limit of that type's validator, and then it is
    the uploader of that type; otherwise it leaves the world as it is and
    returns an error, for the type or for the first file that cannot be
    stat'ed or is too large. Its last case, for a type that matches none,
    is never reached. *)
Theorem dispatch_only_within_limits (opts : UploadOptions) (w : W) res w' :
  UploadPackageVersion opts w = (res, w') ->
  (exists maxSize upload,
      maxFileSizeOf (opts_PackageType opts) = Some maxSize /\
      uploaderOf (opts_PackageType opts) = Some upload /\
      Forall (fun file => exists size, stat file = inr size /\ size <= maxSize)
             (opts_Files opts) /\
      (res, w') = upload opts w) \/
  (w' = w /\
   exists err,
     res = Some err /\
     ((maxFileSizeOf (opts_PackageType opts) = None /\
       err = Errorf ("invalid package type: unsupported package type: "
                     ++ opts_PackageType opts)) \/
      (exists maxSize before file after,
          maxFileSizeOf (opts_PackageType opts) = Some maxSize /\
          opts_Files opts = (before ++ file :: after)%list /\
          Forall (fun file => exists size, stat file = inr size /\ size <= maxSize)
                 before /\
          ~ (exists size, stat file = inr size /\ size <= maxSize)))).
Proof.
  unfold api.UploadPackageVersion, maxFileSizeOf, api.uploaderOf.
  destruct (pkg.GetValidator (opts_PackageType opts)) as [validator|gerr] eqn:Hg.
  - destruct (checkFileSizes (pkg.V_GetMaxFileSize validator) (opts_Files opts))
      as [err|] eqn:Hsizes.
    + intros [= <- <-]. right. split; [done|]. exists err. split; [done|]. right.
      destruct (checkFileSizes_Some _ _ _ Hsizes) as (before & file & after & H).
      exists (pkg.V_GetMaxFileSize validator), before, file, after. done.
    + apply checkFileSizes_None in Hsizes. intros H. left.
      exists (pkg.V_GetMaxFileSize validator).
      unfold pkg.GetValidator in Hg.
      repeat match type of Hg with
             | context [String.eqb ?a ?t] =>
                 destruct (String.eqb a t); [eexists; by rewrite H|]
             end.
      done.
  - intros [= <- <-]. right. split; [done|]. eexists. split; [done|]. left.
    split; [done|]. unfold pkg.GetValidator in Hg.
    repeat match type of Hg with
           | context [String.eqb ?a ?t] => destruct (String.eqb a t); [done|]
           end.
    by injection Hg as <-.
Qed.
End Dispatch.

Lemma dispatch_only_within_limits_witness :
  let stat := fun file : string =>
                if String.eqb file "lib.nupkg" then inr (300 * 1024 * 1024)
                else inl ("stat " ++ file ++ ": no such file or directory") in
  let upload := fun (_ : UploadOptions) (w : nat) => (None : option error, S w) in
  let opts := mkUploadOptions "acme" "Lib" "1.0" "nuget" ∅ ["lib.nupkg"] "private" in
  (exists maxSize upload',
      maxFileSizeOf (opts_PackageType opts) = Some maxSize /\
      uploaderOf upload upload upload upload upload (opts_PackageType opts)
      = Some upload' /\
      Forall (fun file => exists size, stat file = inr size /\ size <= maxSize)
             (opts_Files opts) /\
      (Some (Errorf "file lib.nupkg exceeds maximum size of 262144000 bytes"),
       0%nat) = upload' opts 0%nat) \/
  (0%nat = 0%nat /\
   exists err,
     Some (Errorf "file lib.nupkg exceeds maximum size of 262144000 bytes")
     = Some err /\
     ((maxFileSizeOf (opts_PackageType opts) = None /\
       err = Errorf ("invalid package type: unsupported package type: "
                     ++ opts_PackageType opts)) \/
      (exists maxSize before file after,
          maxFileSizeOf (opts_PackageType opts) = Some maxSize /\
          opts_Files opts = (before ++ file :: after)%list /\
          Forall (fun file => exists size, stat file = inr size /\ size <= maxSize)
                 before /\
          ~ (exists size, stat file = inr size /\ size <= maxSize)))).
Proof.
  intros stat upload opts.
  apply (dispatch_only_within_limits stat upload upload upload upload upload
           opts 0%nat).
  vm_compute. reflexivity.
Defined.
End DispatchFacts.


(** ** The exported CSV files *)

Module ExportFacts.
Import GoStrings api export.

(** Every package that the fetch loop builds has its repository and its
    statistics. *)
Lemma fetchLoop_pointers (responses : list (error + PackageQuery)) :
  forall after packages sent result cursors,
    Forall (fun p => is_Some (pkg_Repository p) /\ is_Some (pkg_Statistics p))
           packages ->
    fetchLoop responses after packages sent = Some (inl result, cursors) ->
    Forall (fun p => is_Some (pkg_Repository p) /\ is_Some (pkg_Statistics p))
           result.
Proof.
  induction responses as [|r rest IH];
    intros after packages sent result cursors Hall H; cbn [fetchLoop] in H;
    [done|].
  destruct r as [err|query]; [done|].
  assert (Forall (fun p => is_Some (pkg_Repository p) /\ is_Some (pkg_Statistics p))
                 (packages ++ map packageOfNode (Nodes query))) as Hall'.
  { apply Forall_app. split; [done|]. apply Forall_forall. intros p Hp.
    apply list_elem_of_In, in_map_iff in Hp as (node & <- & _). simpl. eauto. }
  destruct (negb (HasNextPage query)).
  - by injection H as <- <-.
  - by apply (IH _ _ _ _ _ Hall' H).
Qed.

Lemma getTotalVersions_foldl (packages : list Package) : forall n,
  foldl (fun total p => (total + length (pkg_Versions p))%nat) n packages
  = (n + getTotalVersions packages)%nat.
Proof.
  unfold getTotalVersions.
  induction packages as [|p rest IH]; intros n; simpl; [lia|].
  rewrite IH, (IH (length (pkg_Versions p))). lia.
Qed.

Section CSV.
Variable create : string -> option error.
Variable writeErr : nat -> option error.

Local Abbreviation write := (export.write writeErr).
Local Abbreviation writePackages := (export.writePackages writeErr).
Local Abbreviation createPackagesCSV := (export.createPackagesCSV create writeErr).
Local Abbreviation writeVersionsOf := (export.writeVersionsOf writeErr).
Local Abbreviation writeVersions := (export.writeVersions writeErr).
Local Abbreviation createVersionsCSV := (export.createVersionsCSV create writeErr).

Lemma writePackages_rows (packages : list Package) : forall rows,
  Forall (fun p => is_Some (pkg_Repository p) /\ is_Some (pkg_Statistics p))
         packages ->
  (exists res, fst (writePackages packages rows) = Ok res) /\
  ((forall n, writeErr n = None) ->
   exists more, writePackages packages rows = (Ok None, (rows ++ more)%list) /\
                length more = length packages).
Proof.
  induction packages as [|p rest IH]; intros rows Hall.
  - split; [by exists None|]. intros _. exists []. by rewrite app_nil_r.
  - inversion Hall as [|? ? [[repository Hr] [statistics Hs]] Hrest]; subst.
    cbn [export.writePackages]. unfold packageRow. rewrite Hr, Hs.
    unfold export.write.
    destruct (IH (rows ++ [[pkg_ID p; pkg_Name p; pkg_PackageType p;
                            repo_Name repository; repo_URL repository;
                            pretty (stat_DownloadsCount statistics);
                            pretty (length (pkg_Versions p))]])%list Hrest)
      as [Hok Hrows].
    split.
    + destruct (writeErr (length rows)); [by eexists | done].
    + intros Hnone. rewrite Hnone. destruct (Hrows Hnone) as (more & -> & Hlen).
      eexists (_ :: more). rewrite <- app_assoc. split; [done|]. simpl. lia.
Qed.

Lemma writeVersionsOf_rows p (versions : list Version) : forall rows,
  (forall n, writeErr n = None) ->
  exists more, writeVersionsOf p versions rows = (None, (rows ++ more)%list) /\
               length more = length versions.
Proof.
  induction versions as [|ver rest IH]; intros rows Hnone.
  - exists []. by rewrite app_nil_r.
  - cbn [export.writeVersionsOf]. unfold export.write. rewrite Hnone.
    destruct (IH (rows ++ [versionRow p ver])%list Hnone) as (more & -> & Hlen).
    eexists (_ :: more). rewrite <- app_assoc. split; [done|]. simpl. lia.
Qed.

Lemma writeVersions_rows (packages : list Package) : forall rows,
  (forall n, writeErr n = None) ->
  exists more, writeVersions packages rows = (None, (rows ++ more)%list) /\
               length more = getTotalVersions packages.
Proof.
  induction packages as [|p rest IH]; intros rows Hnone.
  - exists []. by rewrite app_nil_r.
  - cbn [export.writeVersions].
    destruct (writeVersionsOf_rows p (pkg_Versions p) rows Hnone)
      as (more1 & -> & Hlen1).
    destruct (IH (rows ++ more1)%list Hnone) as (more2 & -> & Hlen2).
    exists (more1 ++ more2)%list. rewrite <- app_assoc. split; [done|].
    rewrite length_app, Hlen1, Hlen2. unfold getTotalVersions at 2.
    simpl. by rewrite getTotalVersions_foldl.
Qed.

(** X: on the packages that [GetOrganizationPackages] returns,
    [createPackagesCSV] never dereferences a nil [Repository] or
    [Statistics], whatever [os.Create] and the writes do; when none of
    them fails the packages file has one row for each package under its
    header and the versions file one row for each version of each package,
    [getTotalVersions] in all, under its header. *)
Theorem fetched_packages_export (responses : list (error + PackageQuery))
        (packages : list Package) (cursors : list (option string))
        (prefix : string) :
  GetOrganizationPackages responses = Some (inl packages, cursors) ->
  (exists res, fst (createPackagesCSV prefix packages) = Ok res) /\
  (create (prefix ++ "_packages.csv") = None ->
   create (prefix ++ "_versions.csv") = None ->
   (forall n, writeErr n = None) ->
   exists rows vrows,
     createPackagesCSV prefix packages = (Ok None, packagesHeader :: rows) /\
     length rows = length packages /\
     createVersionsCSV prefix packages = (None, versionsHeader :: vrows) /\
     length vrows = getTotalVersions packages).
Proof.
  intros Hfetch.
  assert (Forall (fun p => is_Some (pkg_Repository p) /\ is_Some (pkg_Statistics p))
                 packages) as Hall.
  { by apply (fetchLoop_pointers responses None [] [] packages cursors). }
  split.
  - unfold export.createPackagesCSV, export.write.
    destruct (create _); [by eexists|]. simpl.
    destruct (writeErr 0); [by eexists|].
    apply (writePackages_rows packages _ Hall).
  - intros Hp Hv Hnone.
    unfold export.createPackagesCSV, export.createVersionsCSV, export.write.
    rewrite Hp, Hv, Hnone. cbn [app].
    destruct (writePackages_rows packages [packagesHeader] Hall) as [_ Hrows].
    destruct (Hrows Hnone) as (rows & -> & Hlen).
    destruct (writeVersions_rows packages [versionsHeader] Hnone)
      as (vrows & -> & Hvlen).
    exists rows, vrows. done.
Qed.
End CSV.

Lemma fetched_packages_export_witness :
  (exists res,
      fst (createPackagesCSV noError noError "acme"
             [packageOfNode nodeA; packageOfNode nodeB; packageOfNode nodeC])
      = Ok res) /\
  (noError ("acme" ++ "_packages.csv") = None ->
   noError ("acme" ++ "_versions.csv") = None ->
   (forall n : nat, noError n = None) ->
   exists rows vrows,
     createPackagesCSV noError noError "acme"
       [packageOfNode nodeA; packageOfNode nodeB; packageOfNode nodeC]
     = (Ok None, packagesHeader :: rows) /\
     length rows
     = length [packageOfNode nodeA; packageOfNode nodeB; packageOfNode nodeC] /\
     createVersionsCSV noError noError "acme"
       [packageOfNode nodeA; packageOfNode nodeB; packageOfNode nodeC]
     = (None, versionsHeader :: vrows) /\
     length vrows
     = getTotalVersions
         [packageOfNode nodeA; packageOfNode nodeB; packageOfNode nodeC]).
Proof.
  apply (fetched_packages_export noError noError [inr page1; inr page2]
           [packageOfNode nodeA; packageOfNode nodeB; packageOfNode nodeC]
           [None; Some "cursor-1"] "acme").
  reflexivity.
Defined.

Example export_two_pages :
  createPackagesCSV noError noError "acme"
    [packageOfNode nodeA; packageOfNode nodeB; packageOfNode nodeC]
  = (Ok None,
     [packagesHeader;
      ["ID-A"; "pkgA"; "npm"; "repoA"; "https://github.com/acme/repoA"; "12"; "1"];
      ["ID-B"; "pkgB"; "npm"; "repoB"; "https://github.com/acme/repoB"; "0"; "0"];
      ["ID-C"; "pkgC"; "npm"; "repoC"; "https://github.com/acme/repoC"; "3"; "0"]]) /\
  createVersionsCSV noError noError "acme"
    [packageOfNode nodeA; packageOfNode nodeB; packageOfNode nodeC]
  = (None,
     [versionsHeader;
      ["ID-A"; "pkgA"; "VA1"; "1.0.0"; "2024-01-01T00:00:00Z";
       "2024-01-02T00:00:00Z"; "1"; "310"]]).
Proof. vm_compute. done. Qed.

(** A package without its repository makes [createPackagesCSV] panic. *)
Example export_nil_repository :
  createPackagesCSV noError noError "acme"
    [mkPackage "ID-X" "pkgX" "npm" None (Some (mkStatistics 0)) []]
  = (Panic nilDereference, [packagesHeader]).
Proof. reflexivity. Qed.
End ExportFacts.


(** ** npm uploads *)

Module NpmFacts.
Import GoStrings api.

Lemma findNpmFiles_found files : forall pkgJSON tarball,
  (fst (findNpmFiles files pkgJSON tarball) = pkgJSON \/
   (fst (findNpmFiles files pkgJSON tarball) ∈ files /\
    Base (fst (findNpmFiles files pkgJSON tarball)) = "package.json")) /\
  (snd (findNpmFiles files pkgJSON tarball) = tarball \/
   (snd (findNpmFiles files pkgJSON tarball) ∈ files /\
    Ext (snd (findNpmFiles files pkgJSON tarball)) = ".tgz")).
Proof.
  induction files as [|file rest IH]; intros pkgJSON tarball; [by split; left|].
  cbn [findNpmFiles].
  destruct (String.eqb (Base file) "package.json") eqn:Hbase.
  - apply String.eqb_eq in Hbase.
    destruct (IH file tarball) as [[->|[Hin Hb]] [Ht|[Hint Ht]]]; split;
      first [ by left
            | right; split; [apply elem_of_cons; by left | done]
            | right; split; [apply elem_of_cons; by right | done] ].
  - destruct (String.eqb (Ext file) ".tgz") eqn:Hext.
    + apply String.eqb_eq in Hext.
      destruct (IH pkgJSON file) as [[Hp|[Hin Hb]] [->|[Hint Ht]]]; split;
        first [ by left
              | right; split; [apply elem_of_cons; by left | done]
              | right; split; [apply elem_of_cons; by right | done] ].
    + destruct (IH pkgJSON tarball) as [[Hp|[Hin Hb]] [Ht|[Hint Ht]]]; split;
        first [ by left
              | right; split; [apply elem_of_cons; by right | done] ].
Qed.

Section Npm.
Context {W : Type}.
Variable fs : string -> option string.
Variable jsonUnmarshal : string -> string + NPMPackage.
Variable uploadNPMFiles :
  string -> string -> string -> string -> string -> W -> option error * W.

Local Abbreviation parseNPMPackage := (api.parseNPMPackage fs jsonUnmarshal).
Local Abbreviation NPMUpload := (api.NPMUpload fs jsonUnmarshal uploadNPMFiles).

(** X: [NPMUpload] does not read the package name of its options:
    another name gives the same result. When it makes an attempt at all,
    the upload has a file named [package.json] and a file of extension
    [.tgz], the descriptor parses with a name and a version, its version is
    the version asked for, and what is published is published under the
    name of the descriptor. *)
Theorem NPMUpload_publishes_descriptor_name (m : UploadManager)
        (ctx : nat -> option error) (opts : UploadOptions) (w : W) :
  (forall name, NPMUpload m ctx (withPackageName opts name) w
                = NPMUpload m ctx opts w) /\
  (snd (NPMUpload m ctx opts w) <> [] ->
   exists pkgJSON tarball npmPackage,
     pkgJSON ∈ opts_Files opts /\ Base pkgJSON = "package.json" /\
     tarball ∈ opts_Files opts /\ Ext tarball = ".tgz" /\
     parseNPMPackage pkgJSON = inl npmPackage /\
     npm_Name npmPackage <> "" /\
     npm_Version npmPackage = opts_Version opts /\
     NPMUpload m ctx opts w
     = retryableUpload m
         (uploadNPMFiles (opts_Organization opts) (npm_Name npmPackage)
                         (opts_Version opts) pkgJSON tarball) ctx w).
Proof.
  split; [done|]. unfold api.NPMUpload.
  destruct (findNpmFiles_found (opts_Files opts) "" "") as [Hp Ht].
  destruct (findNpmFiles (opts_Files opts) "" "") as [pkgJSON tarball].
  simpl in Hp, Ht.
  destruct (String.eqb pkgJSON "") eqn:Hpe; [done|].
  destruct (String.eqb tarball "") eqn:Hte; [done|]. cbn [orb].
  apply String.eqb_neq in Hpe, Hte.
  destruct Hp as [Hp|[Hpin Hbase]]; [done|].
  destruct Ht as [Ht|[Htin Hext]]; [done|].
  destruct (parseNPMPackage pkgJSON) as [npmPackage|err] eqn:Hparse; [|done].
  destruct (String.eqb (npm_Version npmPackage) (opts_Version opts)) eqn:Hv;
    [|done].
  apply String.eqb_eq in Hv. intros _.
  exists pkgJSON, tarball, npmPackage. repeat split; try done.
  unfold api.parseNPMPackage in Hparse.
  destruct (fs pkgJSON) as [data|]; [|done].
  destruct (jsonUnmarshal data) as [e|parsed]; [done|].
  destruct (String.eqb (npm_Name parsed) "") eqn:Hn; [done|].
  destruct (String.eqb (npm_Version parsed) ""); [done|].
  injection Hparse as <-. by apply String.eqb_neq.
Qed.
End Npm.

(** Asked to publish [renamed], the upload publishes [@acme/widget], the
    name in [package.json]. *)
Example NPMUpload_renamed :
  api.NPMUpload npmFiles npmJson npmRegistry NewUploadManager noContext
    (mkUploadOptions "acme" "renamed" "1.0.0" "npm" ∅
       ["dist/package.json"; "dist/widget-1.0.0.tgz"] "private") []
  = (None, [("@acme/widget", "1.0.0")], [RAttempt 0 None]).
Proof. reflexivity. Qed.
End NpmFacts.
